(** * iamy: account identity, ownership classifier and fetch orchestration

    A shallow embedding of [iamy/models.go] and of the AWS fetcher that
    lives next to it, followed by the properties stated for them.

    Conventions.
    - Go strings are [string]; [fmt.Sprintf] with only [%s] verbs is
      concatenation ([+:+]).
    - A Go [map[string]string] is a [gmap string string]; the two-valued
      lookup [v, ok := m[k]] is [m !! k].
    - A function that may [panic] returns an [outcome]; a Go [error] value
      is an [option error] ([None] is [nil]).
    - Calls into the AWS SDK and into the other files of the package are
      the fields of one interface, [Clients].
    - What the code writes to the log is left out. *)

From Stdlib Require Import ZArith String Ascii List Bool Permutation Lia.
From stdpp Require Import base option list strings gmap.

Set Default Proof Using "Type".

(** Let [simpl] compute a concatenation whose left operand is known. *)
#[local] Arguments String.append !_ _ / : simpl nomatch.

(** ** Results of code that may panic *)

Inductive outcome (A : Type) : Type :=
| Ok (a : A)
| Panic (msg : string).
Arguments Ok {A} a.
Arguments Panic {A} msg.

Definition returns {A} (o : outcome A) : Prop := exists a, o = Ok a.
Definition panics {A} (o : outcome A) : Prop := exists msg, o = Panic msg.

(** Message of Go's runtime error for [xs[0]] on an empty slice. *)
Definition index_out_of_range : string :=
  "runtime error: index out of range [0] with length 0".

(** ** A backtracking matcher for the fragment of [regexp] syntax in use

    Go's [regexp] package returns the match a backtracking engine finds
    first (leftmost-first), so a greedy operator tries the longer
    alternative before the shorter one.  The continuation receives the text
    matched by the expression, the rest of the input and the capture
    groups. *)

Module Regexp.

Inductive regex : Type :=
| Class (p : ascii -> bool)
| Cat (r1 r2 : regex)
| Opt (r : regex)
| PlusClass (p : ascii -> bool)
| Group (i : nat) (r : regex).

Definition caps : Type := list string.
Definition cont : Type := string -> string -> caps -> option caps.

(** [p+], greedy: as many characters as possible, giving back one at a
    time when the continuation fails. *)
Fixpoint plus_greedy (p : ascii -> bool) (s : string)
    (k : string -> string -> option caps) : option caps :=
  match s with
  | String a s' =>
      if p a then
        match plus_greedy p s' (fun m rest => k (String a m) rest) with
        | Some c => Some c
        | None => k (String a EmptyString) s'
        end
      else None
  | EmptyString => None
  end.

Fixpoint rmatch (r : regex) (s : string) (c : caps) (k : cont) : option caps :=
  match r with
  | Class p =>
      match s with
      | String a s' => if p a then k (String a EmptyString) s' c else None
      | EmptyString => None
      end
  | Cat r1 r2 =>
      rmatch r1 s c (fun m1 s1 c1 =>
        rmatch r2 s1 c1 (fun m2 s2 c2 => k (m1 +:+ m2) s2 c2))
  | Opt r1 =>
      match rmatch r1 s c k with
      | Some c' => Some c'
      | None => k EmptyString s c
      end
  | PlusClass p => plus_greedy p s (fun m rest => k m rest c)
  | Group i r1 => rmatch r1 s c (fun m s' c' => k m s' (<[i := m]> c'))
  end.

(** [^r$] against the whole text: the submatches (whole match first, a
    group that took no part in the match is the empty string), if any. *)
Definition match_anchored (ngroups : nat) (r : regex) (s : string) : option caps :=
  rmatch r s (replicate (S ngroups) EmptyString)
    (fun m rest c =>
       match rest with
       | EmptyString => Some (<[0 := m]> c)
       | String _ _ => None
       end).

(** [FindAllStringSubmatch(s, -1)] for an expression anchored at both ends
    that cannot match the empty string: a match starts at offset 0 and
    ends at the end of the text, so there is at most one. *)
Definition FindAllStringSubmatch_anchored (ngroups : nat) (r : regex) (s : string)
    : list (list string) :=
  match match_anchored ngroups r s with
  | Some c => [c]
  | None => []
  end.

Definition in_range (lo hi : nat) (a : ascii) : bool :=
  (lo <=? nat_of_ascii a)%nat && (nat_of_ascii a <=? hi)%nat.

(** [\d] *)
Definition is_digit (a : ascii) : bool := in_range 48 57 a.

(** [\w] : [0-9A-Za-z_] *)
Definition is_word (a : ascii) : bool :=
  in_range 48 57 a || in_range 65 90 a || in_range 97 122 a || Ascii.eqb a "_".

(** [[\w-]] *)
Definition is_word_or_dash (a : ascii) : bool := is_word a || Ascii.eqb a "-".

End Regexp.

(** ** Account *)

Record Account : Type := mkAccount {
  Id : string;
  Alias : string
}.

Definition Account_String (a : Account) : string :=
  if negb (String.eqb (Alias a) "") then Alias a +:+ "-" +:+ Id a
  else Id a.

(** [^(([\w-]+)-)?(\d+)$] *)
Definition accountReg : Regexp.regex :=
  Regexp.Cat
    (Regexp.Opt
       (Regexp.Group 1
          (Regexp.Cat
             (Regexp.Group 2
                (Regexp.PlusClass Regexp.is_word_or_dash))
             (Regexp.Class (fun a => Ascii.eqb a "-")))))
    (Regexp.Group 3 (Regexp.PlusClass Regexp.is_digit)).

Definition cannot_create (s : string) : string :=
  "Can't create account name from " +:+ s.

Definition NewAccountFromString (s : string) : outcome Account :=
  let result := Regexp.FindAllStringSubmatch_anchored 3 accountReg s in
  match result with
  | [] => Panic (cannot_create s)
  | r0 :: _ =>
      if (length r0 =? 4)%nat then
        Ok {| Alias := nth 2 r0 ""; Id := nth 3 r0 "" |}
      else if (length r0 =? 3)%nat then
        Ok {| Alias := ""; Id := nth 1 r0 "" |}
      else Panic (cannot_create s)
  end.

Definition arnFor (a : Account) (key path name : string) : string :=
  "arn:aws:iam::" +:+ Id a +:+ ":" +:+ key +:+ path +:+ name.

(** [strings.HasPrefix] *)
Definition HasPrefix (s pre : string) : bool := String.prefix pre s.

(** [strings.TrimPrefix] *)
Definition TrimPrefix (s pre : string) : string :=
  if HasPrefix s pre
  then String.substring (String.length pre) (String.length s - String.length pre) s
  else s.

(** [strings.Contains] *)
Fixpoint Contains (s sub : string) : bool :=
  String.prefix sub s ||
  match s with
  | EmptyString => false
  | String _ s' => Contains s' sub
  end.

(** Every character of [s] satisfies [p]. *)
Fixpoint all_chars (p : ascii -> bool) (s : string) : bool :=
  match s with
  | EmptyString => true
  | String a s' => p a && all_chars p s'
  end.

Definition policyArnFromString (a : Account) (nameOrArn : string) : string :=
  if HasPrefix nameOrArn "arn:" then nameOrArn
  else "arn:aws:iam::" +:+ Id a +:+ ":policy/" +:+ nameOrArn.

Definition normalisePolicyArn (a : Account) (arn : string) : string :=
  TrimPrefix arn ("arn:aws:iam::" +:+ Id a +:+ ":policy/").

(** ** Errors

    [errors.New] and [errors.Wrap] of [github.com/pkg/errors]; [Error()]
    of a wrapped error is the message, a colon and the cause. *)

Inductive error : Type :=
| errors_New (msg : string)
| errors_Wrap (cause : error) (msg : string).

Fixpoint Error (e : error) : string :=
  match e with
  | errors_New msg => msg
  | errors_Wrap cause msg => msg +:+ ": " +:+ Error cause
  end.

Global Instance error_eq_dec : EqDecision error.
Proof. solve_decision. Defined.

(** ** Responses of the IAM and S3 clients

    Only the fields the fetcher reads.  The SDK hands them out behind
    pointers that its responses always fill; they are plain values here.
    A [time.Time] is its instant on the time line. *)

Record iam_Tag : Type := { Tag_Key : string; Tag_Value : string }.

Record iam_PolicyVersion : Type := {
  PolicyVersion_Document : string;
  PolicyVersion_VersionId : string;
  PolicyVersion_IsDefaultVersion : bool;
  PolicyVersion_CreateDate : Z
}.

Record iam_AttachedPolicy : Type := { AttachedPolicy_PolicyArn : string }.

Record iam_PolicyDetail : Type := {
  PolicyDetail_PolicyName : string;
  PolicyDetail_PolicyDocument : string
}.

Record iam_UserDetail : Type := {
  UserDetail_UserName : string;
  UserDetail_Path : string;
  UserDetail_Tags : list iam_Tag;
  UserDetail_GroupList : list string;
  UserDetail_AttachedManagedPolicies : list iam_AttachedPolicy;
  UserDetail_UserPolicyList : list iam_PolicyDetail
}.

Record iam_GroupDetail : Type := {
  GroupDetail_GroupName : string;
  GroupDetail_Path : string;
  GroupDetail_AttachedManagedPolicies : list iam_AttachedPolicy;
  GroupDetail_GroupPolicyList : list iam_PolicyDetail
}.

Record iam_RoleDetail : Type := {
  RoleDetail_RoleName : string;
  RoleDetail_Path : string;
  RoleDetail_Tags : list iam_Tag;
  RoleDetail_AssumeRolePolicyDocument : string;
  RoleDetail_AttachedManagedPolicies : list iam_AttachedPolicy;
  RoleDetail_RolePolicyList : list iam_PolicyDetail
}.

Record iam_ManagedPolicyDetail : Type := {
  ManagedPolicyDetail_Arn : string;
  ManagedPolicyDetail_PolicyName : string;
  ManagedPolicyDetail_Path : string;
  ManagedPolicyDetail_PolicyVersionList : list iam_PolicyVersion
}.

Record iam_GetAccountAuthorizationDetailsOutput : Type := {
  UserDetailList : list iam_UserDetail;
  GroupDetailList : list iam_GroupDetail;
  RoleDetailList : list iam_RoleDetail;
  Policies : list iam_ManagedPolicyDetail
}.

Record iam_RoleName : Type := { Role_RoleName : string }.

Record iam_InstanceProfile : Type := {
  InstanceProfile_InstanceProfileName : string;
  InstanceProfile_Path : string;
  InstanceProfile_Roles : list iam_RoleName
}.

Record iam_ListInstanceProfilesOutput : Type := {
  InstanceProfiles : list iam_InstanceProfile
}.

Record s3_bucket : Type := {
  bucket_name : string;
  bucket_policyJson : string;
  bucket_tags : gmap string string
}.

(** ** Policy versions *)

Definition expected_default : string := "Expected a default policy version".

Fixpoint findDefaultPolicyVersion (versions : list iam_PolicyVersion)
    : outcome iam_PolicyVersion :=
  match versions with
  | [] => Panic expected_default
  | version :: rest =>
      if PolicyVersion_IsDefaultVersion version then Ok version
      else findDefaultPolicyVersion rest
  end.

Fixpoint findNonDefaultPolicyVersionIds_from (ss : list string)
    (versions : list iam_PolicyVersion) : list string :=
  match versions with
  | [] => ss
  | version :: rest =>
      findNonDefaultPolicyVersionIds_from
        (if negb (PolicyVersion_IsDefaultVersion version)
         then ss ++ [PolicyVersion_VersionId version] else ss)
        rest
  end.

Definition findNonDefaultPolicyVersionIds (versions : list iam_PolicyVersion)
    : list string :=
  findNonDefaultPolicyVersionIds_from [] versions.

(** [t.Before(u)] *)
Definition Before (t u : Z) : bool := (t <? u)%Z.

Fixpoint findOldest_from (oldest : iam_PolicyVersion)
    (versions : list iam_PolicyVersion) : iam_PolicyVersion :=
  match versions with
  | [] => oldest
  | version :: rest =>
      findOldest_from
        (if Before (PolicyVersion_CreateDate version) (PolicyVersion_CreateDate oldest)
         then version else oldest)
        rest
  end.

Definition findOldestPolicyVersionId (versions : list iam_PolicyVersion)
    : outcome string :=
  match versions with
  | [] => Panic index_out_of_range
  | first :: rest => Ok (PolicyVersion_VersionId (findOldest_from first rest))
  end.

(** ** The clients the fetcher calls

    What the rest of the package and the AWS SDK provide, as one
    interface.
    - [PolicyDocument] and its two constructors live in another file of
      the package; both return a document pointer and an error.
    - [CfnResourceType], its constants, the ownership index
      [IsManagedResource] and [PopulateMangedResourceData] are the
      CloudFormation client's.
    - The SDK's pagers call the handler on each page until it returns
      [false]; what they return then is theirs to decide.  They know
      nothing of the handler's state, so they are polymorphic in it.
    - [completion_order] is the scheduler's choice of the order in which
      the lookups of a wait group finish. *)

(** A lookup dispatched on its own goroutine, with the address of the
    record it writes. *)
Inductive lookup : Type :=
| PolicyDescriptionLookup (policyArn : string) (target : nat)
| RoleLookup (roleName : string) (target : nat).

Class Clients : Type := {
  PolicyDocument : Type;
  NewPolicyDocumentFromJson : string -> option PolicyDocument * option error;
  NewPolicyDocumentFromEncodedJson : string -> option PolicyDocument * option error;
  CfnResourceType : Type;
  CfnIamUser : CfnResourceType;
  CfnIamGroup : CfnResourceType;
  CfnIamRole : CfnResourceType;
  CfnIamPolicy : CfnResourceType;
  CfnInstanceProfile : CfnResourceType;
  CfnS3Bucket : CfnResourceType;
  IsManagedResource : CfnResourceType -> string -> bool;
  PopulateMangedResourceData : option error;
  getMultiplePolicyTags :
    list string -> gmap string (gmap string string) * option error;
  getPolicyDescription : string -> string * option error;
  getRole : string -> string * Z * option error;
  listAllBuckets : list s3_bucket * option error;
  GetAwsAccountId : string * option error;
  ErrMissingRegion : error;
  ListAccountAliases : list string * option error;
  GetAccountAuthorizationDetailsPages : forall S : Type,
    (iam_GetAccountAuthorizationDetailsOutput -> S -> outcome (bool * S)) ->
    S -> outcome (option error * S);
  ListInstanceProfilesPages : forall S : Type,
    (iam_ListInstanceProfilesOutput -> S -> outcome (bool * S)) ->
    S -> outcome (option error * S);
  completion_order : list lookup -> list lookup
}.

(** [err != nil] *)
Definition notNil (err : option error) : bool :=
  match err with Some _ => true | None => false end.

(** ** The account snapshot and the fetcher *)

Section Fetcher.

Context `{Clients}.

Record iamService : Type := { Name : string; Path : string }.

Record InlinePolicy : Type := {
  InlinePolicy_Name : string;
  InlinePolicy_Policy : option PolicyDocument
}.

Record User : Type := {
  User_iamService : iamService;
  User_Groups : list string;
  User_InlinePolicies : list InlinePolicy;
  User_Policies : list string;
  User_Tags : gmap string string
}.

Record Group : Type := {
  Group_iamService : iamService;
  Group_InlinePolicies : list InlinePolicy;
  Group_Policies : list string
}.

Record Policy : Type := {
  Policy_iamService : iamService;
  numberOfVersions : nat;
  oldestVersionId : string;
  nondefaultVersionIds : list string;
  Policy_Description : string;
  Policy_Policy : option PolicyDocument;
  Policy_Tags : gmap string string
}.

Record Role : Type := {
  Role_iamService : iamService;
  Role_Description : string;
  AssumeRolePolicyDocument : option PolicyDocument;
  Role_InlinePolicies : list InlinePolicy;
  Role_Policies : list string;
  MaxSessionDuration : Z
}.

Record InstanceProfile : Type := {
  InstanceProfile_iamService : iamService;
  Roles : list string
}.

Record BucketPolicy : Type := {
  BucketName : string;
  BucketPolicy_Policy : option PolicyDocument
}.

(** Users, groups, instance profiles and bucket policies are not written
    once they are appended and are kept by value.  A [Role] and a [Policy]
    are written, after they are built, by the lookup dispatched for them:
    they live in a store and the collections hold their addresses. *)
Record AccountData : Type := {
  AccountData_Account : Account;
  AccountData_Users : list User;
  AccountData_Groups : list Group;
  AccountData_Roles : list nat;
  AccountData_Policies : list nat;
  AccountData_BucketPolicies : list BucketPolicy;
  AccountData_InstanceProfiles : list InstanceProfile
}.

Definition addUser (u : User) (d : AccountData) : AccountData :=
  {| AccountData_Account := AccountData_Account d;
     AccountData_Users := AccountData_Users d ++ [u];
     AccountData_Groups := AccountData_Groups d;
     AccountData_Roles := AccountData_Roles d;
     AccountData_Policies := AccountData_Policies d;
     AccountData_BucketPolicies := AccountData_BucketPolicies d;
     AccountData_InstanceProfiles := AccountData_InstanceProfiles d |}.

Definition addGroup (g : Group) (d : AccountData) : AccountData :=
  {| AccountData_Account := AccountData_Account d;
     AccountData_Users := AccountData_Users d;
     AccountData_Groups := AccountData_Groups d ++ [g];
     AccountData_Roles := AccountData_Roles d;
     AccountData_Policies := AccountData_Policies d;
     AccountData_BucketPolicies := AccountData_BucketPolicies d;
     AccountData_InstanceProfiles := AccountData_InstanceProfiles d |}.

Definition addRole (r : nat) (d : AccountData) : AccountData :=
  {| AccountData_Account := AccountData_Account d;
     AccountData_Users := AccountData_Users d;
     AccountData_Groups := AccountData_Groups d;
     AccountData_Roles := AccountData_Roles d ++ [r];
     AccountData_Policies := AccountData_Policies d;
     AccountData_BucketPolicies := AccountData_BucketPolicies d;
     AccountData_InstanceProfiles := AccountData_InstanceProfiles d |}.

Definition addPolicy (p : nat) (d : AccountData) : AccountData :=
  {| AccountData_Account := AccountData_Account d;
     AccountData_Users := AccountData_Users d;
     AccountData_Groups := AccountData_Groups d;
     AccountData_Roles := AccountData_Roles d;
     AccountData_Policies := AccountData_Policies d ++ [p];
     AccountData_BucketPolicies := AccountData_BucketPolicies d;
     AccountData_InstanceProfiles := AccountData_InstanceProfiles d |}.

Definition addBucketPolicy (bp : BucketPolicy) (d : AccountData) : AccountData :=
  {| AccountData_Account := AccountData_Account d;
     AccountData_Users := AccountData_Users d;
     AccountData_Groups := AccountData_Groups d;
     AccountData_Roles := AccountData_Roles d;
     AccountData_Policies := AccountData_Policies d;
     AccountData_BucketPolicies := AccountData_BucketPolicies d ++ [bp];
     AccountData_InstanceProfiles := AccountData_InstanceProfiles d |}.

Definition addInstanceProfile (p : InstanceProfile) (d : AccountData) : AccountData :=
  {| AccountData_Account := AccountData_Account d;
     AccountData_Users := AccountData_Users d;
     AccountData_Groups := AccountData_Groups d;
     AccountData_Roles := AccountData_Roles d;
     AccountData_Policies := AccountData_Policies d;
     AccountData_BucketPolicies := AccountData_BucketPolicies d;
     AccountData_InstanceProfiles := AccountData_InstanceProfiles d ++ [p] |}.

(** One call of the classifier: kind, identifier, tags, path. *)
Definition classifier_call : Type :=
  (CfnResourceType * string * gmap string string * string)%type.

(** The settings, [account], [data] and the two error slots are the fields
    of the source; its clients are the [Clients] interface and its [Debug]
    logger is left out.  [account] is set by [init] before anything reads
    it.  [descriptionFetchWaitGroup] holds the lookups dispatched and not
    yet joined.  [roleStore] and [policyStore] are the stores of the
    records the snapshot points to.  [classified] is a history variable:
    the calls of the classifier so far, in order; no code reads it. *)
Record AwsFetcher : Type := {
  SkipFetchingPolicyAndRoleDescriptions : bool;
  HeuristicCfnMatching : bool;
  SkipTagged : list string;
  IncludeTagged : list string;
  SkipPathPrefixes : list string;
  account : Account;
  data : AccountData;
  descriptionFetchWaitGroup : list lookup;
  descriptionFetchError : option error;
  policyTagFetchError : option error;
  roleStore : list Role;
  policyStore : list Policy;
  classified : list classifier_call
}.

Definition with_account (x : Account) (a : AwsFetcher) : AwsFetcher :=
  {| SkipFetchingPolicyAndRoleDescriptions := SkipFetchingPolicyAndRoleDescriptions a;
     HeuristicCfnMatching := HeuristicCfnMatching a;
     SkipTagged := SkipTagged a; IncludeTagged := IncludeTagged a;
     SkipPathPrefixes := SkipPathPrefixes a;
     account := x; data := data a;
     descriptionFetchWaitGroup := descriptionFetchWaitGroup a;
     descriptionFetchError := descriptionFetchError a;
     policyTagFetchError := policyTagFetchError a;
     roleStore := roleStore a; policyStore := policyStore a;
     classified := classified a |}.

Definition with_data (x : AccountData) (a : AwsFetcher) : AwsFetcher :=
  {| SkipFetchingPolicyAndRoleDescriptions := SkipFetchingPolicyAndRoleDescriptions a;
     HeuristicCfnMatching := HeuristicCfnMatching a;
     SkipTagged := SkipTagged a; IncludeTagged := IncludeTagged a;
     SkipPathPrefixes := SkipPathPrefixes a;
     account := account a; data := x;
     descriptionFetchWaitGroup := descriptionFetchWaitGroup a;
     descriptionFetchError := descriptionFetchError a;
     policyTagFetchError := policyTagFetchError a;
     roleStore := roleStore a; policyStore := policyStore a;
     classified := classified a |}.

Definition with_descriptionFetchWaitGroup (x : list lookup) (a : AwsFetcher) : AwsFetcher :=
  {| SkipFetchingPolicyAndRoleDescriptions := SkipFetchingPolicyAndRoleDescriptions a;
     HeuristicCfnMatching := HeuristicCfnMatching a;
     SkipTagged := SkipTagged a; IncludeTagged := IncludeTagged a;
     SkipPathPrefixes := SkipPathPrefixes a;
     account := account a; data := data a;
     descriptionFetchWaitGroup := x;
     descriptionFetchError := descriptionFetchError a;
     policyTagFetchError := policyTagFetchError a;
     roleStore := roleStore a; policyStore := policyStore a;
     classified := classified a |}.

Definition with_descriptionFetchError (x : option error) (a : AwsFetcher) : AwsFetcher :=
  {| SkipFetchingPolicyAndRoleDescriptions := SkipFetchingPolicyAndRoleDescriptions a;
     HeuristicCfnMatching := HeuristicCfnMatching a;
     SkipTagged := SkipTagged a; IncludeTagged := IncludeTagged a;
     SkipPathPrefixes := SkipPathPrefixes a;
     account := account a; data := data a;
     descriptionFetchWaitGroup := descriptionFetchWaitGroup a;
     descriptionFetchError := x;
     policyTagFetchError := policyTagFetchError a;
     roleStore := roleStore a; policyStore := policyStore a;
     classified := classified a |}.

Definition with_roleStore (x : list Role) (a : AwsFetcher) : AwsFetcher :=
  {| SkipFetchingPolicyAndRoleDescriptions := SkipFetchingPolicyAndRoleDescriptions a;
     HeuristicCfnMatching := HeuristicCfnMatching a;
     SkipTagged := SkipTagged a; IncludeTagged := IncludeTagged a;
     SkipPathPrefixes := SkipPathPrefixes a;
     account := account a; data := data a;
     descriptionFetchWaitGroup := descriptionFetchWaitGroup a;
     descriptionFetchError := descriptionFetchError a;
     policyTagFetchError := policyTagFetchError a;
     roleStore := x; policyStore := policyStore a;
     classified := classified a |}.

Definition with_policyStore (x : list Policy) (a : AwsFetcher) : AwsFetcher :=
  {| SkipFetchingPolicyAndRoleDescriptions := SkipFetchingPolicyAndRoleDescriptions a;
     HeuristicCfnMatching := HeuristicCfnMatching a;
     SkipTagged := SkipTagged a; IncludeTagged := IncludeTagged a;
     SkipPathPrefixes := SkipPathPrefixes a;
     account := account a; data := data a;
     descriptionFetchWaitGroup := descriptionFetchWaitGroup a;
     descriptionFetchError := descriptionFetchError a;
     policyTagFetchError := policyTagFetchError a;
     roleStore := roleStore a; policyStore := x;
     classified := classified a |}.

Definition with_classified (x : list classifier_call) (a : AwsFetcher) : AwsFetcher :=
  {| SkipFetchingPolicyAndRoleDescriptions := SkipFetchingPolicyAndRoleDescriptions a;
     HeuristicCfnMatching := HeuristicCfnMatching a;
     SkipTagged := SkipTagged a; IncludeTagged := IncludeTagged a;
     SkipPathPrefixes := SkipPathPrefixes a;
     account := account a; data := data a;
     descriptionFetchWaitGroup := descriptionFetchWaitGroup a;
     descriptionFetchError := descriptionFetchError a;
     policyTagFetchError := policyTagFetchError a;
     roleStore := roleStore a; policyStore := policyStore a;
     classified := x |}.

(** *** The classifier *)

Fixpoint include_tag_present (tags : gmap string string) (keys : list string) : bool :=
  match keys with
  | [] => false
  | tag :: rest =>
      match tags !! tag with
      | Some _ => true
      | None => include_tag_present tags rest
      end
  end.

Fixpoint skip_tag_reason (resourceIdentifier : string) (tags : gmap string string)
    (keys : list string) : option string :=
  match keys with
  | [] => None
  | tag :: rest =>
      match tags !! tag with
      | Some stackName =>
          Some ("Skipping resource " +:+ resourceIdentifier +:+ " tagged with "
                +:+ tag +:+ " in stack " +:+ stackName)
      | None => skip_tag_reason resourceIdentifier tags rest
      end
  end.

Fixpoint skip_path_reason (resourceIdentifier resourcePath : string)
    (prefixes : list string) : option string :=
  match prefixes with
  | [] => None
  | path :: rest =>
      if HasPrefix resourcePath path then
        Some ("Skipping resource " +:+ resourceIdentifier +:+ " with path "
              +:+ resourcePath +:+ " matches " +:+ path)
      else skip_path_reason resourceIdentifier resourcePath rest
  end.

Definition isSkippableManagedResource (a : AwsFetcher) (cfnType : CfnResourceType)
    (resourceIdentifier : string) (tags : gmap string string) (resourcePath : string)
    : bool * string :=
  if (0 <? length (IncludeTagged a))%nat && include_tag_present tags (IncludeTagged a)
  then (false, "")
  else
    match skip_tag_reason resourceIdentifier tags (SkipTagged a) with
    | Some reason => (true, reason)
    | None =>
        match skip_path_reason resourceIdentifier resourcePath (SkipPathPrefixes a) with
        | Some reason => (true, reason)
        | None =>
            if IsManagedResource cfnType resourceIdentifier then
              (true, "CloudFormation generated resource " +:+ resourceIdentifier)
            else if Contains resourceIdentifier "AWSServiceRole"
                    || Contains resourceIdentifier "aws-service-role" then
              (true, "AWS Service role generated resource " +:+ resourceIdentifier)
            else (false, "")
        end
    end.

(** *** Computations on the fetcher

    A method with receiver [a *AwsFetcher] takes the fetcher and gives it
    back; a panic ends the computation. *)

Definition M (A : Type) : Type := AwsFetcher -> outcome (A * AwsFetcher).

Definition ret {A} (x : A) : M A := fun a => Ok (x, a).

Definition bind {A B} (c : M A) (k : A -> M B) : M B :=
  fun a =>
    match c a with
    | Ok (x, a') => k x a'
    | Panic msg => Panic msg
    end.

Notation "x <- c ;; k" := (bind c (fun x => k))
  (at level 100, c at next level, right associativity).
Notation "c ;;; k" := (bind c (fun _ => k))
  (at level 100, right associativity).

Definition get : M AwsFetcher := fun a => Ok (a, a).
Definition modify (f : AwsFetcher -> AwsFetcher) : M unit := fun a => Ok (tt, f a).
Definition lift {A} (o : outcome A) : M A :=
  fun a => match o with Ok x => Ok (x, a) | Panic msg => Panic msg end.

(** A [for ... range] loop whose body either goes on to the next element
    ([None]: the end of the body or [continue]) or leaves the enclosing
    function with an error ([Some err]). *)
Fixpoint forEach {A} (body : A -> M (option error)) (xs : list A) : M (option error) :=
  match xs with
  | [] => ret None
  | x :: rest =>
      r <- body x ;;
      match r with
      | Some err => ret (Some err)
      | None => forEach body rest
      end
  end.

(** Go on with [k] unless [c] left with an error. *)
Definition orReturn (c : M (option error)) (k : M (option error)) : M (option error) :=
  r <- c ;;
  match r with
  | Some err => ret (Some err)
  | None => k
  end.

(** The classifier as the fetcher calls it: the call is added to the
    history. *)
Definition classify (cfnType : CfnResourceType) (resourceIdentifier : string)
    (tags : gmap string string) (resourcePath : string) : M (bool * string) :=
  fun a =>
    Ok (isSkippableManagedResource a cfnType resourceIdentifier tags resourcePath,
        with_classified
          (classified a ++ [(cfnType, resourceIdentifier, tags, resourcePath)]) a).

(** *** Lookups on their own goroutines *)

Definition set_Policy_Description (d : string) (p : Policy) : Policy :=
  {| Policy_iamService := Policy_iamService p;
     numberOfVersions := numberOfVersions p;
     oldestVersionId := oldestVersionId p;
     nondefaultVersionIds := nondefaultVersionIds p;
     Policy_Description := d;
     Policy_Policy := Policy_Policy p;
     Policy_Tags := Policy_Tags p |}.

Definition set_Policy_Tags (t : gmap string string) (p : Policy) : Policy :=
  {| Policy_iamService := Policy_iamService p;
     numberOfVersions := numberOfVersions p;
     oldestVersionId := oldestVersionId p;
     nondefaultVersionIds := nondefaultVersionIds p;
     Policy_Description := Policy_Description p;
     Policy_Policy := Policy_Policy p;
     Policy_Tags := t |}.

Definition set_Role_lookup (d : string) (sessionDuration : Z) (r : Role) : Role :=
  {| Role_iamService := Role_iamService r;
     Role_Description := d;
     AssumeRolePolicyDocument := AssumeRolePolicyDocument r;
     Role_InlinePolicies := Role_InlinePolicies r;
     Role_Policies := Role_Policies r;
     MaxSessionDuration :=
       if (0 <? sessionDuration)%Z then sessionDuration else MaxSessionDuration r |}.

Definition set_Role_AssumeRolePolicyDocument (doc : option PolicyDocument) (r : Role)
    : Role :=
  {| Role_iamService := Role_iamService r;
     Role_Description := Role_Description r;
     AssumeRolePolicyDocument := doc;
     Role_InlinePolicies := Role_InlinePolicies r;
     Role_Policies := Role_Policies r;
     MaxSessionDuration := MaxSessionDuration r |}.

Definition set_Role_Policies (policies : list string) (r : Role) : Role :=
  {| Role_iamService := Role_iamService r;
     Role_Description := Role_Description r;
     AssumeRolePolicyDocument := AssumeRolePolicyDocument r;
     Role_InlinePolicies := Role_InlinePolicies r;
     Role_Policies := policies;
     MaxSessionDuration := MaxSessionDuration r |}.

Definition set_Role_InlinePolicies (inline : list InlinePolicy) (r : Role) : Role :=
  {| Role_iamService := Role_iamService r;
     Role_Description := Role_Description r;
     AssumeRolePolicyDocument := AssumeRolePolicyDocument r;
     Role_InlinePolicies := inline;
     Role_Policies := Role_Policies r;
     MaxSessionDuration := MaxSessionDuration r |}.

(** The error a lookup ends with. *)
Definition lookup_error (l : lookup) : option error :=
  match l with
  | PolicyDescriptionLookup policyArn _ => snd (getPolicyDescription policyArn)
  | RoleLookup roleName _ => snd (getRole roleName)
  end.

(** The body of the goroutine: write the target, then store the error, if
    any, in the fetcher's slot. *)
Definition run_lookup (a : AwsFetcher) (l : lookup) : AwsFetcher :=
  let a' :=
    match l with
    | PolicyDescriptionLookup policyArn target =>
        with_policyStore
          (alter (set_Policy_Description (fst (getPolicyDescription policyArn)))
                 target (policyStore a)) a
    | RoleLookup roleName target =>
        let '(d, sessionDuration, _) := getRole roleName in
        with_roleStore (alter (set_Role_lookup d sessionDuration) target (roleStore a)) a
    end in
  match lookup_error l with
  | Some err => with_descriptionFetchError (Some err) a'
  | None => a'
  end.

(** [descriptionFetchWaitGroup.Add(1); go func() { defer Done() ... }()].
    Nothing reads what a lookup writes before the wait group is joined, so
    its effect is applied at the join. *)
Definition dispatch (l : lookup) : M unit :=
  modify (fun a =>
    with_descriptionFetchWaitGroup (descriptionFetchWaitGroup a ++ [l]) a).

Definition marshalPolicyDescriptionAsync (policyArn : string) (target : nat) : M unit :=
  dispatch (PolicyDescriptionLookup policyArn target).

Definition marshalRoleAsync (roleName : string) (target : nat) : M unit :=
  dispatch (RoleLookup roleName target).

(** [descriptionFetchWaitGroup.Wait()] *)
Definition Wait : M unit :=
  modify (fun a =>
    with_descriptionFetchWaitGroup []
      (foldl run_lookup a (completion_order (descriptionFetchWaitGroup a)))).

(** *** Filling the snapshot from a page of authorization details *)

Definition tags_of (ts : list iam_Tag) : gmap string string :=
  foldl (fun tags tag => <[Tag_Key tag := Tag_Value tag]> tags) ∅ ts.

Fixpoint populateInlinePolicies (source : list iam_PolicyDetail)
    (target : list InlinePolicy) : list InlinePolicy * option error :=
  match source with
  | [] => (target, None)
  | ip :: rest =>
      match NewPolicyDocumentFromEncodedJson (PolicyDetail_PolicyDocument ip) with
      | (_, Some err) => (target, Some err)
      | (doc, None) =>
          populateInlinePolicies rest
            (target ++ [{| InlinePolicy_Name := PolicyDetail_PolicyName ip;
                           InlinePolicy_Policy := doc |}])
      end
  end.

Definition normalised (a : AwsFetcher) (ps : list iam_AttachedPolicy) : list string :=
  map (fun p => normalisePolicyArn (account a) (AttachedPolicy_PolicyArn p)) ps.

Definition populateUser (userResp : iam_UserDetail) : M (option error) :=
  let tags := tags_of (UserDetail_Tags userResp) in
  r <- classify CfnIamUser (UserDetail_UserName userResp) tags (UserDetail_Path userResp) ;;
  if fst r then ret None
  else
    a <- get ;;
    match populateInlinePolicies (UserDetail_UserPolicyList userResp) [] with
    | (_, Some err) => ret (Some err)
    | (inline, None) =>
        let user :=
          {| User_iamService := {| Name := UserDetail_UserName userResp;
                                   Path := UserDetail_Path userResp |};
             User_Groups := UserDetail_GroupList userResp;
             User_Policies := normalised a (UserDetail_AttachedManagedPolicies userResp);
             User_InlinePolicies := inline;
             User_Tags := tags |} in
        modify (fun a => with_data (addUser user (data a)) a) ;;;
        ret None
    end.

Definition populateGroup (groupResp : iam_GroupDetail) : M (option error) :=
  r <- classify CfnIamGroup (GroupDetail_GroupName groupResp) ∅ (GroupDetail_Path groupResp) ;;
  if fst r then ret None
  else
    a <- get ;;
    match populateInlinePolicies (GroupDetail_GroupPolicyList groupResp) [] with
    | (_, Some err) => ret (Some err)
    | (inline, None) =>
        let group :=
          {| Group_iamService := {| Name := GroupDetail_GroupName groupResp;
                                    Path := GroupDetail_Path groupResp |};
             Group_Policies := normalised a (GroupDetail_AttachedManagedPolicies groupResp);
             Group_InlinePolicies := inline |} in
        modify (fun a => with_data (addGroup group (data a)) a) ;;;
        ret None
    end.

(** [role := Role{...}]: the record the lookup and the snapshot point to. *)
Definition newRole (r : Role) : M nat :=
  fun a => Ok (length (roleStore a), with_roleStore (roleStore a ++ [r]) a).

(** A write to a field of the role at [role]. *)
Definition writeRole (role : nat) (f : Role -> Role) : M unit :=
  modify (fun a => with_roleStore (alter f role (roleStore a)) a).

(** A write to a field of the policy at [p]. *)
Definition writePolicy (p : nat) (f : Policy -> Policy) : M unit :=
  modify (fun a => with_policyStore (alter f p (policyStore a)) a).

Definition newPolicy (p : Policy) : M nat :=
  fun a => Ok (length (policyStore a), with_policyStore (policyStore a ++ [p]) a).

Definition populateRole (roleResp : iam_RoleDetail) : M (option error) :=
  let tags := tags_of (RoleDetail_Tags roleResp) in
  r <- classify CfnIamRole (RoleDetail_RoleName roleResp) tags (RoleDetail_Path roleResp) ;;
  if fst r then ret None
  else
    role <- newRole {| Role_iamService := {| Name := RoleDetail_RoleName roleResp;
                                             Path := RoleDetail_Path roleResp |};
                       Role_Description := "";
                       AssumeRolePolicyDocument := None;
                       Role_InlinePolicies := [];
                       Role_Policies := [];
                       MaxSessionDuration := 0 |} ;;
    a <- get ;;
    (if negb (SkipFetchingPolicyAndRoleDescriptions a)
     then marshalRoleAsync (RoleDetail_RoleName roleResp) role
     else ret tt) ;;;
    let '(doc, err) :=
      NewPolicyDocumentFromEncodedJson (RoleDetail_AssumeRolePolicyDocument roleResp) in
    writeRole role (set_Role_AssumeRolePolicyDocument doc) ;;;
    match err with
    | Some err => ret (Some err)
    | None =>
        writeRole role
          (set_Role_Policies
             (normalised a (RoleDetail_AttachedManagedPolicies roleResp))) ;;;
        let '(inline, err) :=
          populateInlinePolicies (RoleDetail_RolePolicyList roleResp) [] in
        writeRole role (set_Role_InlinePolicies inline) ;;;
        match err with
        | Some err => ret (Some err)
        | None =>
            modify (fun a => with_data (addRole role (data a)) a) ;;;
            ret None
        end
    end.

Definition populatePolicy (policyTags : gmap string (gmap string string))
    (policyResp : iam_ManagedPolicyDetail) : M (option error) :=
  r <- classify CfnIamPolicy (ManagedPolicyDetail_PolicyName policyResp) ∅
         (ManagedPolicyDetail_Path policyResp) ;;
  if fst r then ret None
  else
    defaultPolicyVersion <-
      lift (findDefaultPolicyVersion (ManagedPolicyDetail_PolicyVersionList policyResp)) ;;
    match NewPolicyDocumentFromEncodedJson (PolicyVersion_Document defaultPolicyVersion) with
    | (_, Some err) => ret (Some err)
    | (doc, None) =>
        oldest <-
          lift (findOldestPolicyVersionId (ManagedPolicyDetail_PolicyVersionList policyResp)) ;;
        p <- newPolicy
               {| Policy_iamService := {| Name := ManagedPolicyDetail_PolicyName policyResp;
                                          Path := ManagedPolicyDetail_Path policyResp |};
                  oldestVersionId := oldest;
                  numberOfVersions := length (ManagedPolicyDetail_PolicyVersionList policyResp);
                  nondefaultVersionIds :=
                    findNonDefaultPolicyVersionIds
                      (ManagedPolicyDetail_PolicyVersionList policyResp);
                  Policy_Description := "";
                  Policy_Policy := doc;
                  Policy_Tags := ∅ |} ;;
        a <- get ;;
        (if negb (SkipFetchingPolicyAndRoleDescriptions a)
         then marshalPolicyDescriptionAsync (ManagedPolicyDetail_Arn policyResp) p
         else ret tt) ;;;
        let tags := default ∅ (policyTags !! ManagedPolicyDetail_Arn policyResp) in
        writePolicy p (set_Policy_Tags tags) ;;;
        (* Need to do this _after_ we fetch tags for the Policy *)
        r <- classify CfnIamPolicy (ManagedPolicyDetail_PolicyName policyResp) tags
               (ManagedPolicyDetail_Path policyResp) ;;
        if fst r then ret None
        else
          modify (fun a => with_data (addPolicy p (data a)) a) ;;;
          ret None
    end.

(** Everything [populateIamData] does before it joins the lookups: [None]
    when it reaches the join, the error of the early [return] otherwise. *)
Definition populateIamData_pages (resp : iam_GetAccountAuthorizationDetailsOutput)
    : M (option error) :=
  orReturn (forEach populateUser (UserDetailList resp))
  (orReturn (forEach populateGroup (GroupDetailList resp))
  (orReturn (forEach populateRole (RoleDetailList resp))
  (let policyArns := map ManagedPolicyDetail_Arn (Policies resp) in
   match getMultiplePolicyTags policyArns with
   | (_, Some err) => ret (Some err)
   | (policyTags, None) => forEach (populatePolicy policyTags) (Policies resp)
   end))).

Definition populateIamData (resp : iam_GetAccountAuthorizationDetailsOutput)
    : M (option error) :=
  orReturn (populateIamData_pages resp)
    (Wait ;;;
     a <- get ;;
     ret (descriptionFetchError a)).

Definition populateInstanceProfile (profileResp : iam_InstanceProfile) : M (option error) :=
  r <- classify CfnInstanceProfile (InstanceProfile_InstanceProfileName profileResp) ∅
         (InstanceProfile_Path profileResp) ;;
  if fst r then ret None
  else
    let profile :=
      {| InstanceProfile_iamService :=
           {| Name := InstanceProfile_InstanceProfileName profileResp;
              Path := InstanceProfile_Path profileResp |};
         Roles := map Role_RoleName (InstanceProfile_Roles profileResp) |} in
    modify (fun a => with_data (addInstanceProfile profile (data a)) a) ;;;
    ret None.

Definition populateInstanceProfileData (resp : iam_ListInstanceProfilesOutput)
    : M (option error) :=
  forEach populateInstanceProfile (InstanceProfiles resp).

(** *** The two tasks and their join *)

(** A page handler: the closure writes the local it captured and tells the
    pager whether to go on. *)
Definition page_handler {R} (populate : R -> M (option error)) (resp : R)
    (s : AwsFetcher * option error) : outcome (bool * (AwsFetcher * option error)) :=
  match populate resp (fst s) with
  | Ok (Some err, a) => Ok (false, (a, Some err))
  | Ok (None, a) => Ok (true, (a, None))
  | Panic msg => Panic msg
  end.

Definition fetchIamData : M (option error) :=
  fun a =>
    match GetAccountAuthorizationDetailsPages _ (page_handler populateIamData) (a, None) with
    | Panic msg => Panic msg
    | Ok (err, (a, populateIamDataErr)) =>
        if notNil populateIamDataErr then Ok (err, a)
        else if notNil err then Ok (err, a)
        else
          match ListInstanceProfilesPages _ (page_handler populateInstanceProfileData)
                  (a, None) with
          | Panic msg => Panic msg
          | Ok (err, (a, populateInstanceProfileErr)) =>
              if notNil populateInstanceProfileErr then Ok (err, a)
              else if notNil err then Ok (err, a)
              else Ok (None, a)
          end
    end.

Definition populateBucket (b : s3_bucket) : M (option error) :=
  if String.eqb (bucket_policyJson b) "" then ret None
  else
    r <- classify CfnS3Bucket (bucket_name b) (bucket_tags b) "__DONTSKIPS3__" ;;
    if fst r then ret None
    else
      match NewPolicyDocumentFromJson (bucket_policyJson b) with
      | (_, Some err) => ret (Some (errors_Wrap err "Error creating Policy document"))
      | (policyDoc, None) =>
          let bp := {| BucketName := bucket_name b; BucketPolicy_Policy := policyDoc |} in
          modify (fun a => with_data (addBucketPolicy bp (data a)) a) ;;;
          ret None
      end.

Definition fetchS3Data : M (option error) :=
  match listAllBuckets with
  | (_, Some err) => ret (Some (errors_Wrap err "Error listing buckets"))
  | (buckets, None) => forEach populateBucket buckets
  end.

Definition getAccount : option Account * option error :=
  match GetAwsAccountId with
  | (id, Some err) =>
      if decide (err = ErrMissingRegion) then
        (None, Some (errors_New
           "Error determining the AWS account id - check the AWS_REGION environment variable is set"))
      else (None, Some err)
  | (id, None) =>
      match ListAccountAliases with
      | (_, Some err) => (None, Some err)
      | (aliases, None) =>
          (Some {| Id := id; Alias := match aliases with alias :: _ => alias | [] => "" end |},
           None)
      end
  end.

Definition emptyAccountData (acct : Account) : AccountData :=
  {| AccountData_Account := acct;
     AccountData_Users := []; AccountData_Groups := []; AccountData_Roles := [];
     AccountData_Policies := []; AccountData_BucketPolicies := [];
     AccountData_InstanceProfiles := [] |}.

(** [init] builds the clients, which are the [Clients] interface here, and
    then runs [a.account, err = a.getAccount()].  When the lookup succeeds
    the account is stored and the snapshot is reset to the empty snapshot of
    that account.  When it fails the source has stored the nil pointer
    [getAccount] returned in [a.account] and leaves [a.data] alone; the
    [account] field of the model holds an account, not a pointer, and has
    no value for nil, so after a failed [init] it stands for nothing and no
    property is stated of it. *)
Definition init : M (option error) :=
  match getAccount with
  | (Some acct, None) =>
      modify (fun a => with_data (emptyAccountData acct) (with_account acct a)) ;;;
      ret None
  | (_, err) => ret err
  end.

(** What [Fetch] returns once both tasks are done. *)
Definition join (a : AwsFetcher) (iamErr s3Err : option error)
    : option AccountData * option error :=
  match iamErr with
  | Some err => (None, Some (errors_Wrap err "Error fetching IAM data"))
  | None =>
      match s3Err with
      | Some err => (None, Some (errors_Wrap err "Error fetching S3 data"))
      | None => (Some (data a), None)
      end
  end.

(** The IAM task writes the users, groups, roles, policies and instance
    profiles and the S3 task the bucket policies, and neither reads what
    the other writes: running them side by side and waiting for both is
    running one after the other.  A panic on either goroutine ends the
    program. *)
Definition Fetch : M (option AccountData * option error) :=
  r <- init ;;
  match r with
  | Some err => ret (None, Some (errors_Wrap err "Error in init"))
  | None =>
      a <- get ;;
      match (if negb (HeuristicCfnMatching a) then PopulateMangedResourceData else None) with
      | Some err => ret (None, Some (errors_Wrap err "Error fetching CFN data"))
      | None =>
          iamErr <- fetchIamData ;;
          s3Err <- fetchS3Data ;;
          a <- get ;;
          ret (join a iamErr s3Err)
      end
  end.

End Fetcher.


(** ** Resource identifiers and lookups in the snapshot *)

Section Snapshot.

Context `{Clients}.

(** The [AwsResource] interface. *)
Class AwsResource (R : Type) : Type := {
  Service : R -> string;
  ResourceType : R -> string;
  ResourceName : R -> string;
  ResourcePath : R -> string
}.

Definition Arn {R} `{AwsResource R} (r : R) (a : Account) : string :=
  arnFor a (ResourceType r) (ResourcePath r) (ResourceName r).

Global Instance User_AwsResource : AwsResource User := {|
  Service := fun _ => "iam";
  ResourceType := fun _ => "user";
  ResourceName := fun u => Name (User_iamService u);
  ResourcePath := fun u => Path (User_iamService u)
|}.

Global Instance Group_AwsResource : AwsResource Group := {|
  Service := fun _ => "iam";
  ResourceType := fun _ => "group";
  ResourceName := fun g => Name (Group_iamService g);
  ResourcePath := fun g => Path (Group_iamService g)
|}.

Global Instance Policy_AwsResource : AwsResource Policy := {|
  Service := fun _ => "iam";
  ResourceType := fun _ => "policy";
  ResourceName := fun p => Name (Policy_iamService p);
  ResourcePath := fun p => Path (Policy_iamService p)
|}.

Global Instance Role_AwsResource : AwsResource Role := {|
  Service := fun _ => "iam";
  ResourceType := fun _ => "role";
  ResourceName := fun r => Name (Role_iamService r);
  ResourcePath := fun r => Path (Role_iamService r)
|}.

Global Instance InstanceProfile_AwsResource : AwsResource InstanceProfile := {|
  Service := fun _ => "iam";
  ResourceType := fun _ => "instance-profile";
  ResourceName := fun ip => Name (InstanceProfile_iamService ip);
  ResourcePath := fun ip => Path (InstanceProfile_iamService ip)
|}.

Global Instance BucketPolicy_AwsResource : AwsResource BucketPolicy := {|
  Service := fun _ => "s3";
  ResourceType := fun _ => "";
  ResourceName := fun bp => BucketName bp;
  ResourcePath := fun _ => "/"
|}.

Definition NewAccountData (account : string) : outcome AccountData :=
  match NewAccountFromString account with
  | Ok acct => Ok (emptyAccountData acct)
  | Panic msg => Panic msg
  end.

(** [u.Name == name && u.Path == path] *)
Definition named (s : iamService) (name path : string) : bool :=
  String.eqb (Name s) name && String.eqb (Path s) path.

(** The [Find...] methods return a flag and a pointer, [nil] when the flag
    is [false]; for the collections kept by value the pointer is the
    element itself. *)
Fixpoint FindUserByName_in (users : list User) (name path : string)
    : bool * option User :=
  match users with
  | [] => (false, None)
  | u :: rest =>
      if named (User_iamService u) name path then (true, Some u)
      else FindUserByName_in rest name path
  end.

Definition FindUserByName (d : AccountData) (name path : string) : bool * option User :=
  FindUserByName_in (AccountData_Users d) name path.

Fixpoint FindGroupByName_in (groups : list Group) (name path : string)
    : bool * option Group :=
  match groups with
  | [] => (false, None)
  | g :: rest =>
      if named (Group_iamService g) name path then (true, Some g)
      else FindGroupByName_in rest name path
  end.

Definition FindGroupByName (d : AccountData) (name path : string) : bool * option Group :=
  FindGroupByName_in (AccountData_Groups d) name path.

Fixpoint FindInstanceProfileByName_in (profiles : list InstanceProfile)
    (name path : string) : bool * option InstanceProfile :=
  match profiles with
  | [] => (false, None)
  | p :: rest =>
      if named (InstanceProfile_iamService p) name path then (true, Some p)
      else FindInstanceProfileByName_in rest name path
  end.

Definition FindInstanceProfileByName (d : AccountData) (name path : string)
    : bool * option InstanceProfile :=
  FindInstanceProfileByName_in (AccountData_InstanceProfiles d) name path.

Fixpoint FindBucketPolicyByBucketName_in (policies : list BucketPolicy) (name : string)
    : bool * option BucketPolicy :=
  match policies with
  | [] => (false, None)
  | p :: rest =>
      if String.eqb (BucketName p) name then (true, Some p)
      else FindBucketPolicyByBucketName_in rest name
  end.

Definition FindBucketPolicyByBucketName (d : AccountData) (name : string)
    : bool * option BucketPolicy :=
  FindBucketPolicyByBucketName_in (AccountData_BucketPolicies d) name.

(** Roles and policies are reached through their addresses; the records
    are read from the store given.  Every address a Go slice holds has its
    record, so an address without one is passed over. *)
Fixpoint FindRoleByName_in (store : list Role) (roles : list nat) (name path : string)
    : bool * option nat :=
  match roles with
  | [] => (false, None)
  | r :: rest =>
      match store !! r with
      | Some role =>
          if named (Role_iamService role) name path then (true, Some r)
          else FindRoleByName_in store rest name path
      | None => FindRoleByName_in store rest name path
      end
  end.

Definition FindRoleByName (store : list Role) (d : AccountData) (name path : string)
    : bool * option nat :=
  FindRoleByName_in store (AccountData_Roles d) name path.

Fixpoint FindPolicyByName_in (store : list Policy) (policies : list nat)
    (name path : string) : bool * option nat :=
  match policies with
  | [] => (false, None)
  | p :: rest =>
      match store !! p with
      | Some policy =>
          if named (Policy_iamService policy) name path then (true, Some p)
          else FindPolicyByName_in store rest name path
      | None => FindPolicyByName_in store rest name path
      end
  end.

Definition FindPolicyByName (store : list Policy) (d : AccountData) (name path : string)
    : bool * option nat :=
  FindPolicyByName_in store (AccountData_Policies d) name path.

End Snapshot.

(** ** Shapes of account strings *)

(** ["<alias>-<digits>"]: [s] is [alias], a hyphen and [id], with [alias]
    a non-empty run of letters, digits, underscores and hyphens and [id] a
    non-empty run of digits. *)
Definition alias_form (s alias id : string) : Prop :=
  s = alias +:+ "-" +:+ id /\
  alias <> "" /\ all_chars Regexp.is_word_or_dash alias = true /\
  id <> "" /\ all_chars Regexp.is_digit id = true.

(** ["<digits>"] *)
Definition bare_form (s : string) : Prop :=
  s <> "" /\ all_chars Regexp.is_digit s = true.

Definition account_string (s : string) : Prop :=
  (exists alias id, alias_form s alias id) \/ bare_form s.

(** The last character of [s] is a digit: [s] has a trailing run of
    digits. *)
Fixpoint ends_with_digit (s : string) : bool :=
  match s with
  | EmptyString => false
  | String a EmptyString => Regexp.is_digit a
  | String _ s' => ends_with_digit s'
  end.

(** ** What the version metadata of a policy should be *)

(** Some version of the list is flagged default. *)
Definition has_default (versions : list iam_PolicyVersion) : bool :=
  existsb PolicyVersion_IsDefaultVersion versions.

(** [v] is a version of the list created no later than any other. *)
Definition is_oldest (v : iam_PolicyVersion) (versions : list iam_PolicyVersion) : Prop :=
  In v versions /\
  forall w, In w versions -> (PolicyVersion_CreateDate v <= PolicyVersion_CreateDate w)%Z.

(** The identifiers of the versions not flagged default, in list order. *)
Definition nondefault_ids (versions : list iam_PolicyVersion) : list string :=
  map PolicyVersion_VersionId
    (List.filter (fun v => negb (PolicyVersion_IsDefaultVersion v)) versions).

(** ** Vocabulary for the properties of the fetcher *)

Section FetcherVocabulary.

Context `{Clients}.

(** The settings that no method of the fetcher writes. *)
Definition same_settings (a a' : AwsFetcher) : Prop :=
  SkipFetchingPolicyAndRoleDescriptions a' = SkipFetchingPolicyAndRoleDescriptions a /\
  HeuristicCfnMatching a' = HeuristicCfnMatching a /\
  SkipTagged a' = SkipTagged a /\
  IncludeTagged a' = IncludeTagged a /\
  SkipPathPrefixes a' = SkipPathPrefixes a /\
  account a' = account a.

(** The two calls of the classifier for a managed policy and what they
    answer.  The tags of the second are those the batched lookup
    [policyTags] has for the policy, none if it has no entry. *)
Definition tags_for (policyTags : gmap string (gmap string string))
    (policyResp : iam_ManagedPolicyDetail) : gmap string string :=
  default ∅ (policyTags !! ManagedPolicyDetail_Arn policyResp).

Definition first_call (policyResp : iam_ManagedPolicyDetail) : classifier_call :=
  (CfnIamPolicy, ManagedPolicyDetail_PolicyName policyResp, ∅,
   ManagedPolicyDetail_Path policyResp).

Definition second_call (policyTags : gmap string (gmap string string))
    (policyResp : iam_ManagedPolicyDetail) : classifier_call :=
  (CfnIamPolicy, ManagedPolicyDetail_PolicyName policyResp,
   tags_for policyTags policyResp, ManagedPolicyDetail_Path policyResp).

Definition first_pass_skips (a : AwsFetcher) (policyResp : iam_ManagedPolicyDetail) : bool :=
  fst (isSkippableManagedResource a CfnIamPolicy
         (ManagedPolicyDetail_PolicyName policyResp) ∅
         (ManagedPolicyDetail_Path policyResp)).

Definition second_pass_skips (a : AwsFetcher)
    (policyTags : gmap string (gmap string string))
    (policyResp : iam_ManagedPolicyDetail) : bool :=
  fst (isSkippableManagedResource a CfnIamPolicy
         (ManagedPolicyDetail_PolicyName policyResp)
         (tags_for policyTags policyResp)
         (ManagedPolicyDetail_Path policyResp)).

Definition policy_calls (a : AwsFetcher)
    (policyTags : gmap string (gmap string string))
    (policyResp : iam_ManagedPolicyDetail) : list classifier_call :=
  if first_pass_skips a policyResp then [first_call policyResp]
  else [first_call policyResp; second_call policyTags policyResp].

Definition passes_both (a : AwsFetcher)
    (policyTags : gmap string (gmap string string))
    (policyResp : iam_ManagedPolicyDetail) : bool :=
  negb (first_pass_skips a policyResp) && negb (second_pass_skips a policyTags policyResp).

(** [p] is the record the fetcher should keep for [policyResp]: the
    document of the version flagged default, the identifier of an oldest
    version, the identifiers of the other versions, their number, and the
    tags of the batched lookup. *)
Definition policy_built_from (policyTags : gmap string (gmap string string))
    (policyResp : iam_ManagedPolicyDetail) (p : Policy) : Prop :=
  let versions := ManagedPolicyDetail_PolicyVersionList policyResp in
  Policy_iamService p = {| Name := ManagedPolicyDetail_PolicyName policyResp;
                           Path := ManagedPolicyDetail_Path policyResp |} /\
  (exists v, In v versions /\ PolicyVersion_IsDefaultVersion v = true /\
             findDefaultPolicyVersion versions = Ok v /\
             NewPolicyDocumentFromEncodedJson (PolicyVersion_Document v)
               = (Policy_Policy p, None)) /\
  (exists v, is_oldest v versions /\ oldestVersionId p = PolicyVersion_VersionId v) /\
  nondefaultVersionIds p = nondefault_ids versions /\
  numberOfVersions p = length versions /\
  Policy_Tags p = tags_for policyTags policyResp.

(** The fetcher after the loop body has built and classified the policy
    [policyResp] with document [doc] and oldest version [oldest]. *)
Definition after_policy (policyTags : gmap string (gmap string string))
    (policyResp : iam_ManagedPolicyDetail) (doc : option PolicyDocument)
    (oldest : string) (a : AwsFetcher) : AwsFetcher :=
  let p := length (policyStore a) in
  {| SkipFetchingPolicyAndRoleDescriptions := SkipFetchingPolicyAndRoleDescriptions a;
     HeuristicCfnMatching := HeuristicCfnMatching a;
     SkipTagged := SkipTagged a; IncludeTagged := IncludeTagged a;
     SkipPathPrefixes := SkipPathPrefixes a;
     account := account a;
     data := if second_pass_skips a policyTags policyResp then data a
             else addPolicy p (data a);
     descriptionFetchWaitGroup :=
       if SkipFetchingPolicyAndRoleDescriptions a then descriptionFetchWaitGroup a
       else descriptionFetchWaitGroup a
              ++ [PolicyDescriptionLookup (ManagedPolicyDetail_Arn policyResp) p];
     descriptionFetchError := descriptionFetchError a;
     policyTagFetchError := policyTagFetchError a;
     roleStore := roleStore a;
     policyStore :=
       policyStore a ++
       [{| Policy_iamService := {| Name := ManagedPolicyDetail_PolicyName policyResp;
                                   Path := ManagedPolicyDetail_Path policyResp |};
           oldestVersionId := oldest;
           numberOfVersions := length (ManagedPolicyDetail_PolicyVersionList policyResp);
           nondefaultVersionIds :=
             findNonDefaultPolicyVersionIds
               (ManagedPolicyDetail_PolicyVersionList policyResp);
           Policy_Description := "";
           Policy_Policy := doc;
           Policy_Tags := tags_for policyTags policyResp |}];
     classified := classified a ++ [first_call policyResp;
                                    second_call policyTags policyResp] |}.

(** What a step that handles no managed policy leaves as it was: the
    settings, the policies of the snapshot and their store, and the error
    slot of the lookups; the history of the classifier only grows. *)
Definition keeps_policies (a a' : AwsFetcher) : Prop :=
  same_settings a a' /\
  policyStore a' = policyStore a /\
  AccountData_Policies (data a') = AccountData_Policies (data a) /\
  descriptionFetchError a' = descriptionFetchError a /\
  exists calls, classified a' = classified a ++ calls.

(** The same, with no lookup dispatched either. *)
Definition keeps_all (a a' : AwsFetcher) : Prop :=
  keeps_policies a a' /\ descriptionFetchWaitGroup a' = descriptionFetchWaitGroup a.

Definition role_skipped (a : AwsFetcher) (roleResp : iam_RoleDetail) : bool :=
  fst (isSkippableManagedResource a CfnIamRole (RoleDetail_RoleName roleResp)
         (tags_of (RoleDetail_Tags roleResp)) (RoleDetail_Path roleResp)).

(** The lookup is the one dispatched for the role, or for the policy. *)
Definition lookup_of_role (l : lookup) (roleResp : iam_RoleDetail) : Prop :=
  exists target, l = RoleLookup (RoleDetail_RoleName roleResp) target.

Definition lookup_of_policy (l : lookup) (policyResp : iam_ManagedPolicyDetail) : Prop :=
  exists target, l = PolicyDescriptionLookup (ManagedPolicyDetail_Arn policyResp) target.

(** The error slot after lookups with the given errors have finished in
    the given order: each failure overwrites the slot. *)
Definition slot_after (slot : option error) (errs : list (option error)) : option error :=
  foldl (fun slot err => match err with Some e => Some e | None => slot end) slot errs.

(** The first failure among the errors of lookups listed in the order in
    which they finished. *)
Fixpoint first_error (errs : list (option error)) : option error :=
  match errs with
  | [] => None
  | Some e :: _ => Some e
  | None :: rest => first_error rest
  end.

End FetcherVocabulary.

(** "The IAM task waits for every dispatched lookup before it returns":
    whenever [populateIamData] returns, with descriptions fetched and from
    a fetcher with no lookup pending, no lookup is pending. *)
Definition join_waits_for_all : Prop :=
  forall (C : Clients) (resp : iam_GetAccountAuthorizationDetailsOutput)
         (a a' : AwsFetcher) (r : option error),
    (forall ls, Permutation (completion_order ls) ls) ->
    SkipFetchingPolicyAndRoleDescriptions a = false ->
    descriptionFetchWaitGroup a = [] ->
    populateIamData resp a = Ok (r, a') ->
    descriptionFetchWaitGroup a' = [].

(** "The join surfaces the first error encountered": whenever a page is
    handled with descriptions fetched, from a fetcher with no lookup
    pending and an empty error slot, [populateIamData] returns the error of
    the first lookup that failed. *)
Definition join_surfaces_first_error : Prop :=
  forall (C : Clients) (resp : iam_GetAccountAuthorizationDetailsOutput)
         (a a1 : AwsFetcher),
    (forall ls, Permutation (completion_order ls) ls) ->
    SkipFetchingPolicyAndRoleDescriptions a = false ->
    descriptionFetchWaitGroup a = [] ->
    descriptionFetchError a = None ->
    populateIamData_pages resp a = Ok (None, a1) ->
    exists a',
      populateIamData resp a =
        Ok (first_error
              (map lookup_error (completion_order (descriptionFetchWaitGroup a1))),
            a').

(** ** Vocabulary for the further properties *)

(** An account as the fetcher builds it: the id is a non-empty run of
    digits and the alias, if any, a run of letters, digits, underscores
    and hyphens. *)
Definition well_formed_account (a : Account) : Prop :=
  Id a <> "" /\ all_chars Regexp.is_digit (Id a) = true /\
  all_chars Regexp.is_word_or_dash (Alias a) = true.

(** The prefix of the identifiers of the account's own managed policies. *)
Definition policy_prefix (a : Account) : string :=
  "arn:aws:iam::" +:+ Id a +:+ ":policy/".

(** No ["/"] in [s], as in the name of an IAM resource. *)
Definition no_slash (s : string) : bool :=
  all_chars (fun c => negb (Ascii.eqb c "/")) s.

(** Empty or ending in ["/"], as the path of an IAM resource. *)
Definition path_like (p : string) : Prop :=
  p = "" \/ exists q, p = q +:+ "/".

(** The first element of [l] that passes [test], with the flag the
    [Find...] methods return. *)
Definition find_first {A} (test : A -> bool) (l : list A) : bool * option A :=
  match List.find test l with
  | Some x => (true, Some x)
  | None => (false, None)
  end.

(** [x] is the first element of [l] that passes [test]. *)
Definition is_first {A} (test : A -> bool) (x : A) (l : list A) : Prop :=
  exists before after,
    l = before ++ x :: after /\ test x = true /\
    Forall (fun y => test y = false) before.

(** The identifier holds one of the two markers of a service-linked
    role. *)
Definition has_service_role_marker (resourceIdentifier : string) : bool :=
  Contains resourceIdentifier "AWSServiceRole"
  || Contains resourceIdentifier "aws-service-role".

(** The tag set holds one of the keys. *)
Definition some_key_present (tags : gmap string string) (keys : list string) : bool :=
  existsb (fun key => bool_decide (is_Some (tags !! key))) keys.

Section ExtraVocabulary.

Context `{Clients}.

(** The inline policy built from a policy detail, and whether its document
    parses. *)
Definition inline_of (ip : iam_PolicyDetail) : InlinePolicy :=
  {| InlinePolicy_Name := PolicyDetail_PolicyName ip;
     InlinePolicy_Policy :=
       fst (NewPolicyDocumentFromEncodedJson (PolicyDetail_PolicyDocument ip)) |}.

Definition inline_parses (ip : iam_PolicyDetail) : bool :=
  negb (notNil (snd (NewPolicyDocumentFromEncodedJson (PolicyDetail_PolicyDocument ip)))).

(** Appending the elements of [xs] to a collection of the snapshot, one
    [add] at a time. *)
Definition add_all {B} (add : B -> AccountData -> AccountData) (xs : list B)
    (d : AccountData) : AccountData :=
  foldl (fun d x => add x d) d xs.

(** The fetcher after a loop that classifies elements, with the calls
    [calls], and appends what [build] makes of those [kept]. *)
Definition after_loop {A B} (calls : A -> list classifier_call)
    (kept : AwsFetcher -> A -> bool) (build : AwsFetcher -> A -> B)
    (add : B -> AccountData -> AccountData) (xs : list A) (a : AwsFetcher) : AwsFetcher :=
  with_data (add_all add (map (build a) (List.filter (kept a) xs)) (data a))
    (with_classified (classified a ++ flat_map calls xs) a).

(** Users. *)
Definition user_call (userResp : iam_UserDetail) : classifier_call :=
  (CfnIamUser, UserDetail_UserName userResp, tags_of (UserDetail_Tags userResp),
   UserDetail_Path userResp).

Definition user_kept (a : AwsFetcher) (userResp : iam_UserDetail) : bool :=
  negb (fst (isSkippableManagedResource a CfnIamUser (UserDetail_UserName userResp)
               (tags_of (UserDetail_Tags userResp)) (UserDetail_Path userResp))).

Definition user_of (a : AwsFetcher) (userResp : iam_UserDetail) : User :=
  {| User_iamService := {| Name := UserDetail_UserName userResp;
                           Path := UserDetail_Path userResp |};
     User_Groups := UserDetail_GroupList userResp;
     User_Policies := normalised a (UserDetail_AttachedManagedPolicies userResp);
     User_InlinePolicies := map inline_of (UserDetail_UserPolicyList userResp);
     User_Tags := tags_of (UserDetail_Tags userResp) |}.

(** The error, if any, of the inline policies of a user or a group: that
    of the first document that does not parse. *)
Definition user_fails (userResp : iam_UserDetail) : option error :=
  snd (populateInlinePolicies (UserDetail_UserPolicyList userResp) []).

Definition group_fails (groupResp : iam_GroupDetail) : option error :=
  snd (populateInlinePolicies (GroupDetail_GroupPolicyList groupResp) []).

(** Groups. *)
Definition group_call (groupResp : iam_GroupDetail) : classifier_call :=
  (CfnIamGroup, GroupDetail_GroupName groupResp, ∅, GroupDetail_Path groupResp).

Definition group_kept (a : AwsFetcher) (groupResp : iam_GroupDetail) : bool :=
  negb (fst (isSkippableManagedResource a CfnIamGroup (GroupDetail_GroupName groupResp)
               ∅ (GroupDetail_Path groupResp))).

Definition group_of (a : AwsFetcher) (groupResp : iam_GroupDetail) : Group :=
  {| Group_iamService := {| Name := GroupDetail_GroupName groupResp;
                            Path := GroupDetail_Path groupResp |};
     Group_Policies := normalised a (GroupDetail_AttachedManagedPolicies groupResp);
     Group_InlinePolicies := map inline_of (GroupDetail_GroupPolicyList groupResp) |}.

(** Instance profiles. *)
Definition profile_call (profileResp : iam_InstanceProfile) : classifier_call :=
  (CfnInstanceProfile, InstanceProfile_InstanceProfileName profileResp, ∅,
   InstanceProfile_Path profileResp).

Definition profile_kept (a : AwsFetcher) (profileResp : iam_InstanceProfile) : bool :=
  negb (fst (isSkippableManagedResource a CfnInstanceProfile
               (InstanceProfile_InstanceProfileName profileResp) ∅
               (InstanceProfile_Path profileResp))).

Definition profile_of (a : AwsFetcher) (profileResp : iam_InstanceProfile)
    : InstanceProfile :=
  {| InstanceProfile_iamService :=
       {| Name := InstanceProfile_InstanceProfileName profileResp;
          Path := InstanceProfile_Path profileResp |};
     Roles := map Role_RoleName (InstanceProfile_Roles profileResp) |}.

(** Buckets: one without a policy is not even classified. *)
Definition bucket_calls (b : s3_bucket) : list classifier_call :=
  if String.eqb (bucket_policyJson b) "" then []
  else [(CfnS3Bucket, bucket_name b, bucket_tags b, "__DONTSKIPS3__")].

Definition bucket_kept (a : AwsFetcher) (b : s3_bucket) : bool :=
  negb (String.eqb (bucket_policyJson b) "") &&
  negb (fst (isSkippableManagedResource a CfnS3Bucket (bucket_name b) (bucket_tags b)
               "__DONTSKIPS3__")).

Definition bucket_policy_of (a : AwsFetcher) (b : s3_bucket) : BucketPolicy :=
  {| BucketName := bucket_name b;
     BucketPolicy_Policy := fst (NewPolicyDocumentFromJson (bucket_policyJson b)) |}.

Definition bucket_error (b : s3_bucket) : option error :=
  match snd (NewPolicyDocumentFromJson (bucket_policyJson b)) with
  | Some err => Some (errors_Wrap err "Error creating Policy document")
  | None => None
  end.

(** The store address a policy-description lookup writes to. *)
Definition policy_target (l : lookup) : option nat :=
  match l with
  | PolicyDescriptionLookup _ target => Some target
  | RoleLookup _ _ => None
  end.

(** The descriptions the lookups of [order] write to the policy at [ptr],
    in that order. *)
Definition description_writes (ptr : nat) (order : list lookup) : list string :=
  omap (fun l =>
          match l with
          | PolicyDescriptionLookup policyArn target =>
              if decide (target = ptr) then Some (fst (getPolicyDescription policyArn))
              else None
          | RoleLookup _ _ => None
          end) order.

(** The last of the strings written, [d] if none is. *)
Definition last_written (d : string) (writes : list string) : string :=
  foldl (fun _ w => w) d writes.

End ExtraVocabulary.

(** A pager that reports no error of its own on any run, as the SDK's
    pagers do when no request fails: stopping because the handler said so
    is not an error. *)
Definition quiet_pager {R : Type}
    (pager : forall S : Type, (R -> S -> outcome (bool * S)) -> S -> outcome (option error * S))
    : Prop :=
  forall (S : Type) fn (s s' : S) err, pager S fn s = Ok (err, s') -> err = None.

(** Two fetchers that differ at most in the account they point to: what a
    failed [init], which stores a nil account, leaves of the fetcher. *)
Definition same_but_account `{Clients} (a a' : AwsFetcher) : Prop :=
  SkipFetchingPolicyAndRoleDescriptions a' = SkipFetchingPolicyAndRoleDescriptions a /\
  HeuristicCfnMatching a' = HeuristicCfnMatching a /\
  SkipTagged a' = SkipTagged a /\
  IncludeTagged a' = IncludeTagged a /\
  SkipPathPrefixes a' = SkipPathPrefixes a /\
  data a' = data a /\
  descriptionFetchWaitGroup a' = descriptionFetchWaitGroup a /\
  descriptionFetchError a' = descriptionFetchError a /\
  policyTagFetchError a' = policyTagFetchError a /\
  roleStore a' = roleStore a /\
  policyStore a' = policyStore a /\
  classified a' = classified a.

(** The message [getAccount] returns when the region is missing. *)
Definition missing_region_message : string :=
  "Error determining the AWS account id - check the AWS_REGION environment variable is set".

Section AddressVocabulary.

Context `{Clients}.

(** The record at [ptr] has the name and the path. *)
Definition policy_named (store : list Policy) (name path : string) (ptr : nat) : bool :=
  match store !! ptr with
  | Some p => named (Policy_iamService p) name path
  | None => false
  end.

Definition role_named (store : list Role) (name path : string) (ptr : nat) : bool :=
  match store !! ptr with
  | Some r => named (Role_iamService r) name path
  | None => false
  end.

End AddressVocabulary.

Section RoleVocabulary.

Context `{Clients}.

Definition role_call (roleResp : iam_RoleDetail) : classifier_call :=
  (CfnIamRole, RoleDetail_RoleName roleResp, tags_of (RoleDetail_Tags roleResp),
   RoleDetail_Path roleResp).

(** The store address a role lookup writes to. *)
Definition role_target (l : lookup) : option nat :=
  match l with
  | RoleLookup _ target => Some target
  | PolicyDescriptionLookup _ _ => None
  end.

(** The description and the session duration the lookups of [order] hand
    to the role at [ptr], in that order. *)
Definition role_writes (ptr : nat) (order : list lookup) : list (string * Z) :=
  omap (fun l =>
          match l with
          | RoleLookup roleName target =>
              if decide (target = ptr) then Some (fst (getRole roleName)) else None
          | PolicyDescriptionLookup _ _ => None
          end) order.

(** The last positive duration of the list, [d] if there is none: a
    lookup overwrites the duration only with a positive one. *)
Definition last_positive (d : Z) (durations : list Z) : Z :=
  foldl (fun d z => if (0 <? z)%Z then z else d) d durations.

(** [r] is the record the fetcher should keep for [roleResp], but for
    what the lookup of the role writes. *)
Definition role_built_from (a : AwsFetcher) (roleResp : iam_RoleDetail) (r : Role) : Prop :=
  Role_iamService r = {| Name := RoleDetail_RoleName roleResp;
                         Path := RoleDetail_Path roleResp |} /\
  NewPolicyDocumentFromEncodedJson (RoleDetail_AssumeRolePolicyDocument roleResp)
    = (AssumeRolePolicyDocument r, None) /\
  Role_Policies r = normalised a (RoleDetail_AttachedManagedPolicies roleResp) /\
  Role_InlinePolicies r = map inline_of (RoleDetail_RolePolicyList roleResp) /\
  forallb inline_parses (RoleDetail_RolePolicyList roleResp) = true.

(** The fetcher after the loop body has built and stored the role
    [roleResp] with trust policy [doc]. *)
Definition after_role (roleResp : iam_RoleDetail) (doc : option PolicyDocument)
    (a : AwsFetcher) : AwsFetcher :=
  let role := length (roleStore a) in
  {| SkipFetchingPolicyAndRoleDescriptions := SkipFetchingPolicyAndRoleDescriptions a;
     HeuristicCfnMatching := HeuristicCfnMatching a;
     SkipTagged := SkipTagged a; IncludeTagged := IncludeTagged a;
     SkipPathPrefixes := SkipPathPrefixes a;
     account := account a;
     data := addRole role (data a);
     descriptionFetchWaitGroup :=
       if SkipFetchingPolicyAndRoleDescriptions a then descriptionFetchWaitGroup a
       else descriptionFetchWaitGroup a ++ [RoleLookup (RoleDetail_RoleName roleResp) role];
     descriptionFetchError := descriptionFetchError a;
     policyTagFetchError := policyTagFetchError a;
     roleStore :=
       roleStore a ++
       [{| Role_iamService := {| Name := RoleDetail_RoleName roleResp;
                                 Path := RoleDetail_Path roleResp |};
           Role_Description := "";
           AssumeRolePolicyDocument := doc;
           Role_InlinePolicies := map inline_of (RoleDetail_RolePolicyList roleResp);
           Role_Policies := normalised a (RoleDetail_AttachedManagedPolicies roleResp);
           MaxSessionDuration := 0 |}];
     policyStore := policyStore a;
     classified := classified a ++ [role_call roleResp] |}.

(** A step that leaves the roles of the snapshot and their store as they
    were. *)
Definition keeps_roles (a a' : AwsFetcher) : Prop :=
  roleStore a' = roleStore a /\
  AccountData_Roles (data a') = AccountData_Roles (data a).

End RoleVocabulary.

(** ** An account for the examples

    Documents are kept as their text and the text ["{"] does not parse.
    Resource kinds are the six the fetcher names.  The ownership index
    holds the roles and the policies whose name starts with ["stack-"].
    A lookup fails for the policy identifiers and role names listed in
    [broken], with the error found there.  A pager hands out
    its pages in order, stops when the handler says so and reports no
    error of its own. *)

Inductive cfn_kind : Type :=
| KindIamUser | KindIamGroup | KindIamRole | KindIamPolicy
| KindInstanceProfile | KindS3Bucket.

Global Instance cfn_kind_eq_dec : EqDecision cfn_kind.
Proof. solve_decision. Defined.

Definition parse_text (s : string) : option string * option error :=
  if String.eqb s "{" then (None, Some (errors_New "unexpected end of JSON input"))
  else (Some s, None).

Fixpoint pager_of {R S : Type} (pages : list R)
    (fn : R -> S -> outcome (bool * S)) (s : S) : outcome (option error * S) :=
  match pages with
  | [] => Ok (None, s)
  | page :: rest =>
      match fn page s with
      | Panic msg => Panic msg
      | Ok (false, s') => Ok (None, s')
      | Ok (true, s') => pager_of rest fn s'
      end
  end.

Fixpoint assoc_error (key : string) (l : list (string * error)) : option error :=
  match l with
  | [] => None
  | (k, e) :: rest => if String.eqb k key then Some e else assoc_error key rest
  end.

Definition example_clients
    (pages : list iam_GetAccountAuthorizationDetailsOutput)
    (profiles : list iam_ListInstanceProfilesOutput)
    (buckets : list s3_bucket * option error)
    (policyTags : gmap string (gmap string string))
    (broken : list (string * error))
    (order : list lookup -> list lookup) : Clients :=
  {| PolicyDocument := string;
     NewPolicyDocumentFromJson := parse_text;
     NewPolicyDocumentFromEncodedJson := parse_text;
     CfnResourceType := cfn_kind;
     CfnIamUser := KindIamUser;
     CfnIamGroup := KindIamGroup;
     CfnIamRole := KindIamRole;
     CfnIamPolicy := KindIamPolicy;
     CfnInstanceProfile := KindInstanceProfile;
     CfnS3Bucket := KindS3Bucket;
     IsManagedResource := fun kind name =>
       match kind with
       | KindIamRole => HasPrefix name "stack-"
       | KindIamPolicy => HasPrefix name "stack-"
       | _ => false
       end;
     PopulateMangedResourceData := None;
     getMultiplePolicyTags := fun _ => (policyTags, None);
     getPolicyDescription := fun arn => ("about " +:+ arn, assoc_error arn broken);
     getRole := fun name => ("about " +:+ name, 3600%Z, assoc_error name broken);
     listAllBuckets := buckets;
     GetAwsAccountId := ("123456789012", None);
     ErrMissingRegion := errors_New "could not find region configuration";
     ListAccountAliases := (["prod"], None);
     GetAccountAuthorizationDetailsPages := fun S => pager_of pages;
     ListInstanceProfilesPages := fun S => pager_of profiles;
     completion_order := order |}.

Definition example_account : Account := {| Id := "123456789012"; Alias := "prod" |}.

Definition example_fetcher `{Clients} (skipDescriptions : bool)
    (skipTagged includeTagged skipPathPrefixes : list string) : AwsFetcher :=
  {| SkipFetchingPolicyAndRoleDescriptions := skipDescriptions;
     HeuristicCfnMatching := false;
     SkipTagged := skipTagged;
     IncludeTagged := includeTagged;
     SkipPathPrefixes := skipPathPrefixes;
     account := example_account;
     data := emptyAccountData example_account;
     descriptionFetchWaitGroup := [];
     descriptionFetchError := None;
     policyTagFetchError := None;
     roleStore := [];
     policyStore := [];
     classified := [] |}.

(** Three versions of one policy: the first is the oldest, the second is
    the default, the third is the newest. *)
Definition example_versions : list iam_PolicyVersion :=
  [ {| PolicyVersion_Document := "document-1"; PolicyVersion_VersionId := "v1";
       PolicyVersion_IsDefaultVersion := false; PolicyVersion_CreateDate := 100 |};
    {| PolicyVersion_Document := "document-2"; PolicyVersion_VersionId := "v2";
       PolicyVersion_IsDefaultVersion := true; PolicyVersion_CreateDate := 200 |};
    {| PolicyVersion_Document := "document-3"; PolicyVersion_VersionId := "v3";
       PolicyVersion_IsDefaultVersion := false; PolicyVersion_CreateDate := 300 |} ].

Definition example_policy (name : string) (versions : list iam_PolicyVersion)
    : iam_ManagedPolicyDetail :=
  {| ManagedPolicyDetail_Arn := "arn:aws:iam::123456789012:policy/" +:+ name;
     ManagedPolicyDetail_PolicyName := name;
     ManagedPolicyDetail_Path := "/";
     ManagedPolicyDetail_PolicyVersionList := versions |}.

Definition example_role (name path document : string) : iam_RoleDetail :=
  {| RoleDetail_RoleName := name;
     RoleDetail_Path := path;
     RoleDetail_Tags := [];
     RoleDetail_AssumeRolePolicyDocument := document;
     RoleDetail_AttachedManagedPolicies := [];
     RoleDetail_RolePolicyList := [] |}.

Definition example_page (roles : list iam_RoleDetail)
    (policies : list iam_ManagedPolicyDetail) : iam_GetAccountAuthorizationDetailsOutput :=
  {| UserDetailList := []; GroupDetailList := [];
     RoleDetailList := roles; Policies := policies |}.

(** The fetcher a computation ends with, [d] if it panics. *)
Definition state_of {A} `{Clients} (o : outcome (A * AwsFetcher)) (d : AwsFetcher)
    : AwsFetcher :=
  match o with
  | Ok (_, a) => a
  | Panic _ => d
  end.

(** A page with one managed policy, [ReadOnly], on the three versions. *)
Definition readonly_page : iam_GetAccountAuthorizationDetailsOutput :=
  example_page [] [example_policy "ReadOnly" example_versions].

Definition readonly_clients : Clients :=
  example_clients [readonly_page] [] ([], None) ∅ [] (fun ls => ls).

Definition readonly_fetcher : AwsFetcher :=
  @example_fetcher readonly_clients false [] [] [].

(** A policy none of whose versions is the default. *)
Definition no_default_policy : iam_ManagedPolicyDetail :=
  example_policy "Draft"
    [ {| PolicyVersion_Document := "document-1"; PolicyVersion_VersionId := "v1";
         PolicyVersion_IsDefaultVersion := false; PolicyVersion_CreateDate := 100 |} ].

(** A policy the ownership index holds, tagged with the force-include
    key by the batched lookup. *)
Definition stack_policy : iam_ManagedPolicyDetail :=
  example_policy "stack-policy" example_versions.

Definition stack_clients : Clients :=
  example_clients [example_page [] [stack_policy]] [] ([], None)
    {[ "arn:aws:iam::123456789012:policy/stack-policy" := {[ "iamy:include" := "yes" ]} ]}
    [] (fun ls => ls).

Definition stack_fetcher : AwsFetcher :=
  @example_fetcher stack_clients false [] ["iamy:include"] [].

(** Two managed policies whose description lookups both fail, the first
    with ["throttled"] and the second with ["denied"]; lookups finish in
    the order in which they were dispatched. *)
Definition two_broken_page : iam_GetAccountAuthorizationDetailsOutput :=
  example_page [] [example_policy "first" example_versions;
                   example_policy "second" example_versions].

Definition two_broken_clients : Clients :=
  example_clients [two_broken_page] [] ([], None) ∅
    [("arn:aws:iam::123456789012:policy/first", errors_New "throttled");
     ("arn:aws:iam::123456789012:policy/second", errors_New "denied")]
    (fun ls => ls).

Definition two_broken_fetcher : AwsFetcher :=
  @example_fetcher two_broken_clients false [] [] [].

(** A role whose trust policy does not parse. *)
Definition bad_trust_page : iam_GetAccountAuthorizationDetailsOutput :=
  example_page [example_role "deployer" "/" "{"] [].

(** An account whose bucket listing fails. *)
Definition s3_denied_clients : Clients :=
  example_clients [readonly_page] [] ([], Some (errors_New "AccessDenied")) ∅ []
    (fun ls => ls).

Definition s3_denied_fetcher : AwsFetcher :=
  @example_fetcher s3_denied_clients false [] [] [].

(** A role that every rule but the first would skip. *)
Definition tagged_fetcher : AwsFetcher :=
  @example_fetcher readonly_clients false
    ["aws:cloudformation:stack-name"] ["iamy:include"] ["/service-role/"].

(** ** A second account: a team

    One page with two users, two groups, three roles and two managed
    policies; one page of instance profiles; three buckets.  The lookups
    finish in the reverse of the order in which they were dispatched. *)

Definition inline_detail (name document : string) : iam_PolicyDetail :=
  {| PolicyDetail_PolicyName := name; PolicyDetail_PolicyDocument := document |}.

Definition attached (arn : string) : iam_AttachedPolicy :=
  {| AttachedPolicy_PolicyArn := arn |}.

Definition alice : iam_UserDetail :=
  {| UserDetail_UserName := "alice";
     UserDetail_Path := "/team/";
     UserDetail_Tags := [{| Tag_Key := "team"; Tag_Value := "dev" |}];
     UserDetail_GroupList := ["dev"];
     UserDetail_AttachedManagedPolicies :=
       [attached "arn:aws:iam::123456789012:policy/ReadOnly"];
     UserDetail_UserPolicyList := [inline_detail "own-keys" "document"] |}.

(** A user whose second inline policy does not parse. *)
Definition bob : iam_UserDetail :=
  {| UserDetail_UserName := "bob";
     UserDetail_Path := "/team/";
     UserDetail_Tags := [];
     UserDetail_GroupList := [];
     UserDetail_AttachedManagedPolicies := [];
     UserDetail_UserPolicyList :=
       [inline_detail "own-keys" "document"; inline_detail "draft" "{";
        inline_detail "later" "document"] |}.

(** A user created by a stack. *)
Definition stack_user : iam_UserDetail :=
  {| UserDetail_UserName := "ci";
     UserDetail_Path := "/";
     UserDetail_Tags := [{| Tag_Key := "aws:cloudformation:stack-name"; Tag_Value := "ci" |}];
     UserDetail_GroupList := [];
     UserDetail_AttachedManagedPolicies := [];
     UserDetail_UserPolicyList := [] |}.

Definition dev_group : iam_GroupDetail :=
  {| GroupDetail_GroupName := "dev";
     GroupDetail_Path := "/team/";
     GroupDetail_AttachedManagedPolicies :=
       [attached "arn:aws:iam::aws:policy/ReadOnlyAccess"];
     GroupDetail_GroupPolicyList := [inline_detail "deploy" "document"] |}.

Definition draft_group : iam_GroupDetail :=
  {| GroupDetail_GroupName := "draft";
     GroupDetail_Path := "/";
     GroupDetail_AttachedManagedPolicies := [];
     GroupDetail_GroupPolicyList := [inline_detail "draft" "{"] |}.

Definition team_page : iam_GetAccountAuthorizationDetailsOutput :=
  {| UserDetailList := [alice; stack_user];
     GroupDetailList := [dev_group];
     RoleDetailList :=
       [example_role "deployer" "/" "trust-1"; example_role "stack-role" "/" "trust-2";
        example_role "auditor" "/team/" "trust-3"];
     Policies :=
       [example_policy "ReadOnly" example_versions;
        example_policy "Deploy" example_versions] |}.

Definition team_profiles : iam_ListInstanceProfilesOutput :=
  {| InstanceProfiles :=
       [{| InstanceProfile_InstanceProfileName := "web";
           InstanceProfile_Path := "/";
           InstanceProfile_Roles := [{| Role_RoleName := "deployer" |}] |}] |}.

Definition team_buckets : list s3_bucket :=
  [ {| bucket_name := "logs"; bucket_policyJson := "policy"; bucket_tags := ∅ |};
    {| bucket_name := "scratch"; bucket_policyJson := ""; bucket_tags := ∅ |};
    {| bucket_name := "stack-assets"; bucket_policyJson := "policy";
       bucket_tags := {[ "aws:cloudformation:stack-name" := "assets" ]} |} ].

Definition team_clients : Clients :=
  example_clients [team_page] [team_profiles] (team_buckets, None) ∅ []
    (fun ls => rev ls).

Definition team_settings (skipDescriptions : bool) : AwsFetcher :=
  @example_fetcher team_clients skipDescriptions
    ["aws:cloudformation:stack-name"] ["iamy:include"] ["/service-role/"].

Definition team_fetcher : AwsFetcher := team_settings false.

(** The result a computation ends with, [d] if it panics. *)
Definition result_of {A} `{Clients} (o : outcome (A * AwsFetcher)) (d : A) : A :=
  match o with
  | Ok (r, _) => r
  | Panic _ => d
  end.

(** The clients [c] in an environment where the account id cannot be
    resolved. *)
Definition without_identity (c : Clients) (err : error) : Clients :=
  {| PolicyDocument := @PolicyDocument c;
     NewPolicyDocumentFromJson := @NewPolicyDocumentFromJson c;
     NewPolicyDocumentFromEncodedJson := @NewPolicyDocumentFromEncodedJson c;
     CfnResourceType := @CfnResourceType c;
     CfnIamUser := @CfnIamUser c;
     CfnIamGroup := @CfnIamGroup c;
     CfnIamRole := @CfnIamRole c;
     CfnIamPolicy := @CfnIamPolicy c;
     CfnInstanceProfile := @CfnInstanceProfile c;
     CfnS3Bucket := @CfnS3Bucket c;
     IsManagedResource := @IsManagedResource c;
     PopulateMangedResourceData := @PopulateMangedResourceData c;
     getMultiplePolicyTags := @getMultiplePolicyTags c;
     getPolicyDescription := @getPolicyDescription c;
     getRole := @getRole c;
     listAllBuckets := @listAllBuckets c;
     GetAwsAccountId := ("", Some err);
     ErrMissingRegion := @ErrMissingRegion c;
     ListAccountAliases := @ListAccountAliases c;
     GetAccountAuthorizationDetailsPages := @GetAccountAuthorizationDetailsPages c;
     ListInstanceProfilesPages := @ListInstanceProfilesPages c;
     completion_order := @completion_order c |}.

Definition no_region_clients : Clients :=
  without_identity readonly_clients (errors_New "could not find region configuration").

(** A policy of the team, as the snapshot holds it. *)
Definition deploy_policy : @Policy readonly_clients :=
  {| Policy_iamService := {| Name := "Deploy"; Path := "/team/" |};
     numberOfVersions := 1;
     oldestVersionId := "v1";
     nondefaultVersionIds := [];
     Policy_Description := "";
     Policy_Policy := None;
     Policy_Tags := ∅ |}.

Definition team_user (groups : list string) : @User readonly_clients :=
  {| User_iamService := {| Name := "alice"; Path := "/team/" |};
     User_Groups := groups;
     User_InlinePolicies := [];
     User_Policies := [];
     User_Tags := ∅ |}.
(** * Properties *)

(** ** Strings *)

Lemma append_nil_r (s : string) : s +:+ "" = s.
Proof. induction s as [|a s IH]; simpl; [reflexivity | now f_equal]. Qed.

Lemma append_assoc (s t u : string) : (s +:+ t) +:+ u = s +:+ (t +:+ u).
Proof. induction s as [|a s IH]; simpl; [reflexivity | now f_equal]. Qed.

Lemma prefix_append (pre s : string) : String.prefix pre (pre +:+ s) = true.
Proof.
  induction pre as [|a pre IH]; simpl.
  - now destruct s.
  - destruct (ascii_dec a a) as [_|Hne]; [exact IH | now destruct Hne].
Qed.

Lemma prefix_split (pre s : string) :
  String.prefix pre s = true -> exists rest, s = pre +:+ rest.
Proof.
  revert s. induction pre as [|a pre IH]; intros s Hp.
  - now exists s.
  - destruct s as [|b s]; simpl in Hp; [discriminate |].
    destruct (ascii_dec a b) as [->|_]; [| discriminate].
    destruct (IH _ Hp) as [rest ->]. now exists rest.
Qed.

Lemma length_append (s t : string) :
  String.length (s +:+ t) = String.length s + String.length t.
Proof. induction s as [|a s IH]; simpl; [reflexivity | now f_equal]. Qed.

Lemma substring_all (s : string) : substring 0 (String.length s) s = s.
Proof. induction s as [|a s IH]; simpl; [reflexivity | now f_equal]. Qed.

Lemma substring_skip (pre s : string) (n : nat) :
  substring (String.length pre) n (pre +:+ s) = substring 0 n s.
Proof. induction pre as [|a pre IH]; simpl; [reflexivity | exact IH]. Qed.

Lemma TrimPrefix_append (pre s : string) : TrimPrefix (pre +:+ s) pre = s.
Proof.
  unfold TrimPrefix, HasPrefix. rewrite prefix_append, length_append.
  replace (String.length pre + String.length s - String.length pre)
    with (String.length s) by lia.
  now rewrite substring_skip, substring_all.
Qed.

Lemma all_chars_append (p : ascii -> bool) (s t : string) :
  all_chars p (s +:+ t) = all_chars p s && all_chars p t.
Proof.
  induction s as [|a s IH]; simpl; [reflexivity |].
  now rewrite IH, andb_assoc.
Qed.

(** ** The matcher *)

Import Regexp.

(** A successful [p+] took a non-empty run of [p] and handed the rest to
    the continuation. *)
Lemma plus_greedy_sound p s k c :
  plus_greedy p s k = Some c ->
  exists m rest, s = m +:+ rest /\ m <> "" /\ all_chars p m = true /\ k m rest = Some c.
Proof.
  revert k. induction s as [|a s IH]; intros k Hm; simpl in Hm; [discriminate |].
  destruct (p a) eqn:Hpa; [| discriminate].
  destruct (plus_greedy p s _) as [c'|] eqn:Hrec.
  - injection Hm as ->.
    destruct (IH _ Hrec) as (m & rest & -> & _ & Hall & Hk).
    exists (String a m), rest. simpl. rewrite Hpa, Hall. now repeat split.
  - exists (String a ""), s. simpl. rewrite Hpa. now repeat split.
Qed.

(** Whenever some non-empty run of [p] leads the continuation to
    success, [p+] succeeds. *)
Lemma plus_greedy_complete p m rest k :
  m <> "" -> all_chars p m = true -> is_Some (k m rest) ->
  is_Some (plus_greedy p (m +:+ rest) k).
Proof.
  revert k. induction m as [|a m IH]; intros k Hne Hall Hk; [now destruct Hne |].
  simpl in Hall. apply andb_prop in Hall as [Hpa Hall].
  simpl. rewrite Hpa.
  destruct m as [|b m].
  - simpl. destruct (plus_greedy p rest _); [eexists; reflexivity | exact Hk].
  - destruct (IH (fun m' r => k (String a m') r)) as [c Hc]; [easy | exact Hall | exact Hk |].
    rewrite Hc. eexists; reflexivity.
Qed.

Lemma digit_not_dash a : is_digit a = true -> Ascii.eqb a "-" = false.
Proof.
  destruct a as [[] [] [] [] [] [] [] []]; vm_compute; congruence.
Qed.

Lemma digit_is_word a : is_digit a = true -> is_word_or_dash a = true.
Proof.
  destruct a as [[] [] [] [] [] [] [] []]; vm_compute; congruence.
Qed.

Lemma digits_no_dash (x y : string) :
  all_chars is_digit (x +:+ String "-" y) = false.
Proof.
  induction x as [|a x IH]; simpl in *; [reflexivity |].
  rewrite IH. apply andb_false_r.
Qed.

(** The text before the last ["-"] and the digits after it are determined
    by the whole. *)
Lemma alias_id_unique (alias alias' id id' : string) :
  all_chars is_digit id = true -> all_chars is_digit id' = true ->
  alias +:+ "-" +:+ id = alias' +:+ "-" +:+ id' ->
  alias = alias' /\ id = id'.
Proof.
  intros Hid Hid'. revert alias'.
  induction alias as [|a alias IH]; intros [|a' alias'] Heq; simpl in Heq.
  - injection Heq as ->. now split.
  - injection Heq as <- ->. now rewrite digits_no_dash in Hid.
  - injection Heq as -> <-. now rewrite digits_no_dash in Hid'.
  - injection Heq as -> Heq. destruct (IH _ Heq) as [-> ->]. now split.
Qed.


(** ** Account strings *)

Example parse_alias :
  NewAccountFromString "my-prod_1-123456789012"
  = Ok {| Id := "123456789012"; Alias := "my-prod_1" |}.
Proof. reflexivity. Qed.

Example parse_bare : NewAccountFromString "123" = Ok {| Id := "123"; Alias := "" |}.
Proof. reflexivity. Qed.

Example parse_digits_alias :
  NewAccountFromString "12-34" = Ok {| Id := "34"; Alias := "12" |}.
Proof. reflexivity. Qed.

Example parse_no_digits :
  NewAccountFromString "prod-" = Panic "Can't create account name from prod-".
Proof. reflexivity. Qed.

Example parse_trailing_newline :
  NewAccountFromString ("123" +:+ String (ascii_of_nat 10) "")
  = Panic (cannot_create ("123" +:+ String (ascii_of_nat 10) "")).
Proof. reflexivity. Qed.

Lemma ascii_eqb_true (a b : ascii) : Ascii.eqb a b = true -> a = b.
Proof. apply Ascii.eqb_eq. Qed.

Lemma accountReg_sound s c :
  match_anchored 3 accountReg s = Some c ->
  (exists alias id, alias_form s alias id /\ c = [s; alias +:+ "-"; alias; id]) \/
  (bare_form s /\ c = [s; ""; ""; s]).
Proof.
  unfold match_anchored, accountReg. cbn [rmatch].
  destruct (plus_greedy is_word_or_dash s _) as [c'|] eqn:Halias.
  - intros [= ->]. left.
    apply plus_greedy_sound in Halias as (alias & rest & -> & Hne & Hall & Hk).
    destruct rest as [|a rest]; [discriminate |].
    destruct (Ascii.eqb a "-") eqn:Hdash; [| discriminate].
    apply ascii_eqb_true in Hdash as ->.
    apply plus_greedy_sound in Hk as (id & rest' & -> & Hne' & Hall' & Hk).
    destruct rest'; [| discriminate]. injection Hk as <-.
    exists alias, id. split.
    + unfold alias_form. rewrite append_nil_r. now repeat split.
    + cbn. rewrite append_nil_r, append_assoc. reflexivity.
  - intros Hbare. right.
    apply plus_greedy_sound in Hbare as (id & rest & -> & Hne & Hall & Hk).
    destruct rest; [| discriminate]. injection Hk as <-.
    rewrite append_nil_r. split; [now split | reflexivity].
Qed.

Lemma accountReg_complete_alias alias id :
  alias_form (alias +:+ "-" +:+ id) alias id ->
  is_Some (match_anchored 3 accountReg (alias +:+ "-" +:+ id)).
Proof.
  intros (_ & Hne & Hall & Hne' & Hall').
  unfold match_anchored, accountReg. cbn [rmatch].
  match goal with
  | |- is_Some (match ?g with Some c' => Some c' | None => _ end) =>
      assert (is_Some g) as [c Hc]; [| rewrite Hc; eexists; reflexivity]
  end.
  apply plus_greedy_complete; [exact Hne | exact Hall |].
  simpl.
  rewrite <- (append_nil_r id).
  apply plus_greedy_complete; [exact Hne' | exact Hall' |].
  eexists; reflexivity.
Qed.

Lemma accountReg_complete_bare id :
  bare_form id -> is_Some (match_anchored 3 accountReg id).
Proof.
  intros [Hne Hall].
  unfold match_anchored, accountReg. cbn [rmatch].
  match goal with
  | |- is_Some (match ?g with Some c' => Some c' | None => ?h end) =>
      destruct g; [eexists; reflexivity |]
  end.
  rewrite <- (append_nil_r id).
  apply plus_greedy_complete; [exact Hne | exact Hall |].
  eexists; reflexivity.
Qed.

Lemma bare_not_alias s alias id : bare_form s -> alias_form s alias id -> False.
Proof.
  intros [_ Hall] (-> & _). simpl in Hall. now rewrite digits_no_dash in Hall.
Qed.

(** What the parser returns on each of the two shapes. *)
Lemma NewAccountFromString_alias alias id :
  alias_form (alias +:+ "-" +:+ id) alias id ->
  NewAccountFromString (alias +:+ "-" +:+ id) = Ok {| Id := id; Alias := alias |}.
Proof.
  intros Hform. unfold NewAccountFromString, FindAllStringSubmatch_anchored.
  destruct (accountReg_complete_alias _ _ Hform) as [c Hc]. rewrite Hc.
  apply accountReg_sound in Hc as [(alias' & id' & Hform' & ->) | [Hbare _]].
  - destruct Hform as (_ & _ & _ & _ & Hd), Hform' as (Heq & _ & _ & _ & Hd').
    destruct (alias_id_unique _ _ _ _ Hd Hd' Heq) as [<- <-]. reflexivity.
  - destruct (bare_not_alias _ _ _ Hbare Hform).
Qed.

Lemma NewAccountFromString_bare id :
  bare_form id -> NewAccountFromString id = Ok {| Id := id; Alias := "" |}.
Proof.
  intros Hbare. unfold NewAccountFromString, FindAllStringSubmatch_anchored.
  destruct (accountReg_complete_bare _ Hbare) as [c Hc]. rewrite Hc.
  apply accountReg_sound in Hc as [(alias' & id' & Hform' & ->) | [_ ->]].
  - destruct (bare_not_alias _ _ _ Hbare Hform').
  - reflexivity.
Qed.

Lemma NewAccountFromString_Ok s a :
  NewAccountFromString s = Ok a ->
  (alias_form s (Alias a) (Id a)) \/ (bare_form s /\ Alias a = "" /\ Id a = s).
Proof.
  unfold NewAccountFromString, FindAllStringSubmatch_anchored.
  destruct (match_anchored 3 accountReg s) as [c|] eqn:Hc; [| discriminate].
  apply accountReg_sound in Hc as [(alias & id & Hform & ->) | [Hbare ->]];
    simpl; intros [= <-]; simpl; auto.
Qed.

Lemma NewAccountFromString_Panic s :
  ~ (exists alias id, alias_form s alias id) -> ~ bare_form s ->
  NewAccountFromString s = Panic (cannot_create s).
Proof.
  intros Hna Hnb.
  destruct (NewAccountFromString s) as [a|msg] eqn:Hp.
  - apply NewAccountFromString_Ok in Hp as [Hform | [Hbare _]].
    + destruct Hna; eauto.
    + destruct (Hnb Hbare).
  - revert Hp. unfold NewAccountFromString, FindAllStringSubmatch_anchored.
    destruct (match_anchored 3 accountReg s) as [c|] eqn:Hc; [| congruence].
    apply accountReg_sound in Hc as [(alias & id & Hform & ->) | [Hbare ->]];
      simpl; discriminate.
Qed.


Lemma ends_with_digit_append (x id : string) :
  id <> "" -> all_chars is_digit id = true -> ends_with_digit (x +:+ id) = true.
Proof.
  intros Hne Hall. induction x as [|a x IH]; simpl.
  - induction id as [|b id IHid]; [now destruct Hne |].
    simpl in Hall. apply andb_prop in Hall as [Hb Hall]. simpl.
    destruct id as [|b' id]; [exact Hb |].
    apply IHid; [discriminate | exact Hall].
  - destruct (x +:+ id) eqn:Hx; [discriminate IH | exact IH].
Qed.

Lemma account_string_ends_with_digit s : account_string s -> ends_with_digit s = true.
Proof.
  intros [(alias & id & -> & _ & _ & Hne & Hall) | [Hne Hall]].
  - rewrite <- append_assoc. now apply ends_with_digit_append.
  - now apply (ends_with_digit_append "").
Qed.

(** C5.  Parsing an account string of the form ["<alias>-<digits>"] or
    ["<digits>"] succeeds, and rendering the parsed account gives the
    string back: the alias, a hyphen and the id when an alias was parsed,
    the bare id otherwise. *)
Theorem account_parse_render_roundtrip (s : string) :
  account_string s ->
  exists a,
    NewAccountFromString s = Ok a /\
    Account_String a = s /\
    (Alias a <> "" -> Account_String a = Alias a +:+ "-" +:+ Id a) /\
    (Alias a = "" -> Account_String a = Id a).
Proof.
  intros [(alias & id & Hform) | Hbare].
  - pose proof Hform as (-> & Hne & _).
    exists {| Id := id; Alias := alias |}.
    split; [now apply NewAccountFromString_alias |].
    unfold Account_String; simpl.
    pose proof Hne as Hne'. apply String.eqb_neq in Hne'. rewrite Hne'. simpl.
    split; [reflexivity | split; [reflexivity | intros Hz; now destruct Hne]].
  - exists {| Id := s; Alias := "" |}.
    split; [now apply NewAccountFromString_bare |].
    unfold Account_String; simpl. now repeat split.
Qed.

Lemma account_parse_render_roundtrip_witness :
  exists a,
    NewAccountFromString "prod-123456789012" = Ok a /\
    Account_String a = "prod-123456789012" /\
    (Alias a <> "" -> Account_String a = Alias a +:+ "-" +:+ Id a) /\
    (Alias a = "" -> Account_String a = Id a).
Proof.
  apply (account_parse_render_roundtrip "prod-123456789012").
  left. exists "prod", "123456789012". unfold alias_form.
  repeat split; (reflexivity || discriminate).
Defined.

(** C8.  Parsing panics, producing no account, on the empty string and on
    every string that does not end in a run of digits, ["prod-"] among
    them; it succeeds only on ["<digits>"], optionally preceded by
    ["<alias>-"]. *)
Theorem account_parse_fails_without_digits :
  NewAccountFromString "" = Panic (cannot_create "") /\
  NewAccountFromString "prod-" = Panic (cannot_create "prod-") /\
  (forall s, ends_with_digit s = false ->
             NewAccountFromString s = Panic (cannot_create s)) /\
  (forall s a, NewAccountFromString s = Ok a -> account_string s).
Proof.
  assert (forall s, ends_with_digit s = false ->
                    NewAccountFromString s = Panic (cannot_create s)) as Hfail.
  { intros s Hend. apply NewAccountFromString_Panic.
    - intros Hform. rewrite account_string_ends_with_digit in Hend; [discriminate |].
      now left.
    - intros Hbare. rewrite account_string_ends_with_digit in Hend; [discriminate |].
      now right. }
  split; [| split; [| split]].
  - now apply Hfail.
  - now apply Hfail.
  - exact Hfail.
  - intros s a Hp. apply NewAccountFromString_Ok in Hp as [Hform | [Hbare _]].
    + left. eauto.
    + now right.
Qed.

Lemma account_parse_fails_without_digits_witness :
  NewAccountFromString "my_account" = Panic (cannot_create "my_account") /\
  account_string "7-42".
Proof.
  destruct account_parse_fails_without_digits as (_ & _ & Hfail & Honly).
  split.
  - apply Hfail. reflexivity.
  - apply (Honly "7-42" {| Id := "42"; Alias := "7" |}). reflexivity.
Defined.

(** C6.  A name that does not start with ["arn:"] is expanded with the
    account's policy prefix and normalising the result gives the name
    back; a string that starts with ["arn:"] is returned as it is. *)
Theorem policy_arn_roundtrip (a : Account) (x : string) :
  (HasPrefix x "arn:" = false ->
   normalisePolicyArn a (policyArnFromString a x) = x) /\
  (HasPrefix x "arn:" = true -> policyArnFromString a x = x).
Proof.
  unfold normalisePolicyArn, policyArnFromString. split; intros Hx; rewrite Hx.
  - rewrite <- (append_assoc (Id a)), <- (append_assoc "arn:aws:iam::").
    apply TrimPrefix_append.
  - reflexivity.
Qed.

Lemma policy_arn_roundtrip_witness :
  normalisePolicyArn {| Id := "123456789012"; Alias := "prod" |}
    (policyArnFromString {| Id := "123456789012"; Alias := "prod" |} "ReadOnly")
  = "ReadOnly" /\
  policyArnFromString {| Id := "123456789012"; Alias := "prod" |}
    "arn:aws:iam::aws:policy/AdministratorAccess"
  = "arn:aws:iam::aws:policy/AdministratorAccess".
Proof.
  split.
  - apply (policy_arn_roundtrip {| Id := "123456789012"; Alias := "prod" |} "ReadOnly").
    reflexivity.
  - apply (policy_arn_roundtrip {| Id := "123456789012"; Alias := "prod" |}
             "arn:aws:iam::aws:policy/AdministratorAccess").
    reflexivity.
Defined.

(** ** The classifier *)

Section ClassifierFacts.

Context `{Clients}.

Lemma include_tag_present_intro (tags : gmap string string) (keys : list string) tag :
  In tag keys -> is_Some (tags !! tag) -> include_tag_present tags keys = true.
Proof.
  intros Hin [v Hv]. induction keys as [|k keys IH]; [destruct Hin |].
  simpl. destruct (tags !! k) eqn:Hk; [reflexivity |].
  destruct Hin as [-> | Hin]; [congruence | now apply IH].
Qed.

Lemma include_tag_present_empty (keys : list string) :
  include_tag_present ∅ keys = false.
Proof.
  induction keys as [|k keys IH]; [reflexivity |].
  simpl. now rewrite lookup_empty.
Qed.

Lemma skip_tag_reason_empty (resourceIdentifier : string) (keys : list string) :
  skip_tag_reason resourceIdentifier ∅ keys = None.
Proof.
  induction keys as [|k keys IH]; [reflexivity |].
  simpl. now rewrite lookup_empty.
Qed.

(** The first configured prefix the path starts with is the one the
    reason names. *)
Lemma skip_path_reason_hit (resourceIdentifier resourcePath : string)
    (prefixes : list string) :
  (exists path, In path prefixes /\ HasPrefix resourcePath path = true) ->
  exists path,
    In path prefixes /\ HasPrefix resourcePath path = true /\
    skip_path_reason resourceIdentifier resourcePath prefixes =
      Some ("Skipping resource " +:+ resourceIdentifier +:+ " with path "
            +:+ resourcePath +:+ " matches " +:+ path).
Proof.
  intros (path & Hin & Hpre).
  induction prefixes as [|p prefixes IH]; [destruct Hin |].
  simpl. destruct (HasPrefix resourcePath p) eqn:Hp.
  - exists p. repeat split; auto.
  - destruct Hin as [-> | Hin]; [congruence |].
    destruct (IH Hin) as (q & Hq & Hpq & Hr). exists q. repeat split; auto.
Qed.

(** With no tags the tag rules are silent: the decision is that of the
    path, ownership and service-role rules. *)
Lemma isSkippableManagedResource_no_tags (a : AwsFetcher) cfnType
    (resourceIdentifier resourcePath : string) :
  isSkippableManagedResource a cfnType resourceIdentifier ∅ resourcePath =
    match skip_path_reason resourceIdentifier resourcePath (SkipPathPrefixes a) with
    | Some reason => (true, reason)
    | None =>
        if IsManagedResource cfnType resourceIdentifier then
          (true, "CloudFormation generated resource " +:+ resourceIdentifier)
        else if Contains resourceIdentifier "AWSServiceRole"
                || Contains resourceIdentifier "aws-service-role" then
          (true, "AWS Service role generated resource " +:+ resourceIdentifier)
        else (false, "")
    end.
Proof.
  unfold isSkippableManagedResource.
  now rewrite include_tag_present_empty, andb_false_r, skip_tag_reason_empty.
Qed.

(** C3.  When the tag set holds one of the configured force-include keys
    the classifier answers [(false, "")], whatever the kind, the name, the
    path, the other tags, the skip keys, the skip prefixes and the
    ownership index are. *)
Theorem force_include_never_skipped (a : AwsFetcher) (cfnType : CfnResourceType)
    (resourceIdentifier : string) (tags : gmap string string)
    (resourcePath tag : string) :
  In tag (IncludeTagged a) ->
  is_Some (tags !! tag) ->
  isSkippableManagedResource a cfnType resourceIdentifier tags resourcePath = (false, "").
Proof.
  intros Hin Htag. unfold isSkippableManagedResource.
  rewrite (include_tag_present_intro _ _ _ Hin Htag).
  destruct (IncludeTagged a); [destruct Hin | reflexivity].
Qed.

(** C7.  With an empty tag set, a resource whose path starts with one of
    the configured skip prefixes is skipped, and the reason names the
    resource, its path and that prefix; the ownership index is not
    consulted. *)
Theorem skip_prefix_skips_untagged (a : AwsFetcher) (cfnType : CfnResourceType)
    (resourceIdentifier resourcePath : string) :
  (exists path, In path (SkipPathPrefixes a) /\ HasPrefix resourcePath path = true) ->
  exists path,
    In path (SkipPathPrefixes a) /\ HasPrefix resourcePath path = true /\
    isSkippableManagedResource a cfnType resourceIdentifier ∅ resourcePath =
      (true, "Skipping resource " +:+ resourceIdentifier +:+ " with path "
             +:+ resourcePath +:+ " matches " +:+ path).
Proof.
  intros Hhit.
  destruct (skip_path_reason_hit resourceIdentifier resourcePath _ Hhit)
    as (path & Hin & Hpre & Hr).
  exists path. rewrite isSkippableManagedResource_no_tags, Hr. auto.
Qed.

End ClassifierFacts.

(** ** Policy versions *)

Lemma findDefaultPolicyVersion_Ok (versions : list iam_PolicyVersion) :
  has_default versions = true ->
  exists v, findDefaultPolicyVersion versions = Ok v /\
            In v versions /\ PolicyVersion_IsDefaultVersion v = true.
Proof.
  induction versions as [|w versions IH]; simpl; [discriminate |].
  destruct (PolicyVersion_IsDefaultVersion w) eqn:Hw; simpl.
  - intros _. exists w. auto.
  - intros Hd. destruct (IH Hd) as (v & Hv & Hin & Hdef). exists v. auto.
Qed.

Lemma findDefaultPolicyVersion_Panic (versions : list iam_PolicyVersion) :
  has_default versions = false ->
  findDefaultPolicyVersion versions = Panic expected_default.
Proof.
  induction versions as [|w versions IH]; simpl; [reflexivity |].
  destruct (PolicyVersion_IsDefaultVersion w); simpl; [discriminate | exact IH].
Qed.

Lemma findDefaultPolicyVersion_cases (versions : list iam_PolicyVersion) :
  (has_default versions = true /\
   exists v, findDefaultPolicyVersion versions = Ok v /\
             In v versions /\ PolicyVersion_IsDefaultVersion v = true) \/
  (has_default versions = false /\
   findDefaultPolicyVersion versions = Panic expected_default).
Proof.
  destruct (has_default versions) eqn:Hd.
  - left. split; [reflexivity | now apply findDefaultPolicyVersion_Ok].
  - right. split; [reflexivity | now apply findDefaultPolicyVersion_Panic].
Qed.

Lemma findOldest_from_oldest (oldest : iam_PolicyVersion)
    (seen versions : list iam_PolicyVersion) :
  is_oldest oldest (oldest :: seen) ->
  is_oldest (findOldest_from oldest versions) (oldest :: seen ++ versions).
Proof.
  revert oldest seen. induction versions as [|w versions IH]; intros oldest seen Hold.
  - simpl. now rewrite app_nil_r.
  - simpl. unfold Before.
    destruct (Z.ltb_spec (PolicyVersion_CreateDate w) (PolicyVersion_CreateDate oldest))
      as [Hlt | Hge].
    + assert (is_oldest w (w :: oldest :: seen)) as Hw.
      { split; [now left |]. intros x [<- | Hx]; [lia |].
        destruct Hold as [_ Hmin]. specialize (Hmin x Hx). lia. }
      specialize (IH w (oldest :: seen) Hw). destruct IH as [Hin Hmin].
      split.
      * destruct Hin as [<- | Hin]; [right; apply in_or_app; right; now left |].
        simpl in Hin. destruct Hin as [<- | Hin]; [now left |].
        right. apply in_app_or in Hin as [Hin | Hin]; apply in_or_app; [now left |].
        right. now right.
      * intros x Hx. apply Hmin.
        destruct Hx as [<- | Hx]; [right; now left |].
        apply in_app_or in Hx as [Hx | [<- | Hx]].
        -- right. right. apply in_or_app. now left.
        -- now left.
        -- right. right. apply in_or_app. now right.
    + assert (is_oldest oldest (oldest :: seen ++ [w])) as Hw.
      { split; [now left |]. intros x [<- | Hx]; [lia |].
        apply in_app_or in Hx as [Hx | [<- | []]]; [| lia].
        destruct Hold as [_ Hmin]. apply Hmin. now right. }
      specialize (IH oldest (seen ++ [w]) Hw).
      now rewrite <- app_assoc in IH.
Qed.

Lemma findOldestPolicyVersionId_Ok (versions : list iam_PolicyVersion) :
  versions <> [] ->
  exists v, findOldestPolicyVersionId versions = Ok (PolicyVersion_VersionId v) /\
            is_oldest v versions.
Proof.
  destruct versions as [|first rest]; [congruence |]. intros _.
  exists (findOldest_from first rest). split; [reflexivity |].
  apply (findOldest_from_oldest first [] rest).
  split; [now left |]. intros w [<- | []]. lia.
Qed.

Lemma has_default_nonempty (versions : list iam_PolicyVersion) :
  has_default versions = true -> versions <> [].
Proof. now destruct versions. Qed.

Lemma findNonDefaultPolicyVersionIds_from_spec (ss : list string)
    (versions : list iam_PolicyVersion) :
  findNonDefaultPolicyVersionIds_from ss versions = ss ++ nondefault_ids versions.
Proof.
  revert ss. induction versions as [|w versions IH]; intros ss; simpl.
  - now rewrite app_nil_r.
  - rewrite IH. unfold nondefault_ids. simpl.
    destruct (PolicyVersion_IsDefaultVersion w); simpl; [reflexivity |].
    now rewrite <- app_assoc.
Qed.

Lemma findNonDefaultPolicyVersionIds_spec (versions : list iam_PolicyVersion) :
  findNonDefaultPolicyVersionIds versions = nondefault_ids versions.
Proof. apply findNonDefaultPolicyVersionIds_from_spec. Qed.

(** ** Computations on the fetcher *)

Section FetcherFacts.

Context `{Clients}.

Lemma bind_Ok {A B} (c : M A) (k : A -> M B) a y a'' :
  bind c k a = Ok (y, a'') <->
  exists x a', c a = Ok (x, a') /\ k x a' = Ok (y, a'').
Proof.
  unfold bind. split.
  - destruct (c a) as [[x a']|msg]; [| discriminate]. intros Hk. now exists x, a'.
  - intros (x & a' & -> & Hk). exact Hk.
Qed.

Lemma bind_Panic {A B} (c : M A) (k : A -> M B) a msg :
  c a = Panic msg -> bind c k a = Panic msg.
Proof. unfold bind. now intros ->. Qed.

Lemma forEach_cons {A} (body : A -> M (option error)) x xs a :
  forEach body (x :: xs) a =
    match body x a with
    | Ok (Some err, a') => Ok (Some err, a')
    | Ok (None, a') => forEach body xs a'
    | Panic msg => Panic msg
    end.
Proof.
  simpl. unfold bind. destruct (body x a) as [[[err|] a']|msg]; reflexivity.
Qed.

(** A loop that ends without an error ran its body on every element. *)
Lemma forEach_None_inv {A} (body : A -> M (option error)) x xs a a' :
  forEach body (x :: xs) a = Ok (None, a') ->
  exists a1, body x a = Ok (None, a1) /\ forEach body xs a1 = Ok (None, a').
Proof.
  rewrite forEach_cons.
  destruct (body x a) as [[[err|] a1]|msg]; try discriminate.
  intros Hrest. now exists a1.
Qed.

(** A panic in the body, reached without an error, is the loop's. *)
Lemma forEach_Panic {A} (body : A -> M (option error)) xs x ys a a1 msg :
  forEach body xs a = Ok (None, a1) -> body x a1 = Panic msg ->
  forEach body (xs ++ x :: ys) a = Panic msg.
Proof.
  revert a. induction xs as [|z xs IH]; intros a Hxs Hx.
  - injection Hxs as <-. simpl app. rewrite forEach_cons. now rewrite Hx.
  - apply forEach_None_inv in Hxs as (a2 & Hz & Hxs).
    simpl app. rewrite forEach_cons, Hz. now apply IH.
Qed.

Lemma orReturn_None_inv (c k : M (option error)) a r a' :
  orReturn c k a = Ok (r, a') ->
  (exists err, r = Some err /\ c a = Ok (Some err, a')) \/
  (exists a1, c a = Ok (None, a1) /\ k a1 = Ok (r, a')).
Proof.
  unfold orReturn. intros Hb. apply bind_Ok in Hb as ([err|] & a1 & Hc & Hk).
  - injection Hk as <- <-. left. now exists err.
  - right. now exists a1.
Qed.

(** The classifier reads the settings only. *)
Lemma isSkippableManagedResource_settings (a a' : AwsFetcher) cfnType
    resourceIdentifier tags resourcePath :
  same_settings a a' ->
  isSkippableManagedResource a' cfnType resourceIdentifier tags resourcePath =
  isSkippableManagedResource a cfnType resourceIdentifier tags resourcePath.
Proof.
  intros (_ & _ & Hs & Hi & Hp & _). unfold isSkippableManagedResource.
  now rewrite Hs, Hi, Hp.
Qed.

Lemma same_settings_refl (a : AwsFetcher) : same_settings a a.
Proof. now repeat split. Qed.

Lemma same_settings_trans (a a1 a2 : AwsFetcher) :
  same_settings a a1 -> same_settings a1 a2 -> same_settings a a2.
Proof.
  unfold same_settings. intros (?&?&?&?&?&?) (?&?&?&?&?&?).
  repeat split; congruence.
Qed.

Lemma alter_new {A} (f : A -> A) (l : list A) (x : A) :
  alter f (length l) (l ++ [x]) = l ++ [f x].
Proof. replace (length l) with (length l + 0) by lia. now rewrite alter_app_r. Qed.

(** *** One managed policy *)

Lemma populatePolicy_inv policyTags policyResp a r a1 :
  populatePolicy policyTags policyResp a = Ok (r, a1) ->
  (first_pass_skips a policyResp = true /\ r = None /\
   a1 = with_classified (classified a ++ [first_call policyResp]) a) \/
  (first_pass_skips a policyResp = false /\
   exists v doc err,
     findDefaultPolicyVersion (ManagedPolicyDetail_PolicyVersionList policyResp) = Ok v /\
     NewPolicyDocumentFromEncodedJson (PolicyVersion_Document v) = (doc, Some err) /\
     r = Some err /\
     a1 = with_classified (classified a ++ [first_call policyResp]) a) \/
  (first_pass_skips a policyResp = false /\
   exists v doc oldest,
     findDefaultPolicyVersion (ManagedPolicyDetail_PolicyVersionList policyResp) = Ok v /\
     NewPolicyDocumentFromEncodedJson (PolicyVersion_Document v) = (doc, None) /\
     findOldestPolicyVersionId (ManagedPolicyDetail_PolicyVersionList policyResp)
       = Ok oldest /\
     r = None /\
     a1 = after_policy policyTags policyResp doc oldest a).
Proof.
  unfold populatePolicy, marshalPolicyDescriptionAsync, dispatch, writePolicy, bind,
    classify, lift, get, modify, ret, newPolicy, first_pass_skips.
  cbn beta iota.
  destruct (fst (isSkippableManagedResource a CfnIamPolicy _ ∅ _)) eqn:Hs1.
  - intros [= <- <-]. left. auto.
  - destruct (findDefaultPolicyVersion _) as [v|m] eqn:Hv; [| discriminate].
    destruct (NewPolicyDocumentFromEncodedJson _) as [doc [err|]] eqn:Hdoc.
    + intros [= <- <-]. right. left. split; [reflexivity |]. exists v, doc, err. auto.
    + destruct (findOldestPolicyVersionId _) as [oldest|m] eqn:Ho; [| discriminate].
      intros Hres. right. right. split; [reflexivity |]. exists v, doc, oldest.
      repeat (split; [assumption || reflexivity |]).
      revert Hres. unfold after_policy, second_pass_skips, second_call, first_call, tags_for.
      cbn [fst snd SkipFetchingPolicyAndRoleDescriptions with_policyStore
           with_classified with_descriptionFetchWaitGroup policyStore].
      destruct (SkipFetchingPolicyAndRoleDescriptions a) eqn:Hskip;
        cbn [negb with_policyStore with_classified with_descriptionFetchWaitGroup
             policyStore classified descriptionFetchWaitGroup];
        rewrite alter_new;
        match goal with
        | |- context [fst (isSkippableManagedResource ?x ?k ?n ?t ?p)] =>
            change (isSkippableManagedResource x k n t p)
              with (isSkippableManagedResource a k n t p)
        end;
        destruct (fst (isSkippableManagedResource a CfnIamPolicy _ (default _ _) _));
        cbn beta iota; intros [= <- <-]; split; try reflexivity;
        unfold with_data, with_classified, with_policyStore,
          with_descriptionFetchWaitGroup, set_Policy_Tags; simpl;
        rewrite <- ?app_assoc; try rewrite Hskip; reflexivity.
Qed.

Lemma populatePolicy_skipped policyTags policyResp a :
  first_pass_skips a policyResp = true ->
  populatePolicy policyTags policyResp a =
    Ok (None, with_classified (classified a ++ [first_call policyResp]) a).
Proof.
  unfold populatePolicy, bind, classify, ret, first_pass_skips, first_call.
  cbn beta iota. now intros ->.
Qed.

Lemma populatePolicy_no_default policyTags policyResp a :
  first_pass_skips a policyResp = false ->
  has_default (ManagedPolicyDetail_PolicyVersionList policyResp) = false ->
  populatePolicy policyTags policyResp a = Panic expected_default.
Proof.
  unfold populatePolicy, bind, classify, lift, first_pass_skips.
  cbn beta iota. intros -> Hd.
  now rewrite (findDefaultPolicyVersion_Panic _ Hd).
Qed.

(** With a default version in the list the body returns: neither the
    search for the default nor the read of the first element faults. *)
Lemma populatePolicy_returns policyTags policyResp a :
  has_default (ManagedPolicyDetail_PolicyVersionList policyResp) = true ->
  returns (populatePolicy policyTags policyResp a).
Proof.
  intros Hd.
  destruct (findDefaultPolicyVersion_Ok _ Hd) as (v & Hv & _).
  destruct (findOldestPolicyVersionId_Ok _ (has_default_nonempty _ Hd)) as (w & Hw & _).
  unfold returns, populatePolicy, marshalPolicyDescriptionAsync, dispatch, writePolicy,
    bind, classify, lift, get, modify, ret, newPolicy.
  cbn beta iota. rewrite Hv, Hw.
  destruct (fst (isSkippableManagedResource a CfnIamPolicy _ ∅ _));
    [eexists; reflexivity |].
  destruct (NewPolicyDocumentFromEncodedJson _) as [doc [err|]];
    [eexists; reflexivity |].
  cbn beta iota.
  destruct (negb _); cbn beta iota;
    destruct (fst (isSkippableManagedResource _ CfnIamPolicy _ _ _));
    eexists; reflexivity.
Qed.

(** The only panic of the body is that of the search for the default
    version. *)
Lemma populatePolicy_Panic_inv policyTags policyResp a msg :
  populatePolicy policyTags policyResp a = Panic msg ->
  msg = expected_default /\
  first_pass_skips a policyResp = false /\
  has_default (ManagedPolicyDetail_PolicyVersionList policyResp) = false.
Proof.
  intros Hp.
  destruct (has_default (ManagedPolicyDetail_PolicyVersionList policyResp)) eqn:Hd.
  - destruct (populatePolicy_returns policyTags policyResp a Hd) as [x Hx]. congruence.
  - destruct (first_pass_skips a policyResp) eqn:Hs.
    + rewrite populatePolicy_skipped in Hp by exact Hs. discriminate.
    + rewrite populatePolicy_no_default in Hp by assumption.
      injection Hp as <-. auto.
Qed.

(** *** Steps that handle no managed policy *)

Lemma keeps_policies_refl a : keeps_policies a a.
Proof.
  repeat split; try reflexivity. exists []. now rewrite app_nil_r.
Qed.

Lemma keeps_policies_trans a a1 a2 :
  keeps_policies a a1 -> keeps_policies a1 a2 -> keeps_policies a a2.
Proof.
  intros (Hs & Hst & Hp & He & calls & Hc) (Hs' & Hst' & Hp' & He' & calls' & Hc').
  split; [eapply same_settings_trans; eassumption |].
  repeat split; try congruence.
  exists (calls ++ calls'). rewrite Hc', Hc. now rewrite app_assoc.
Qed.

Lemma forEach_preserves {A} (R : AwsFetcher -> AwsFetcher -> Prop)
    (body : A -> M (option error)) (xs : list A) :
  (forall a, R a a) ->
  (forall a a1 a2, R a a1 -> R a1 a2 -> R a a2) ->
  (forall x a r a', In x xs -> body x a = Ok (r, a') -> R a a') ->
  forall a r a', forEach body xs a = Ok (r, a') -> R a a'.
Proof.
  intros Hrefl Htrans Hbody. induction xs as [|x xs IH]; intros a r a' Hrun.
  - injection Hrun as <- <-. apply Hrefl.
  - rewrite forEach_cons in Hrun.
    destruct (body x a) as [[[err|] a1]|msg] eqn:Hx; [| | discriminate].
    + injection Hrun as <- <-. eapply Hbody; [now left | exact Hx].
    + eapply Htrans.
      * eapply Hbody; [now left | exact Hx].
      * eapply IH; [| exact Hrun]. intros y b r' b' Hy. apply Hbody. now right.
Qed.

Ltac run_step :=
  cbn beta iota;
  repeat match goal with
         | |- context [if ?c then _ else _] => destruct c eqn:?; cbn beta iota
         | |- context [match ?c with (_, _) => _ end] =>
             destruct c as [? [?|]] eqn:?; cbn beta iota
         end.

Ltac frame_done :=
  intros [= <- <-];
  repeat split; simpl; try reflexivity;
  try (eexists; reflexivity);
  try (rewrite app_nil_r; reflexivity).

Lemma populateUser_keeps userResp a r a' :
  populateUser userResp a = Ok (r, a') ->
  keeps_policies a a' /\ descriptionFetchWaitGroup a' = descriptionFetchWaitGroup a.
Proof.
  unfold populateUser, bind, classify, get, modify, ret.
  run_step; frame_done.
Qed.

Lemma populateGroup_keeps groupResp a r a' :
  populateGroup groupResp a = Ok (r, a') ->
  keeps_policies a a' /\ descriptionFetchWaitGroup a' = descriptionFetchWaitGroup a.
Proof.
  unfold populateGroup, bind, classify, get, modify, ret.
  run_step; frame_done.
Qed.

End FetcherFacts.

(** ** The loops of [populateIamData] *)

Section LoopFacts.

Context `{Clients}.

Lemma keeps_all_refl a : keeps_all a a.
Proof. split; [apply keeps_policies_refl | reflexivity]. Qed.

Lemma keeps_all_trans a a1 a2 : keeps_all a a1 -> keeps_all a1 a2 -> keeps_all a a2.
Proof.
  intros [Hk Hw] [Hk' Hw']. split; [eapply keeps_policies_trans; eassumption |].
  congruence.
Qed.

Lemma users_loop users a r a' :
  forEach populateUser users a = Ok (r, a') -> keeps_all a a'.
Proof.
  apply (forEach_preserves keeps_all); [apply keeps_all_refl | apply keeps_all_trans |].
  intros x b r' b' _. apply populateUser_keeps.
Qed.

Lemma groups_loop groups a r a' :
  forEach populateGroup groups a = Ok (r, a') -> keeps_all a a'.
Proof.
  apply (forEach_preserves keeps_all); [apply keeps_all_refl | apply keeps_all_trans |].
  intros x b r' b' _. apply populateGroup_keeps.
Qed.

(** The lookup of a role is dispatched when the classifier accepts the
    role and descriptions are fetched. *)
Lemma populateRole_None_inv roleResp a a' :
  populateRole roleResp a = Ok (None, a') ->
  keeps_policies a a' /\
  descriptionFetchWaitGroup a' =
    descriptionFetchWaitGroup a ++
    (if role_skipped a roleResp || SkipFetchingPolicyAndRoleDescriptions a then []
     else [RoleLookup (RoleDetail_RoleName roleResp) (length (roleStore a))]).
Proof.
  unfold populateRole, marshalRoleAsync, dispatch, writeRole, bind, classify, get,
    modify, ret, newRole, role_skipped.
  cbn beta iota.
  destruct (fst (isSkippableManagedResource a CfnIamRole _ _ _)) eqn:Hs; cbn beta iota.
  - intros [= <-]. simpl. rewrite app_nil_r.
    split; [| reflexivity]. repeat split; simpl; try reflexivity. eexists; reflexivity.
  - cbn [SkipFetchingPolicyAndRoleDescriptions with_roleStore with_classified].
    destruct (SkipFetchingPolicyAndRoleDescriptions a) eqn:Hskip; cbn [negb orb];
      cbn beta iota;
      destruct (NewPolicyDocumentFromEncodedJson _) as [doc [err|]]; try discriminate;
      destruct (populateInlinePolicies _ _) as [inline [err|]]; try discriminate;
      cbn beta iota; intros [= <-]; simpl; rewrite ?app_nil_r;
      (split; [| reflexivity]); repeat split; simpl; try reflexivity;
      eexists; reflexivity.
Qed.

Lemma roles_loop roles a a' :
  forEach populateRole roles a = Ok (None, a') ->
  keeps_policies a a' /\
  exists ls,
    descriptionFetchWaitGroup a' = descriptionFetchWaitGroup a ++ ls /\
    (SkipFetchingPolicyAndRoleDescriptions a = true -> ls = []) /\
    (SkipFetchingPolicyAndRoleDescriptions a = false ->
     Forall2 lookup_of_role ls
       (List.filter (fun roleResp => negb (role_skipped a roleResp)) roles)).
Proof.
  revert a. induction roles as [|roleResp roles IH]; intros a Hrun.
  - injection Hrun as <-. split; [apply keeps_policies_refl |].
    exists []. rewrite app_nil_r. repeat split; auto; intros _; constructor.
  - apply forEach_None_inv in Hrun as (a1 & Hstep & Hrest).
    apply populateRole_None_inv in Hstep as [Hk Hw].
    destruct (IH _ Hrest) as (Hk' & ls & Hw' & Hnone & Hsome).
    split; [eapply keeps_policies_trans; eassumption |].
    pose proof Hk as ((Hskip & _) & _).
    assert (forall rr, role_skipped a1 rr = role_skipped a rr) as Hsame.
    { intros rr. unfold role_skipped.
      now rewrite (isSkippableManagedResource_settings a a1) by apply Hk. }
    eexists. split; [rewrite Hw', Hw, <- app_assoc; reflexivity |].
    split.
    + intros Hs. rewrite Hs, orb_true_r. simpl. apply Hnone. congruence.
    + intros Hs. rewrite Hs, orb_false_r. simpl.
      rewrite Hskip in Hsome. specialize (Hsome Hs).
      rewrite (filter_ext _ (fun rr => negb (role_skipped a rr))) in Hsome
        by (intros rr; now rewrite Hsame).
      destruct (role_skipped a roleResp); simpl; [exact Hsome |].
      constructor; [eexists; reflexivity | exact Hsome].
Qed.

(** The loop over the managed policies of a page, when it ends without
    an error. *)
Lemma policies_loop policyTags policies a a' :
  forEach (populatePolicy policyTags) policies a = Ok (None, a') ->
  same_settings a a' /\
  descriptionFetchError a' = descriptionFetchError a /\
  classified a' = classified a ++ flat_map (policy_calls a policyTags) policies /\
  (exists added, policyStore a' = policyStore a ++ added) /\
  (exists new,
     AccountData_Policies (data a') = AccountData_Policies (data a) ++ new /\
     Forall2 (fun ptr policyResp =>
                exists p, policyStore a' !! ptr = Some p /\
                          policy_built_from policyTags policyResp p)
       new (List.filter (passes_both a policyTags) policies)) /\
  (exists ls,
     descriptionFetchWaitGroup a' = descriptionFetchWaitGroup a ++ ls /\
     (SkipFetchingPolicyAndRoleDescriptions a = true -> ls = []) /\
     (SkipFetchingPolicyAndRoleDescriptions a = false ->
      Forall2 lookup_of_policy ls
        (List.filter (fun policyResp => negb (first_pass_skips a policyResp)) policies))) /\
  Forall (fun policyResp =>
            first_pass_skips a policyResp = false ->
            has_default (ManagedPolicyDetail_PolicyVersionList policyResp) = true)
    policies.
Proof.
  revert a. induction policies as [|policyResp policies IH]; intros a Hrun.
  - injection Hrun as <-. simpl. rewrite app_nil_r.
    split; [apply same_settings_refl |]. repeat split; auto.
    + exists []. now rewrite app_nil_r.
    + exists []. rewrite app_nil_r. split; [reflexivity | constructor].
    + exists []. rewrite app_nil_r. repeat split; auto; intros _; constructor.
  - apply forEach_None_inv in Hrun as (a1 & Hstep & Hrest).
    destruct (IH _ Hrest)
      as (Hs' & He' & Hc' & (added' & Hst') & (new' & Hp' & Hall') &
          (ls' & Hw' & Hnone' & Hsome') & Hdef').
    apply populatePolicy_inv in Hstep
      as [(Hskip1 & _ & ->) | [(Hskip1 & v & doc & err & _ & _ & [=] & _) |
          (Hskip1 & v & doc & oldest & Hv & Hdoc & Hold & _ & ->)]].
    + (* skipped by the first pass *)
      set (a1 := with_classified (classified a ++ [first_call policyResp]) a) in *.
      assert (same_settings a a1) as Hs1 by (now repeat split).
      assert (forall pr, first_pass_skips a1 pr = first_pass_skips a pr) as Hf
        by (intros pr; unfold first_pass_skips;
            now rewrite (isSkippableManagedResource_settings a a1)).
      assert (forall pr, passes_both a1 policyTags pr = passes_both a policyTags pr) as Hb
        by (intros pr; unfold passes_both, second_pass_skips; rewrite Hf;
            now rewrite (isSkippableManagedResource_settings a a1)).
      assert (forall pr, policy_calls a1 policyTags pr = policy_calls a policyTags pr) as Hpc
        by (intros pr; unfold policy_calls; now rewrite Hf).
      split; [eapply same_settings_trans; eassumption |].
      split; [exact He' |].
      split.
      { rewrite Hc'. simpl. unfold policy_calls at 2. rewrite Hskip1. simpl.
        rewrite <- app_assoc. reflexivity. }
      split; [exists added'; exact Hst' |].
      split.
      { exists new'. split; [exact Hp' |]. simpl.
        unfold passes_both at 1. rewrite Hskip1. simpl.
        rewrite (filter_ext _ (passes_both a policyTags)) in Hall' by exact Hb.
        exact Hall'. }
      split.
      { exists ls'. split; [exact Hw' |]. split; [exact Hnone' |].
        intros Hskip. simpl. rewrite Hskip1. simpl.
        specialize (Hsome' Hskip).
        rewrite (filter_ext _ (fun pr => negb (first_pass_skips a pr))) in Hsome'
          by (intros pr; now rewrite Hf).
        exact Hsome'. }
      constructor; [congruence | exact Hdef'].
    + (* built, then classified with its tags *)
      set (a1 := after_policy policyTags policyResp doc oldest a) in *.
      assert (same_settings a a1) as Hs1 by (now repeat split).
      assert (forall pr, first_pass_skips a1 pr = first_pass_skips a pr) as Hf
        by (intros pr; unfold first_pass_skips;
            now rewrite (isSkippableManagedResource_settings a a1)).
      assert (forall pr, passes_both a1 policyTags pr = passes_both a policyTags pr) as Hb
        by (intros pr; unfold passes_both, second_pass_skips; rewrite Hf;
            now rewrite (isSkippableManagedResource_settings a a1)).
      assert (forall pr, policy_calls a1 policyTags pr = policy_calls a policyTags pr) as Hpc
        by (intros pr; unfold policy_calls; now rewrite Hf).
      assert (has_default (ManagedPolicyDetail_PolicyVersionList policyResp) = true) as Hd.
      { destruct (findDefaultPolicyVersion_cases
                    (ManagedPolicyDetail_PolicyVersionList policyResp))
          as [[Hd _] | [_ Hp]]; [exact Hd | congruence]. }
      split; [eapply same_settings_trans; eassumption |].
      split; [exact He' |].
      split.
      { rewrite Hc'. simpl. unfold policy_calls at 2. rewrite Hskip1. simpl.
        rewrite <- app_assoc. reflexivity. }
      split.
      { rewrite Hst'. simpl. rewrite <- app_assoc. eexists; reflexivity. }
      split.
      { rewrite (filter_ext _ (passes_both a policyTags)) in Hall' by exact Hb.
        simpl. unfold passes_both at 1. rewrite Hskip1. simpl.
        simpl in Hp'.
        destruct (second_pass_skips a policyTags policyResp) eqn:Hskip2; simpl.
        - exists new'. split; [exact Hp' | exact Hall'].
        - exists (length (policyStore a) :: new').
          split; [rewrite Hp'; simpl; now rewrite <- app_assoc |].
          constructor; [| exact Hall'].
          eexists. split.
          { rewrite Hst'. simpl. rewrite <- app_assoc. simpl.
            apply list_lookup_middle. reflexivity. }
          destruct (findDefaultPolicyVersion_Ok _ Hd) as (v' & Hv' & Hin & Hdefv).
          assert (v' = v) as -> by congruence.
          destruct (findOldestPolicyVersionId_Ok _ (has_default_nonempty _ Hd))
            as (w & Hw & Hmin).
          assert (oldest = PolicyVersion_VersionId w) as -> by congruence.
          unfold policy_built_from. simpl.
          split; [reflexivity |].
          split; [exists v; auto |].
          split; [exists w; auto |].
          split; [apply findNonDefaultPolicyVersionIds_spec |].
          split; reflexivity. }
      split.
      { simpl in Hw'. destruct Hs1 as (Hsk & _). simpl in Hsk.
        destruct (SkipFetchingPolicyAndRoleDescriptions a) eqn:Hskip.
        - exists ls'. split; [exact Hw' |]. split; [intros _; now apply Hnone' |].
          discriminate.
        - eexists. split; [rewrite Hw', <- app_assoc; reflexivity |].
          split; [discriminate |]. intros _. simpl. rewrite Hskip1. simpl.
          constructor; [eexists; reflexivity |].
          specialize (Hsome' Hskip).
          rewrite (filter_ext _ (fun pr => negb (first_pass_skips a pr))) in Hsome'
            by (intros pr; now rewrite Hf).
          exact Hsome'. }
      constructor; [intros _; exact Hd | exact Hdef'].
Qed.

End LoopFacts.

(** ** A page of authorization details *)

Section PageFacts.

Context `{Clients}.

(** The tags the page's single batched lookup returns. *)
Lemma populateIamData_pages_None resp a a1 :
  populateIamData_pages resp a = Ok (None, a1) ->
  let policyTags := fst (getMultiplePolicyTags (map ManagedPolicyDetail_Arn (Policies resp))) in
  same_settings a a1 /\
  descriptionFetchError a1 = descriptionFetchError a /\
  (exists before,
     classified a1 =
       classified a ++ before ++ flat_map (policy_calls a policyTags) (Policies resp)) /\
  (exists new,
     AccountData_Policies (data a1) = AccountData_Policies (data a) ++ new /\
     Forall2 (fun ptr policyResp =>
                exists p, policyStore a1 !! ptr = Some p /\
                          policy_built_from policyTags policyResp p)
       new (List.filter (passes_both a policyTags) (Policies resp))) /\
  (exists rl pl,
     descriptionFetchWaitGroup a1 = descriptionFetchWaitGroup a ++ rl ++ pl /\
     (SkipFetchingPolicyAndRoleDescriptions a = true -> rl = [] /\ pl = []) /\
     (SkipFetchingPolicyAndRoleDescriptions a = false ->
      Forall2 lookup_of_role rl
        (List.filter (fun roleResp => negb (role_skipped a roleResp)) (RoleDetailList resp)) /\
      Forall2 lookup_of_policy pl
        (List.filter (fun policyResp => negb (first_pass_skips a policyResp))
           (Policies resp)))) /\
  Forall (fun policyResp =>
            first_pass_skips a policyResp = false ->
            has_default (ManagedPolicyDetail_PolicyVersionList policyResp) = true)
    (Policies resp).
Proof.
  unfold populateIamData_pages. intros Hrun. cbv zeta.
  apply orReturn_None_inv in Hrun as [(err & [=] & _) | (au & Hu & Hrun)].
  apply orReturn_None_inv in Hrun as [(err & [=] & _) | (ag & Hg & Hrun)].
  apply orReturn_None_inv in Hrun as [(err & [=] & _) | (ar & Hr & Hrun)].
  apply users_loop in Hu as [Hku Hwu].
  apply groups_loop in Hg as [Hkg Hwg].
  apply roles_loop in Hr as (Hkr & rl & Hwr & Hrnone & Hrsome).
  pose proof (keeps_policies_trans _ _ _ Hku (keeps_policies_trans _ _ _ Hkg Hkr))
    as (Hs & Hst & Hp & He & before & Hc).
  assert (same_settings a ag) as Hsg.
  { eapply same_settings_trans; [apply Hku | apply Hkg]. }
  destruct (getMultiplePolicyTags _) as [policyTags [err|]] eqn:Htags;
    [discriminate |].
  simpl fst.
  apply policies_loop in Hrun
    as (Hs' & He' & Hc' & _ & (new & Hp' & Hall) & (pl & Hwp & Hpnone & Hpsome) & Hdef).
  assert (forall pr, first_pass_skips ar pr = first_pass_skips a pr) as Hf
    by (intros pr; unfold first_pass_skips;
        now rewrite (isSkippableManagedResource_settings a ar)).
  assert (forall pr, passes_both ar policyTags pr = passes_both a policyTags pr) as Hb
    by (intros pr; unfold passes_both, second_pass_skips; rewrite Hf;
        now rewrite (isSkippableManagedResource_settings a ar)).
  assert (forall rr, role_skipped ag rr = role_skipped a rr) as Hrs
    by (intros rr; unfold role_skipped;
        now rewrite (isSkippableManagedResource_settings a ag)).
  assert (SkipFetchingPolicyAndRoleDescriptions ar
          = SkipFetchingPolicyAndRoleDescriptions a) as Hskr by apply Hs.
  assert (SkipFetchingPolicyAndRoleDescriptions ag
          = SkipFetchingPolicyAndRoleDescriptions a) as Hskg by apply Hsg.
  split; [eapply same_settings_trans; [exact Hs | exact Hs'] |].
  split; [congruence |].
  split.
  { exists before. rewrite Hc', Hc, <- app_assoc. f_equal. f_equal.
    apply flat_map_ext. intros pr. unfold policy_calls. now rewrite Hf. }
  split.
  { exists new. split; [congruence |].
    now rewrite (filter_ext _ (passes_both a policyTags)) in Hall by exact Hb. }
  split.
  { exists rl, pl. split; [rewrite Hwp, Hwr, Hwg, Hwu; now rewrite <- app_assoc |].
    split.
    - intros Hskip. split; [apply Hrnone | apply Hpnone]; congruence.
    - intros Hskip. split.
      + rewrite Hskg in Hrsome. specialize (Hrsome Hskip).
        now rewrite (filter_ext _ (fun rr => negb (role_skipped a rr))) in Hrsome
          by (intros rr; now rewrite Hrs).
      + rewrite Hskr in Hpsome. specialize (Hpsome Hskip).
        now rewrite (filter_ext _ (fun pr => negb (first_pass_skips a pr))) in Hpsome
          by (intros pr; now rewrite Hf). }
  eapply Forall_impl; [exact Hdef |]. intros pr Hpr Hskip. apply Hpr.
  now rewrite Hf.
Qed.

(** *** Joining the lookups *)

Lemma set_Policy_Description_built policyTags policyResp d p :
  policy_built_from policyTags policyResp p ->
  policy_built_from policyTags policyResp (set_Policy_Description d p).
Proof. exact (fun Hb => Hb). Qed.

(** A lookup writes descriptions and the error slot, nothing else. *)
Lemma run_lookup_frame a l :
  same_settings a (run_lookup a l) /\
  data (run_lookup a l) = data a /\
  classified (run_lookup a l) = classified a /\
  descriptionFetchWaitGroup (run_lookup a l) = descriptionFetchWaitGroup a /\
  descriptionFetchError (run_lookup a l) =
    match lookup_error l with Some e => Some e | None => descriptionFetchError a end /\
  (forall ptr p, policyStore a !! ptr = Some p ->
     exists p', policyStore (run_lookup a l) !! ptr = Some p' /\
                forall policyTags policyResp,
                  policy_built_from policyTags policyResp p ->
                  policy_built_from policyTags policyResp p').
Proof.
  unfold run_lookup.
  destruct l as [policyArn target | roleName target];
    [| destruct (getRole roleName) as [[d sessionDuration] e] eqn:Hrole];
    destruct (lookup_error _) as [e'|];
    (repeat (split; [reflexivity || (now repeat split) |]));
    intros ptr p Hp; simpl; try (exists p; split; [exact Hp | auto]).
  all: destruct (decide (ptr = target)) as [-> | Hne];
    [ rewrite list_lookup_alter_eq, Hp; simpl; eexists;
      split; [reflexivity | intros; now apply set_Policy_Description_built]
    | rewrite list_lookup_alter_ne by congruence; exists p; auto ].
Qed.

Lemma run_lookups_frame order a :
  let a' := foldl run_lookup a order in
  same_settings a a' /\
  data a' = data a /\
  classified a' = classified a /\
  descriptionFetchWaitGroup a' = descriptionFetchWaitGroup a /\
  descriptionFetchError a' = slot_after (descriptionFetchError a) (map lookup_error order) /\
  (forall ptr p, policyStore a !! ptr = Some p ->
     exists p', policyStore a' !! ptr = Some p' /\
                forall policyTags policyResp,
                  policy_built_from policyTags policyResp p ->
                  policy_built_from policyTags policyResp p').
Proof.
  revert a. induction order as [|l order IH]; intros a; simpl.
  - split; [apply same_settings_refl |]. repeat split; eauto.
  - destruct (run_lookup_frame a l) as (Hs & Hd & Hc & Hw & He & Hst).
    destruct (IH (run_lookup a l)) as (Hs' & Hd' & Hc' & Hw' & He' & Hst').
    split; [eapply same_settings_trans; eassumption |].
    split; [congruence |]. split; [congruence |]. split; [congruence |].
    split.
    + rewrite He'. unfold slot_after. simpl. now rewrite He.
    + intros ptr p Hp. destruct (Hst _ _ Hp) as (p1 & Hp1 & Hb1).
      destruct (Hst' _ _ Hp1) as (p2 & Hp2 & Hb2).
      exists p2. split; [exact Hp2 | auto].
Qed.

(** Once the page is handled, [populateIamData] joins the wait group and
    returns the error slot. *)
Lemma populateIamData_join resp a a1 :
  populateIamData_pages resp a = Ok (None, a1) ->
  let order := completion_order (descriptionFetchWaitGroup a1) in
  populateIamData resp a =
    Ok (slot_after (descriptionFetchError a1) (map lookup_error order),
        with_descriptionFetchWaitGroup [] (foldl run_lookup a1 order)).
Proof.
  intros Hpages order. unfold populateIamData, orReturn, bind.
  rewrite Hpages. unfold Wait, modify, get, ret. cbn beta iota. simpl.
  f_equal. f_equal.
  apply (run_lookups_frame order a1).
Qed.

End PageFacts.

(** ** Managed policies: versions and the two passes of the classifier *)

Section PolicyClaims.

Context `{Clients}.

Lemma built_from_three_versions policyTags policyResp p v1 v2 v3 :
  ManagedPolicyDetail_PolicyVersionList policyResp = [v1; v2; v3] ->
  PolicyVersion_IsDefaultVersion v1 = false ->
  PolicyVersion_IsDefaultVersion v2 = true ->
  PolicyVersion_IsDefaultVersion v3 = false ->
  (PolicyVersion_CreateDate v1 < PolicyVersion_CreateDate v2)%Z ->
  (PolicyVersion_CreateDate v1 < PolicyVersion_CreateDate v3)%Z ->
  policy_built_from policyTags policyResp p ->
  NewPolicyDocumentFromEncodedJson (PolicyVersion_Document v2) = (Policy_Policy p, None) /\
  oldestVersionId p = PolicyVersion_VersionId v1 /\
  nondefaultVersionIds p = [PolicyVersion_VersionId v1; PolicyVersion_VersionId v3] /\
  numberOfVersions p = 3.
Proof.
  intros Hl H1 H2 H3 H12 H13 (_ & (v & _ & _ & Hv & Hdoc) & (w & [Hin Hmin] & Hw) & Hnd & Hn & _).
  rewrite Hl in *. simpl in Hv. rewrite H1, H2 in Hv. injection Hv as <-.
  split; [exact Hdoc |]. split.
  - rewrite Hw. destruct Hin as [<- | [<- | [<- | []]]]; [reflexivity | |].
    + specialize (Hmin v1 (or_introl eq_refl)). lia.
    + specialize (Hmin v1 (or_introl eq_refl)). lia.
  - split; [| exact Hn]. rewrite Hnd. unfold nondefault_ids. simpl.
    now rewrite H1, H2, H3.
Qed.

(** C2.  The record kept for a managed policy has the document of the
    version flagged default as its live document, the identifier of an
    oldest version, the identifiers of the versions not flagged default
    and the number of versions; for the list [v1 (oldest); v2 (default);
    v3] these are v2's document, v1, [v1; v3] and 3.  This holds of the
    record the loop body builds and of every policy a page adds to the
    snapshot.  A policy that reaches the version search with no version
    flagged default makes the fetch panic. *)
Theorem policy_version_selection :
  (forall policyTags policyResp a a',
     first_pass_skips a policyResp = false ->
     populatePolicy policyTags policyResp a = Ok (None, a') ->
     exists p,
       policyStore a' !! length (policyStore a) = Some p /\
       policy_built_from policyTags policyResp p /\
       (second_pass_skips a policyTags policyResp = false ->
        AccountData_Policies (data a') =
          AccountData_Policies (data a) ++ [length (policyStore a)])) /\
  (forall resp a a1,
     populateIamData_pages resp a = Ok (None, a1) ->
     let policyTags :=
       fst (getMultiplePolicyTags (map ManagedPolicyDetail_Arn (Policies resp))) in
     exists r a' new,
       populateIamData resp a = Ok (r, a') /\
       AccountData_Policies (data a') = AccountData_Policies (data a) ++ new /\
       Forall2 (fun ptr policyResp =>
                  exists p, policyStore a' !! ptr = Some p /\
                            policy_built_from policyTags policyResp p)
         new (List.filter (passes_both a policyTags) (Policies resp))) /\
  (forall policyTags policyResp p v1 v2 v3,
     ManagedPolicyDetail_PolicyVersionList policyResp = [v1; v2; v3] ->
     PolicyVersion_IsDefaultVersion v1 = false ->
     PolicyVersion_IsDefaultVersion v2 = true ->
     PolicyVersion_IsDefaultVersion v3 = false ->
     (PolicyVersion_CreateDate v1 < PolicyVersion_CreateDate v2)%Z ->
     (PolicyVersion_CreateDate v1 < PolicyVersion_CreateDate v3)%Z ->
     policy_built_from policyTags policyResp p ->
     NewPolicyDocumentFromEncodedJson (PolicyVersion_Document v2)
       = (Policy_Policy p, None) /\
     oldestVersionId p = PolicyVersion_VersionId v1 /\
     nondefaultVersionIds p = [PolicyVersion_VersionId v1; PolicyVersion_VersionId v3] /\
     numberOfVersions p = 3) /\
  (forall policyTags policyResp a,
     first_pass_skips a policyResp = false ->
     has_default (ManagedPolicyDetail_PolicyVersionList policyResp) = false ->
     populatePolicy policyTags policyResp a = Panic expected_default) /\
  (forall policyTags before policyResp rest a a1,
     forEach (populatePolicy policyTags) before a = Ok (None, a1) ->
     first_pass_skips a1 policyResp = false ->
     has_default (ManagedPolicyDetail_PolicyVersionList policyResp) = false ->
     forEach (populatePolicy policyTags) (before ++ policyResp :: rest) a
       = Panic expected_default).
Proof.
  split; [| split; [| split; [| split]]].
  - intros policyTags policyResp a a' Hskip Hrun.
    pose proof (policies_loop policyTags [policyResp] a a') as Hloop.
    rewrite forEach_cons, Hrun in Hloop. specialize (Hloop eq_refl).
    destruct Hloop as (_ & _ & _ & _ & (new & Hp & Hall) & _).
    apply populatePolicy_inv in Hrun
      as [(Hs & _) | [(_ & v & doc & err & _ & _ & [=] & _) |
          (_ & v & doc & oldest & Hv & Hdoc & Hold & _ & ->)]]; [congruence |].
    assert (has_default (ManagedPolicyDetail_PolicyVersionList policyResp) = true) as Hd.
    { destruct (findDefaultPolicyVersion_cases
                  (ManagedPolicyDetail_PolicyVersionList policyResp))
        as [[Hd _] | [_ Hp']]; [exact Hd | congruence]. }
    destruct (findDefaultPolicyVersion_Ok _ Hd) as (v' & Hv' & Hin & Hdefv).
    assert (v' = v) as -> by congruence.
    destruct (findOldestPolicyVersionId_Ok _ (has_default_nonempty _ Hd))
      as (w & Hw & Hmin).
    assert (oldest = PolicyVersion_VersionId w) as -> by congruence.
    eexists. split; [simpl; apply list_lookup_middle; reflexivity |].
    split.
    + unfold policy_built_from. simpl.
      split; [reflexivity |].
      split; [exists v; auto |].
      split; [exists w; auto |].
      split; [apply findNonDefaultPolicyVersionIds_spec |].
      split; reflexivity.
    + intros Hs2. simpl. now rewrite Hs2.
  - intros resp a a1 Hpages policyTags.
    pose proof (populateIamData_join resp a a1 Hpages) as Hjoin.
    destruct (populateIamData_pages_None resp a a1 Hpages)
      as (_ & _ & _ & (new & Hp & Hall) & _).
    destruct (run_lookups_frame
                (completion_order (descriptionFetchWaitGroup a1)) a1)
      as (_ & Hd & _ & _ & _ & Hst).
    eexists _, _, new. split; [exact Hjoin |].
    simpl. rewrite Hd. split; [exact Hp |].
    eapply Forall2_impl; [exact Hall |].
    intros ptr policyResp (p & Hptr & Hb).
    destruct (Hst _ _ Hptr) as (p' & Hp' & Hb'). exists p'. auto.
  - intros. eapply built_from_three_versions; eassumption.
  - intros. now apply populatePolicy_no_default.
  - intros policyTags before policyResp rest a a1 Hbefore Hskip Hd.
    eapply forEach_Panic; [exact Hbefore |]. now apply populatePolicy_no_default.
Qed.

(** C4.  The loop body for a managed policy calls the classifier first
    with no tags, where only the path, ownership and service-role rules can
    answer.  If that call says skip, nothing else happens: no second call,
    no record, no entry in the snapshot.  Otherwise, once the record is
    built, the classifier is called a second time with the tags the page's
    one batched lookup has for the policy, and the policy enters the
    snapshot exactly when this second call does not say skip.  Over a
    whole page the calls are these, in order, and the policies added are
    those that pass both. *)
Theorem policy_two_passes :
  (forall a policyResp,
     first_pass_skips a policyResp =
       fst (match skip_path_reason (ManagedPolicyDetail_PolicyName policyResp)
                    (ManagedPolicyDetail_Path policyResp) (SkipPathPrefixes a) with
            | Some reason => (true, reason)
            | None =>
                if IsManagedResource CfnIamPolicy (ManagedPolicyDetail_PolicyName policyResp)
                then (true, "CloudFormation generated resource "
                              +:+ ManagedPolicyDetail_PolicyName policyResp)
                else if Contains (ManagedPolicyDetail_PolicyName policyResp) "AWSServiceRole"
                        || Contains (ManagedPolicyDetail_PolicyName policyResp)
                             "aws-service-role"
                then (true, "AWS Service role generated resource "
                              +:+ ManagedPolicyDetail_PolicyName policyResp)
                else (false, "")
            end)) /\
  (forall policyTags policyResp a,
     first_pass_skips a policyResp = true ->
     populatePolicy policyTags policyResp a =
       Ok (None, with_classified (classified a ++ [first_call policyResp]) a)) /\
  (forall policyTags policyResp a r a',
     first_pass_skips a policyResp = false ->
     populatePolicy policyTags policyResp a = Ok (r, a') ->
     (r <> None ->
      classified a' = classified a ++ [first_call policyResp] /\ data a' = data a) /\
     (r = None ->
      classified a' =
        classified a ++ [first_call policyResp; second_call policyTags policyResp] /\
      AccountData_Policies (data a') =
        if second_pass_skips a policyTags policyResp
        then AccountData_Policies (data a)
        else AccountData_Policies (data a) ++ [length (policyStore a)])) /\
  (forall resp a a1,
     populateIamData_pages resp a = Ok (None, a1) ->
     let policyTags :=
       fst (getMultiplePolicyTags (map ManagedPolicyDetail_Arn (Policies resp))) in
     (exists before,
        classified a1 =
          classified a ++ before ++ flat_map (policy_calls a policyTags) (Policies resp)) /\
     (exists new,
        AccountData_Policies (data a1) = AccountData_Policies (data a) ++ new /\
        Forall2 (fun ptr policyResp =>
                   exists p, policyStore a1 !! ptr = Some p /\
                             policy_built_from policyTags policyResp p)
          new (List.filter (passes_both a policyTags) (Policies resp)))).
Proof.
  split; [| split; [| split]].
  - intros a policyResp. unfold first_pass_skips.
    now rewrite isSkippableManagedResource_no_tags.
  - intros. now apply populatePolicy_skipped.
  - intros policyTags policyResp a r a' Hskip Hrun.
    apply populatePolicy_inv in Hrun
      as [(Hs & _) | [(_ & v & doc & err & _ & _ & -> & ->) |
          (_ & v & doc & oldest & _ & _ & _ & -> & ->)]]; [congruence | |].
    + split; [intros _; split; reflexivity | discriminate].
    + split; [congruence |]. intros _. split; [reflexivity |]. simpl.
      now destruct (second_pass_skips a policyTags policyResp).
  - intros resp a a1 Hpages policyTags.
    destruct (populateIamData_pages_None resp a a1 Hpages)
      as (_ & _ & Hc & Hp & _).
    split; assumption.
Qed.

(** C10.  A version list with a version flagged default is not empty, and
    on it both the search for the default and the read of the first
    element return, as does the whole loop body.  The search for the
    default comes first and panics on every list without a default, the
    empty one included, so the body never stops on the index fault. *)
Theorem version_metadata_total :
  (forall versions,
     has_default versions = true ->
     versions <> [] /\
     returns (findDefaultPolicyVersion versions) /\
     returns (findOldestPolicyVersionId versions)) /\
  findDefaultPolicyVersion [] = Panic expected_default /\
  (forall versions,
     has_default versions = false ->
     findDefaultPolicyVersion versions = Panic expected_default) /\
  (forall policyTags policyResp a,
     has_default (ManagedPolicyDetail_PolicyVersionList policyResp) = true ->
     returns (populatePolicy policyTags policyResp a)) /\
  (forall policyTags policyResp a msg,
     populatePolicy policyTags policyResp a = Panic msg ->
     msg = expected_default /\ msg <> index_out_of_range /\
     has_default (ManagedPolicyDetail_PolicyVersionList policyResp) = false).
Proof.
  split; [| split; [| split; [| split]]].
  - intros versions Hd. split; [now apply has_default_nonempty |]. split.
    + destruct (findDefaultPolicyVersion_Ok _ Hd) as (v & Hv & _). now exists v.
    + destruct (findOldestPolicyVersionId_Ok _ (has_default_nonempty _ Hd))
        as (w & Hw & _). eexists; exact Hw.
  - reflexivity.
  - apply findDefaultPolicyVersion_Panic.
  - intros. now apply populatePolicy_returns.
  - intros policyTags policyResp a msg Hp.
    apply populatePolicy_Panic_inv in Hp as (-> & _ & Hd).
    split; [reflexivity |]. split; [discriminate | exact Hd].
Qed.

End PolicyClaims.

(** ** Joining the lookups and the two tasks *)

Section JoinClaims.

Context `{Clients}.

Lemma slot_after_app slot errs errs' :
  slot_after slot (errs ++ errs') = slot_after (slot_after slot errs) errs'.
Proof. unfold slot_after. apply foldl_app. Qed.

Lemma slot_after_no_error slot errs :
  (forall err, In err errs -> err = None) -> slot_after slot errs = slot.
Proof.
  revert slot. induction errs as [|err errs IH]; intros slot Hnone; [reflexivity |].
  unfold slot_after in *. simpl.
  rewrite (Hnone err (or_introl eq_refl)). apply IH.
  intros e He. apply Hnone. now right.
Qed.

(** The slot holds the error of the lookup that failed last. *)
Lemma slot_after_last slot done e later :
  (forall err, In err later -> err = None) ->
  slot_after slot (done ++ Some e :: later) = Some e.
Proof.
  intros Hnone. rewrite slot_after_app.
  change (slot_after (slot_after slot done) (Some e :: later))
    with (slot_after (Some e) later).
  now apply slot_after_no_error.
Qed.

(** C9, as the code has it.  With descriptions fetched, a page that is
    handled without an early return has dispatched one lookup for each role
    the classifier accepted and one for each managed policy the first pass
    did not skip.  [populateIamData] then returns only after every pending
    lookup has run to its end, in the order the scheduler chose and
    whatever the others returned, and the wait group is empty.  What it
    returns is the error slot: as it found it if no lookup failed, so nil
    when the slot was nil at the start, and otherwise the error of the
    failing lookup that finished last. *)
Theorem lookups_joined_last_error resp a a1 :
  (forall ls, Permutation (completion_order ls) ls) ->
  SkipFetchingPolicyAndRoleDescriptions a = false ->
  populateIamData_pages resp a = Ok (None, a1) ->
  let order := completion_order (descriptionFetchWaitGroup a1) in
  let r := slot_after (descriptionFetchError a) (map lookup_error order) in
  let a' := with_descriptionFetchWaitGroup [] (foldl run_lookup a1 order) in
  (exists rl pl,
     descriptionFetchWaitGroup a1 = descriptionFetchWaitGroup a ++ rl ++ pl /\
     Forall2 lookup_of_role rl
       (List.filter (fun roleResp => negb (role_skipped a roleResp))
          (RoleDetailList resp)) /\
     Forall2 lookup_of_policy pl
       (List.filter (fun policyResp => negb (first_pass_skips a policyResp))
          (Policies resp))) /\
  Permutation order (descriptionFetchWaitGroup a1) /\
  populateIamData resp a = Ok (r, a') /\
  descriptionFetchWaitGroup a' = [] /\
  ((forall l, In l order -> lookup_error l = None) -> r = descriptionFetchError a) /\
  (forall done l later e,
     order = done ++ l :: later ->
     lookup_error l = Some e ->
     (forall l', In l' later -> lookup_error l' = None) ->
     r = Some e) /\
  (descriptionFetchError a = None ->
   (forall l, In l order -> lookup_error l = None) -> r = None).
Proof.
  intros Hperm Hskip Hpages order r a'.
  destruct (populateIamData_pages_None resp a a1 Hpages)
    as (_ & He & _ & _ & (rl & pl & Hw & _ & Hsome) & _).
  destruct (Hsome Hskip) as [Hrl Hpl].
  pose proof (populateIamData_join resp a a1 Hpages) as Hjoin. cbv zeta in Hjoin.
  rewrite He in Hjoin.
  split; [exists rl, pl; auto |].
  split; [apply Hperm |].
  assert ((forall l, In l order -> lookup_error l = None) -> r = descriptionFetchError a)
    as Hkept.
  { intros Hnone. apply slot_after_no_error.
    intros err Herr. apply in_map_iff in Herr as (l & <- & Hl). now apply Hnone. }
  split; [exact Hjoin |]. split; [reflexivity |]. split; [exact Hkept |]. split.
  - intros done l later e Horder Hl Hlater. subst r. rewrite Horder.
    rewrite map_app. simpl. rewrite Hl. apply slot_after_last.
    intros err Herr. apply in_map_iff in Herr as (l' & <- & Hl'). now apply Hlater.
  - intros Hslot Hnone. rewrite <- Hslot. now apply Hkept.
Qed.

(** C1.  When both tasks are done, an error of the IAM task is returned
    wrapped as the IAM phase's, whatever the S3 task returned; an error of
    the S3 task alone is returned wrapped as the S3 phase's; [Fetch]
    returns what the join gives; and whenever [Fetch] returns an error it
    returns no snapshot. *)
Theorem fetch_join_errors :
  (forall a iamErr s3Err,
     join a (Some iamErr) s3Err =
       (None, Some (errors_Wrap iamErr "Error fetching IAM data"))) /\
  (forall a s3Err,
     join a None (Some s3Err) =
       (None, Some (errors_Wrap s3Err "Error fetching S3 data"))) /\
  (forall a a0 a1 a2 iamErr s3Err,
     init a = Ok (None, a0) ->
     (if negb (HeuristicCfnMatching a0) then PopulateMangedResourceData else None) = None ->
     fetchIamData a0 = Ok (iamErr, a1) ->
     fetchS3Data a1 = Ok (s3Err, a2) ->
     Fetch a = Ok (join a2 iamErr s3Err, a2)) /\
  (forall a snapshot err a',
     Fetch a = Ok ((snapshot, Some err), a') -> snapshot = None).
Proof.
  split; [| split; [| split]].
  - reflexivity.
  - reflexivity.
  - intros a a0 a1 a2 iamErr s3Err Hinit Hcfn Hiam Hs3.
    unfold Fetch, bind, get, ret. rewrite Hinit. cbn beta iota.
    rewrite Hcfn, Hiam. cbn beta iota. now rewrite Hs3.
  - intros a snapshot err a'. unfold Fetch, bind, get, ret.
    destruct (init a) as [[[e|] a0]|msg]; cbn beta iota; [congruence | | discriminate].
    destruct (if negb (HeuristicCfnMatching a0) then PopulateMangedResourceData else None);
      [congruence |].
    destruct (fetchIamData a0) as [[iamErr a1]|msg]; cbn beta iota; [| discriminate].
    destruct (fetchS3Data a1) as [[s3Err a2]|msg]; cbn beta iota; [| discriminate].
    unfold join. destruct iamErr, s3Err; congruence.
Qed.

End JoinClaims.

(** ** The properties at work on the example account *)

Lemma force_include_never_skipped_witness :
  @isSkippableManagedResource readonly_clients tagged_fetcher KindIamRole
    "stack-AWSServiceRoleForECS"
    {[ "iamy:include" := "yes"; "aws:cloudformation:stack-name" := "ecs" ]}
    "/service-role/ecs/"
  = (false, "").
Proof.
  apply (@force_include_never_skipped readonly_clients) with (tag := "iamy:include").
  - simpl. left. reflexivity.
  - vm_compute. eexists. reflexivity.
Defined.

Lemma skip_prefix_skips_untagged_witness :
  exists path,
    In path ["/service-role/"] /\
    HasPrefix "/service-role/ecs/" path = true /\
    @isSkippableManagedResource readonly_clients tagged_fetcher KindIamRole
      "ecs-tasks" ∅ "/service-role/ecs/"
    = (true, "Skipping resource ecs-tasks with path /service-role/ecs/ matches " +:+ path).
Proof.
  apply (@skip_prefix_skips_untagged readonly_clients tagged_fetcher KindIamRole
           "ecs-tasks" "/service-role/ecs/").
  exists "/service-role/". split; [simpl; left; reflexivity | reflexivity].
Defined.

Lemma policy_version_selection_witness :
  (exists r a' new,
     @populateIamData readonly_clients readonly_page readonly_fetcher = Ok (r, a') /\
     AccountData_Policies (data a') = new /\
     Forall2 (fun ptr policyResp =>
                exists p, policyStore a' !! ptr = Some p /\
                          @policy_built_from readonly_clients ∅ policyResp p)
       new [example_policy "ReadOnly" example_versions]) /\
  @populatePolicy readonly_clients ∅ no_default_policy readonly_fetcher
    = Panic expected_default.
Proof.
  destruct (@policy_version_selection readonly_clients) as (_ & Hpage & _ & Hpanic & _).
  split.
  - apply (Hpage readonly_page readonly_fetcher
             (state_of (populateIamData_pages readonly_page readonly_fetcher)
                readonly_fetcher)).
    vm_compute. reflexivity.
  - apply Hpanic; vm_compute; reflexivity.
Defined.

Lemma policy_two_passes_witness :
  @second_pass_skips stack_clients stack_fetcher
    (fst (@getMultiplePolicyTags stack_clients [ManagedPolicyDetail_Arn stack_policy])) stack_policy = false /\
  @populatePolicy stack_clients
    (fst (@getMultiplePolicyTags stack_clients [ManagedPolicyDetail_Arn stack_policy]))
    stack_policy stack_fetcher
  = Ok (None, with_classified [@first_call stack_clients stack_policy] stack_fetcher).
Proof.
  destruct (@policy_two_passes stack_clients) as (_ & Hskip & _).
  split; [vm_compute; reflexivity |].
  apply (Hskip _ stack_policy stack_fetcher). vm_compute. reflexivity.
Defined.

Lemma version_metadata_total_witness :
  example_versions <> [] /\
  returns (findDefaultPolicyVersion example_versions) /\
  returns (findOldestPolicyVersionId example_versions).
Proof.
  destruct (@version_metadata_total readonly_clients) as (Htotal & _).
  apply Htotal. reflexivity.
Defined.

Lemma lookups_joined_last_error_witness :
  exists a',
    @populateIamData two_broken_clients two_broken_page two_broken_fetcher
      = Ok (Some (errors_New "denied"), a') /\
    descriptionFetchWaitGroup a' = [].
Proof.
  pose proof (@lookups_joined_last_error two_broken_clients two_broken_page
                two_broken_fetcher
                (state_of (populateIamData_pages two_broken_page two_broken_fetcher)
                   two_broken_fetcher)) as Hjoin.
  destruct Hjoin as (_ & _ & Hrun & Hwg & _).
  - intros ls. reflexivity.
  - reflexivity.
  - vm_compute. reflexivity.
  - eexists. split; [exact Hrun | exact Hwg].
Defined.

(** Two ways in which the join is not what it is said to be.  A role whose
    trust policy does not parse makes [populateIamData] return after the
    lookup of the role is dispatched and before the wait group is joined.
    And of two failing lookups the second overwrites the error of the
    first, so the error returned is not the first one. *)
Lemma join_surfaces_first_error_counterexample :
  ~ join_waits_for_all /\ ~ join_surfaces_first_error.
Proof.
  split.
  - intros Hclaim.
    assert (descriptionFetchWaitGroup
              (state_of (@populateIamData readonly_clients bad_trust_page readonly_fetcher)
                 readonly_fetcher) = []) as Hwg.
    { apply (Hclaim readonly_clients bad_trust_page readonly_fetcher _
               (Some (errors_New "unexpected end of JSON input"))).
      - intros ls. reflexivity.
      - reflexivity.
      - reflexivity.
      - vm_compute. reflexivity. }
    vm_compute in Hwg. discriminate Hwg.
  - intros Hclaim.
    destruct (Hclaim two_broken_clients two_broken_page two_broken_fetcher
                (state_of (populateIamData_pages two_broken_page two_broken_fetcher)
                   two_broken_fetcher))
      as [a' Hrun].
    + intros ls. reflexivity.
    + reflexivity.
    + reflexivity.
    + reflexivity.
    + vm_compute. reflexivity.
    + vm_compute in Hrun. discriminate Hrun.
Qed.

Lemma fetch_join_errors_witness :
  exists a',
    @Fetch s3_denied_clients s3_denied_fetcher =
      Ok ((None,
           Some (errors_Wrap (errors_Wrap (errors_New "AccessDenied") "Error listing buckets")
                   "Error fetching S3 data")),
          a').
Proof.
  destruct (@fetch_join_errors s3_denied_clients) as (_ & Hs3 & Hfetch & _).
  eexists.
  rewrite (Hfetch s3_denied_fetcher
             (state_of (init s3_denied_fetcher) s3_denied_fetcher)
             (state_of (fetchIamData (state_of (init s3_denied_fetcher) s3_denied_fetcher))
                s3_denied_fetcher)
             (state_of
                (fetchS3Data
                   (state_of (fetchIamData (state_of (init s3_denied_fetcher)
                                              s3_denied_fetcher))
                      s3_denied_fetcher))
                s3_denied_fetcher)
             None
             (Some (errors_Wrap (errors_New "AccessDenied") "Error listing buckets"))).
  - rewrite Hs3. reflexivity.
  - vm_compute. reflexivity.
  - vm_compute. reflexivity.
  - vm_compute. reflexivity.
  - vm_compute. reflexivity.
Defined.

(** * Further properties *)

(** ** Accounts and identifiers *)

Section AccountExtras.

Context `{Clients}.

(** X1.  Rendering a well-formed account and parsing the result gives the
    account back, and [NewAccountData] on the rendered string is the empty
    snapshot of that account. *)
Theorem account_render_parse_roundtrip (a : Account) :
  well_formed_account a ->
  NewAccountFromString (Account_String a) = Ok a /\
  NewAccountData (Account_String a) = Ok (emptyAccountData a).
Proof.
  intros (Hne & Hid & Halias).
  assert (NewAccountFromString (Account_String a) = Ok a) as Hparse.
  { destruct a as [id alias]. simpl in *. unfold Account_String. simpl.
    destruct (String.eqb alias "") eqn:Hempty; simpl.
    - apply String.eqb_eq in Hempty as ->.
      apply NewAccountFromString_bare. now split.
    - apply String.eqb_neq in Hempty.
      apply NewAccountFromString_alias. unfold alias_form. auto. }
  split; [exact Hparse |]. unfold NewAccountData. now rewrite Hparse.
Qed.

End AccountExtras.

Lemma account_render_parse_roundtrip_witness :
  NewAccountFromString (Account_String {| Id := "42"; Alias := "dev_1-eu" |})
    = Ok {| Id := "42"; Alias := "dev_1-eu" |} /\
  @NewAccountData readonly_clients (Account_String {| Id := "42"; Alias := "dev_1-eu" |})
    = Ok (emptyAccountData {| Id := "42"; Alias := "dev_1-eu" |}).
Proof.
  apply (@account_render_parse_roundtrip readonly_clients).
  unfold well_formed_account. simpl. repeat split; (reflexivity || discriminate).
Defined.

Lemma policy_prefix_append (a : Account) (name : string) :
  "arn:aws:iam::" +:+ Id a +:+ ":policy/" +:+ name = policy_prefix a +:+ name.
Proof.
  unfold policy_prefix.
  now rewrite <- (append_assoc (Id a)), <- (append_assoc "arn:aws:iam::").
Qed.

(** X2.  An identifier that does not start with the account's own policy
    prefix is left as it is by [normalisePolicyArn].  For an identifier
    that starts with ["arn:"], expanding the normalised form gives the
    identifier back, unless what follows the account's prefix itself starts
    with ["arn:"]. *)
Theorem policy_arn_normalise_expand (a : Account) (arn : string) :
  (HasPrefix arn (policy_prefix a) = false -> normalisePolicyArn a arn = arn) /\
  (HasPrefix arn "arn:" = true ->
   (forall name, arn = policy_prefix a +:+ name -> HasPrefix name "arn:" = false) ->
   policyArnFromString a (normalisePolicyArn a arn) = arn).
Proof.
  unfold normalisePolicyArn. fold (policy_prefix a). split.
  - intros Hforeign. unfold TrimPrefix. now rewrite Hforeign.
  - intros Harn Hname.
    destruct (HasPrefix arn (policy_prefix a)) eqn:Hown.
    + apply prefix_split in Hown as [name ->].
      rewrite TrimPrefix_append. unfold policyArnFromString.
      rewrite (Hname name eq_refl). apply policy_prefix_append.
    + unfold TrimPrefix. rewrite Hown. unfold policyArnFromString. now rewrite Harn.
Qed.

Lemma policy_arn_normalise_expand_witness :
  normalisePolicyArn example_account "arn:aws:iam::aws:policy/ReadOnlyAccess"
    = "arn:aws:iam::aws:policy/ReadOnlyAccess" /\
  policyArnFromString example_account
    (normalisePolicyArn example_account "arn:aws:iam::123456789012:policy/team/Deploy")
    = "arn:aws:iam::123456789012:policy/team/Deploy".
Proof.
  split.
  - destruct (policy_arn_normalise_expand example_account
                "arn:aws:iam::aws:policy/ReadOnlyAccess") as [Hforeign _].
    apply Hforeign. reflexivity.
  - destruct (policy_arn_normalise_expand example_account
                "arn:aws:iam::123456789012:policy/team/Deploy") as [_ Hown].
    apply Hown.
    + reflexivity.
    + intros name Hname.
      change "arn:aws:iam::123456789012:policy/team/Deploy"
        with (policy_prefix example_account +:+ "team/Deploy") in Hname.
      apply String.app_inj in Hname. subst name. reflexivity.
Defined.

(** ** Resource identifiers *)

Lemma path_like_tail (c : ascii) (p : string) : path_like (String c p) -> path_like p.
Proof.
  intros [Hnil | [q Hq]]; [discriminate |].
  destruct q as [|c' q]; simpl in Hq.
  - injection Hq as _ ->. now left.
  - injection Hq as _ ->. right. now exists q.
Qed.

Lemma path_then_name_has_slash (p n : string) :
  path_like p -> p <> "" -> no_slash (p +:+ n) = false.
Proof.
  intros [-> | [q ->]] Hne; [now destruct Hne |].
  unfold no_slash. rewrite append_assoc, all_chars_append. simpl.
  apply andb_false_r.
Qed.

(** A path and a name are determined by their concatenation. *)
Lemma path_name_split (p1 n1 p2 n2 : string) :
  path_like p1 -> path_like p2 -> no_slash n1 = true -> no_slash n2 = true ->
  p1 +:+ n1 = p2 +:+ n2 -> p1 = p2 /\ n1 = n2.
Proof.
  revert p2. induction p1 as [|c p1 IH]; intros [|c' p2] Hp1 Hp2 Hn1 Hn2 Heq.
  - now split.
  - simpl in Heq. subst n1.
    change (String c' (p2 +:+ n2)) with (String c' p2 +:+ n2) in Hn1.
    rewrite path_then_name_has_slash in Hn1 by (assumption || discriminate).
    discriminate.
  - simpl in Heq. subst n2.
    change (String c (p1 +:+ n1)) with (String c p1 +:+ n1) in Hn2.
    rewrite path_then_name_has_slash in Hn2 by (assumption || discriminate).
    discriminate.
  - simpl in Heq. injection Heq as -> Heq.
    destruct (IH p2 (path_like_tail _ _ Hp1) (path_like_tail _ _ Hp2) Hn1 Hn2 Heq)
      as [-> ->].
    now split.
Qed.

Section SnapshotExtras.

Context `{Clients}.

(** X3.  Within one account, two resources of one kind whose paths are
    paths (empty or ending in a slash) and whose names hold no slash have
    the same identifier only if they have the same path and the same
    name. *)
Theorem Arn_injective {R} `{AwsResource R} (r1 r2 : R) (a : Account) :
  ResourceType r1 = ResourceType r2 ->
  path_like (ResourcePath r1) -> path_like (ResourcePath r2) ->
  no_slash (ResourceName r1) = true -> no_slash (ResourceName r2) = true ->
  Arn r1 a = Arn r2 a ->
  ResourcePath r1 = ResourcePath r2 /\ ResourceName r1 = ResourceName r2.
Proof.
  intros Hkind Hp1 Hp2 Hn1 Hn2. unfold Arn, arnFor. rewrite Hkind. intros Heq.
  repeat apply String.app_inj in Heq.
  now apply path_name_split.
Qed.

(** X4.  The identifier of a managed policy of the account under the path
    ["/" +:+ rest] normalises to [rest] followed by the name; for a policy
    at the root, whose name does not start with ["arn:"], it is what
    [policyArnFromString] makes of the name. *)
Theorem policy_Arn_normalises (p : Policy) (a : Account) (rest : string) :
  Path (Policy_iamService p) = "/" +:+ rest ->
  normalisePolicyArn a (Arn p a) = rest +:+ Name (Policy_iamService p) /\
  (rest = "" -> HasPrefix (Name (Policy_iamService p)) "arn:" = false ->
   policyArnFromString a (Name (Policy_iamService p)) = Arn p a).
Proof.
  intros Hpath.
  assert (Arn p a = policy_prefix a +:+ rest +:+ Name (Policy_iamService p)) as Harn.
  { unfold Arn, arnFor, policy_prefix.
    cbn [ResourceType ResourcePath ResourceName Policy_AwsResource].
    rewrite Hpath, !append_assoc. reflexivity. }
  split.
  - rewrite Harn. unfold normalisePolicyArn. fold (policy_prefix a).
    apply TrimPrefix_append.
  - intros -> Hname. rewrite Harn. unfold policyArnFromString. rewrite Hname.
    apply policy_prefix_append.
Qed.

Lemma find_first_is_first {A} (test : A -> bool) (l : list A) (x : A) :
  find_first test l = (true, Some x) <-> is_first test x l.
Proof.
  unfold find_first, is_first. induction l as [|y l IH]; simpl.
  - split; [discriminate |]. intros (before & after & Hl & _).
    now destruct before.
  - destruct (test y) eqn:Hy.
    + split.
      * intros [= ->]. exists [], l. repeat split; auto.
      * intros ([|z before] & after & Hl & Hx & Hbefore).
        -- now injection Hl as -> _.
        -- injection Hl as -> _. inversion Hbefore; congruence.
    + rewrite IH. split.
      * intros (before & after & -> & Hx & Hbefore).
        exists (y :: before), after. repeat split; auto.
      * intros ([|z before] & after & Hl & Hx & Hbefore).
        -- injection Hl as -> _. congruence.
        -- injection Hl as _ ->. inversion Hbefore; subst.
           exists before, after. auto.
Qed.

Lemma find_first_none {A} (test : A -> bool) (l : list A) :
  find_first test l = (false, None) <-> Forall (fun y => test y = false) l.
Proof.
  unfold find_first. induction l as [|y l IH]; simpl.
  - split; [constructor | reflexivity].
  - destruct (test y) eqn:Hy.
    + split; [discriminate |]. intros Hall. inversion Hall; congruence.
    + rewrite IH. split; [now constructor | now inversion 1].
Qed.

Lemma find_first_shape {A} (test : A -> bool) (l : list A) :
  find_first test l = (false, None) \/
  exists x, find_first test l = (true, Some x).
Proof. unfold find_first. destruct (List.find test l); eauto. Qed.

Lemma find_first_snoc {A} (test : A -> bool) (l : list A) (x : A) :
  find_first test (l ++ [x]) =
    match find_first test l with
    | (true, found) => (true, found)
    | (false, _) => if test x then (true, Some x) else (false, None)
    end.
Proof.
  unfold find_first. induction l as [|y l IH]; simpl.
  - now destruct (test x).
  - destruct (test y); [reflexivity | exact IH].
Qed.

Lemma FindUserByName_in_find users name path :
  FindUserByName_in users name path
  = find_first (fun u => named (User_iamService u) name path) users.
Proof.
  unfold find_first. induction users as [|u users IH]; simpl; [reflexivity |].
  destruct (named _ name path); [reflexivity | exact IH].
Qed.

Lemma FindGroupByName_in_find groups name path :
  FindGroupByName_in groups name path
  = find_first (fun g => named (Group_iamService g) name path) groups.
Proof.
  unfold find_first. induction groups as [|g groups IH]; simpl; [reflexivity |].
  destruct (named _ name path); [reflexivity | exact IH].
Qed.

Lemma FindInstanceProfileByName_in_find profiles name path :
  FindInstanceProfileByName_in profiles name path
  = find_first (fun p => named (InstanceProfile_iamService p) name path) profiles.
Proof.
  unfold find_first. induction profiles as [|p profiles IH]; simpl; [reflexivity |].
  destruct (named _ name path); [reflexivity | exact IH].
Qed.

Lemma FindBucketPolicyByBucketName_in_find policies name :
  FindBucketPolicyByBucketName_in policies name
  = find_first (fun p => String.eqb (BucketName p) name) policies.
Proof.
  unfold find_first. induction policies as [|p policies IH]; simpl; [reflexivity |].
  destruct (String.eqb _ name); [reflexivity | exact IH].
Qed.

(** X5.  [FindUserByName] answers [(true, u)] exactly when [u] is the
    first user, in the order of insertion, with that name and path, and
    [(false, nil)] exactly when no user has them; it gives no other
    answer.  So a user added under a name and path already present is
    never the one found, and adding a user changes no lookup that
    succeeded before. *)
Theorem FindUserByName_first (d : AccountData) (name path : string) :
  (forall u, FindUserByName d name path = (true, Some u) <->
             is_first (fun v => named (User_iamService v) name path) u
               (AccountData_Users d)) /\
  (FindUserByName d name path = (false, None) <->
   Forall (fun v => named (User_iamService v) name path = false) (AccountData_Users d)) /\
  (FindUserByName d name path = (false, None) \/
   exists u, FindUserByName d name path = (true, Some u)) /\
  (forall u,
     FindUserByName (addUser u d) name path =
       match FindUserByName d name path with
       | (true, found) => (true, found)
       | (false, _) =>
           if named (User_iamService u) name path then (true, Some u) else (false, None)
       end).
Proof.
  unfold FindUserByName. rewrite FindUserByName_in_find.
  split; [| split; [| split]].
  - intros u. apply find_first_is_first.
  - apply find_first_none.
  - apply find_first_shape.
  - intros u. simpl. rewrite FindUserByName_in_find.
    exact (find_first_snoc (fun v => named (User_iamService v) name path) _ u).
Qed.

(** X6.  The lookups of groups, instance profiles and bucket policies
    follow the same rule: the first element with the key in the order of
    insertion, or [(false, nil)], and an element appended is found only
    if no earlier one has its key. *)
Theorem Find_by_value_first (d : AccountData) (name path : string) :
  (FindGroupByName d name path
   = find_first (fun g => named (Group_iamService g) name path) (AccountData_Groups d) /\
   forall g,
     FindGroupByName (addGroup g d) name path =
       match FindGroupByName d name path with
       | (true, found) => (true, found)
       | (false, _) =>
           if named (Group_iamService g) name path then (true, Some g) else (false, None)
       end) /\
  (FindInstanceProfileByName d name path
   = find_first (fun p => named (InstanceProfile_iamService p) name path)
       (AccountData_InstanceProfiles d) /\
   forall p,
     FindInstanceProfileByName (addInstanceProfile p d) name path =
       match FindInstanceProfileByName d name path with
       | (true, found) => (true, found)
       | (false, _) =>
           if named (InstanceProfile_iamService p) name path then (true, Some p)
           else (false, None)
       end) /\
  (FindBucketPolicyByBucketName d name
   = find_first (fun p => String.eqb (BucketName p) name) (AccountData_BucketPolicies d) /\
   forall bp,
     FindBucketPolicyByBucketName (addBucketPolicy bp d) name =
       match FindBucketPolicyByBucketName d name with
       | (true, found) => (true, found)
       | (false, _) =>
           if String.eqb (BucketName bp) name then (true, Some bp) else (false, None)
       end).
Proof.
  unfold FindGroupByName, FindInstanceProfileByName, FindBucketPolicyByBucketName.
  repeat split.
  - apply FindGroupByName_in_find.
  - intros g. simpl. rewrite !FindGroupByName_in_find.
    exact (find_first_snoc (fun v => named (Group_iamService v) name path) _ g).
  - apply FindInstanceProfileByName_in_find.
  - intros p. simpl. rewrite !FindInstanceProfileByName_in_find.
    exact (find_first_snoc (fun v => named (InstanceProfile_iamService v) name path) _ p).
  - apply FindBucketPolicyByBucketName_in_find.
  - intros bp. simpl. rewrite !FindBucketPolicyByBucketName_in_find.
    exact (find_first_snoc (fun v => String.eqb (BucketName v) name) _ bp).
Qed.

End SnapshotExtras.

(** ** More on the classifier *)

Lemma Contains_prefix (s sub : string) :
  String.prefix sub s = true -> Contains s sub = true.
Proof. intros Hp. destruct s; cbn [Contains]; now rewrite Hp. Qed.

Lemma Contains_intro (pre sub post : string) :
  Contains (pre +:+ sub +:+ post) sub = true.
Proof.
  induction pre as [|c pre IH].
  - apply Contains_prefix. exact (prefix_append sub post).
  - change (String c pre +:+ sub +:+ post) with (String c (pre +:+ sub +:+ post)).
    simpl. rewrite IH. apply orb_true_r.
Qed.

Lemma Contains_elim (s sub : string) :
  Contains s sub = true -> exists pre post, s = pre +:+ sub +:+ post.
Proof.
  induction s as [|c s IH]; cbn [Contains].
  - rewrite orb_false_r. intros Hp. apply prefix_split in Hp as [post ->].
    now exists "", post.
  - intros Hc. apply orb_prop in Hc as [Hp | Hc].
    + apply prefix_split in Hp as [post ->]. now exists "", post.
    + destruct (IH Hc) as (pre & post & ->). now exists (String c pre), post.
Qed.

Section ClassifierExtras.

Context `{Clients}.

Lemma include_tag_present_some_key (tags : gmap string string) (keys : list string) :
  include_tag_present tags keys = some_key_present tags keys.
Proof.
  induction keys as [|k keys IH]; [reflexivity |].
  cbn [include_tag_present some_key_present existsb].
  destruct (tags !! k) eqn:Hk.
  - rewrite bool_decide_eq_true_2 by eauto. reflexivity.
  - rewrite bool_decide_eq_false_2 by (intros [v Hv]; discriminate). exact IH.
Qed.

Lemma skip_tag_reason_some_key resourceIdentifier (tags : gmap string string)
    (keys : list string) :
  match skip_tag_reason resourceIdentifier tags keys with
  | Some reason => some_key_present tags keys = true /\ reason <> ""
  | None => some_key_present tags keys = false
  end.
Proof.
  induction keys as [|k keys IH]; [reflexivity |].
  cbn [skip_tag_reason some_key_present existsb].
  destruct (tags !! k) eqn:Hk.
  - rewrite bool_decide_eq_true_2 by eauto. split; [reflexivity | discriminate].
  - rewrite bool_decide_eq_false_2 by (intros [v Hv]; discriminate). exact IH.
Qed.

Lemma skip_path_reason_existsb resourceIdentifier resourcePath (prefixes : list string) :
  match skip_path_reason resourceIdentifier resourcePath prefixes with
  | Some reason => existsb (HasPrefix resourcePath) prefixes = true /\ reason <> ""
  | None => existsb (HasPrefix resourcePath) prefixes = false
  end.
Proof.
  induction prefixes as [|p prefixes IH]; [reflexivity |].
  simpl. destruct (HasPrefix resourcePath p); simpl; [| exact IH].
  split; [reflexivity | discriminate].
Qed.

(** X7.  The decision of the classifier: a resource is skipped exactly
    when none of the force-include keys is among its tags and one of the
    four rules applies: a skip key among its tags, a skip prefix at the
    start of its path, an entry in the ownership index, a service-linked
    role marker in its identifier. *)
Theorem isSkippableManagedResource_decision (a : AwsFetcher) (cfnType : CfnResourceType)
    (resourceIdentifier : string) (tags : gmap string string) (resourcePath : string) :
  fst (isSkippableManagedResource a cfnType resourceIdentifier tags resourcePath) =
    negb (some_key_present tags (IncludeTagged a)) &&
    (some_key_present tags (SkipTagged a)
     || existsb (HasPrefix resourcePath) (SkipPathPrefixes a)
     || IsManagedResource cfnType resourceIdentifier
     || has_service_role_marker resourceIdentifier).
Proof.
  unfold isSkippableManagedResource, has_service_role_marker.
  rewrite include_tag_present_some_key.
  assert ((0 <? length (IncludeTagged a))%nat && some_key_present tags (IncludeTagged a)
          = some_key_present tags (IncludeTagged a)) as ->.
  { destruct (IncludeTagged a); reflexivity. }
  destruct (some_key_present tags (IncludeTagged a)); [reflexivity |]. simpl.
  pose proof (skip_tag_reason_some_key resourceIdentifier tags (SkipTagged a)) as Htag.
  destruct (skip_tag_reason _ _ _); [destruct Htag as [-> _]; reflexivity |].
  rewrite Htag. simpl.
  pose proof (skip_path_reason_existsb resourceIdentifier resourcePath
                (SkipPathPrefixes a)) as Hpath.
  destruct (skip_path_reason _ _ _); [destruct Hpath as [-> _]; reflexivity |].
  rewrite Hpath. simpl.
  destruct (IsManagedResource _ _); [reflexivity |]. simpl.
  now destruct (_ || _).
Qed.

(** X8.  The reason is empty exactly when the resource is not skipped, so
    what a caller logs on a skip is never the empty string. *)
Theorem isSkippableManagedResource_reason (a : AwsFetcher) (cfnType : CfnResourceType)
    (resourceIdentifier : string) (tags : gmap string string) (resourcePath : string) :
  fst (isSkippableManagedResource a cfnType resourceIdentifier tags resourcePath) = false
  <-> snd (isSkippableManagedResource a cfnType resourceIdentifier tags resourcePath) = "".
Proof.
  unfold isSkippableManagedResource.
  destruct (_ && _); [simpl; tauto |].
  pose proof (skip_tag_reason_some_key resourceIdentifier tags (SkipTagged a)) as Htag.
  destruct (skip_tag_reason _ _ _) as [reason|];
    [destruct Htag as [_ Hne]; simpl; split; [discriminate | intros ->; now destruct Hne] |].
  pose proof (skip_path_reason_existsb resourceIdentifier resourcePath
                (SkipPathPrefixes a)) as Hpath.
  destruct (skip_path_reason _ _ _) as [reason|];
    [destruct Hpath as [_ Hne]; simpl; split; [discriminate | intros ->; now destruct Hne] |].
  destruct (IsManagedResource _ _); [simpl; split; discriminate |].
  destruct (_ || _); simpl; [split; discriminate | tauto].
Qed.

Lemma skip_tag_reason_first resourceIdentifier (tags : gmap string string)
    (keys : list string) tag stackName :
  is_first (fun key => bool_decide (is_Some (tags !! key))) tag keys ->
  tags !! tag = Some stackName ->
  skip_tag_reason resourceIdentifier tags keys =
    Some ("Skipping resource " +:+ resourceIdentifier +:+ " tagged with "
          +:+ tag +:+ " in stack " +:+ stackName).
Proof.
  intros (before & after & -> & _ & Hbefore) Htag.
  induction before as [|k before IH]; simpl.
  - now rewrite Htag.
  - inversion Hbefore as [|? ? Hk Hrest]; subst.
    apply bool_decide_eq_false_1 in Hk.
    destruct (tags !! k) eqn:Hlk; [destruct Hk; eauto | now apply IH].
Qed.

(** X9.  With no force-include key among the tags, a resource carrying a
    skip key is skipped whatever its path and the ownership index are, and
    the reason names the resource, the first configured skip key it
    carries and the value of that tag. *)
Theorem skip_tag_skips (a : AwsFetcher) (cfnType : CfnResourceType)
    (resourceIdentifier : string) (tags : gmap string string)
    (resourcePath tag stackName : string) :
  some_key_present tags (IncludeTagged a) = false ->
  is_first (fun key => bool_decide (is_Some (tags !! key))) tag (SkipTagged a) ->
  tags !! tag = Some stackName ->
  isSkippableManagedResource a cfnType resourceIdentifier tags resourcePath =
    (true, "Skipping resource " +:+ resourceIdentifier +:+ " tagged with "
           +:+ tag +:+ " in stack " +:+ stackName).
Proof.
  intros Hinclude Hfirst Htag. unfold isSkippableManagedResource.
  rewrite include_tag_present_some_key, Hinclude, andb_false_r.
  now rewrite (skip_tag_reason_first _ _ _ _ _ Hfirst Htag).
Qed.

(** X10.  A resource with no tags, no skip prefix at the start of its path
    and no entry in the ownership index is skipped as a service-linked
    role exactly when its identifier holds ["AWSServiceRole"] or
    ["aws-service-role"], whatever stands before and after; otherwise it
    is kept. *)
Theorem service_role_marker_skips (a : AwsFetcher) (cfnType : CfnResourceType)
    (resourceIdentifier resourcePath : string) :
  existsb (HasPrefix resourcePath) (SkipPathPrefixes a) = false ->
  IsManagedResource cfnType resourceIdentifier = false ->
  ((exists pre post,
      resourceIdentifier = pre +:+ "AWSServiceRole" +:+ post \/
      resourceIdentifier = pre +:+ "aws-service-role" +:+ post) ->
   isSkippableManagedResource a cfnType resourceIdentifier ∅ resourcePath =
     (true, "AWS Service role generated resource " +:+ resourceIdentifier)) /\
  (~ (exists pre post,
        resourceIdentifier = pre +:+ "AWSServiceRole" +:+ post \/
        resourceIdentifier = pre +:+ "aws-service-role" +:+ post) ->
   isSkippableManagedResource a cfnType resourceIdentifier ∅ resourcePath = (false, "")).
Proof.
  intros Hpath Hindex. rewrite isSkippableManagedResource_no_tags.
  pose proof (skip_path_reason_existsb resourceIdentifier resourcePath
                (SkipPathPrefixes a)) as Hp.
  destruct (skip_path_reason _ _ _); [destruct Hp; congruence |].
  rewrite Hindex. split.
  - intros (pre & post & [-> | ->]); rewrite Contains_intro;
      rewrite ?orb_true_r; reflexivity.
  - intros Hnone.
    destruct (Contains resourceIdentifier "AWSServiceRole") eqn:H1.
    { apply Contains_elim in H1 as (pre & post & ->). destruct Hnone. eauto. }
    destruct (Contains resourceIdentifier "aws-service-role") eqn:H2.
    { apply Contains_elim in H2 as (pre & post & ->). destruct Hnone. eauto. }
    reflexivity.
Qed.

End ClassifierExtras.

(** ** More on policy versions and inline policies *)

Lemma findOldest_from_keeps (oldest : iam_PolicyVersion)
    (versions : list iam_PolicyVersion) :
  Forall (fun w => (PolicyVersion_CreateDate oldest <= PolicyVersion_CreateDate w)%Z)
    versions ->
  findOldest_from oldest versions = oldest.
Proof.
  induction 1 as [|w versions Hw _ IH]; [reflexivity |].
  simpl. unfold Before. destruct (Z.ltb_spec (PolicyVersion_CreateDate w)
                                    (PolicyVersion_CreateDate oldest)); [lia | exact IH].
Qed.

Lemma findOldest_from_reaches (oldest v : iam_PolicyVersion)
    (before after : list iam_PolicyVersion) :
  (PolicyVersion_CreateDate v < PolicyVersion_CreateDate oldest)%Z ->
  Forall (fun w => (PolicyVersion_CreateDate v < PolicyVersion_CreateDate w)%Z) before ->
  findOldest_from oldest (before ++ v :: after) = findOldest_from v after.
Proof.
  intros Hold Hbefore. revert oldest Hold.
  induction Hbefore as [|w before Hw _ IH]; intros oldest Hold; simpl.
  - unfold Before. destruct (Z.ltb_spec (PolicyVersion_CreateDate v)
                               (PolicyVersion_CreateDate oldest)); [reflexivity | lia].
  - apply IH. now destruct (Before _ _).
Qed.

(** X11.  [findDefaultPolicyVersion] returns the first version flagged
    default, in list order, and nothing else. *)
Theorem findDefaultPolicyVersion_first (versions : list iam_PolicyVersion)
    (v : iam_PolicyVersion) :
  findDefaultPolicyVersion versions = Ok v <->
  is_first PolicyVersion_IsDefaultVersion v versions.
Proof.
  unfold is_first. induction versions as [|w versions IH]; simpl.
  - split; [discriminate |]. intros (before & after & Hl & _). now destruct before.
  - destruct (PolicyVersion_IsDefaultVersion w) eqn:Hw.
    + split.
      * intros [= ->]. exists [], versions. repeat split; auto.
      * intros ([|z before] & after & Hl & Hv & Hbefore).
        -- now injection Hl as -> _.
        -- injection Hl as -> _. inversion Hbefore; congruence.
    + rewrite IH. split.
      * intros (before & after & -> & Hv & Hbefore).
        exists (w :: before), after. repeat split; auto.
      * intros ([|z before] & after & Hl & Hv & Hbefore).
        -- injection Hl as -> _. congruence.
        -- injection Hl as _ ->. inversion Hbefore; subst.
           exists before, after. auto.
Qed.

(** X12.  [findOldestPolicyVersionId] returns the identifier of the first
    version, in list order, among those created earliest: every version
    before it is strictly newer and none after it is older. *)
Theorem findOldestPolicyVersionId_first (before after : list iam_PolicyVersion)
    (v : iam_PolicyVersion) :
  Forall (fun w => (PolicyVersion_CreateDate v < PolicyVersion_CreateDate w)%Z) before ->
  Forall (fun w => (PolicyVersion_CreateDate v <= PolicyVersion_CreateDate w)%Z) after ->
  findOldestPolicyVersionId (before ++ v :: after) = Ok (PolicyVersion_VersionId v).
Proof.
  intros Hbefore Hafter. destruct before as [|first before]; simpl.
  - now rewrite findOldest_from_keeps.
  - inversion Hbefore as [|? ? Hfirst Hrest]; subst.
    rewrite findOldest_from_reaches by assumption.
    now rewrite findOldest_from_keeps.
Qed.

(** X13.  The version the fetcher records as oldest is either one of the
    versions it records as not default or a version flagged default; and
    with a default in the list, the versions recorded as not default are
    fewer than the versions. *)
Theorem oldest_version_accounted (versions : list iam_PolicyVersion) (oldest : string) :
  findOldestPolicyVersionId versions = Ok oldest ->
  (In oldest (findNonDefaultPolicyVersionIds versions) \/
   exists v, In v versions /\ PolicyVersion_IsDefaultVersion v = true /\
             PolicyVersion_VersionId v = oldest) /\
  (has_default versions = true ->
   length (findNonDefaultPolicyVersionIds versions) < length versions).
Proof.
  intros Hold. split.
  - destruct versions as [|first rest]; [discriminate |].
    destruct (findOldestPolicyVersionId_Ok (first :: rest)) as (v & Hv & Hin & _);
      [discriminate |].
    assert (oldest = PolicyVersion_VersionId v) as -> by congruence.
    destruct (PolicyVersion_IsDefaultVersion v) eqn:Hd.
    + right. exists v. auto.
    + left. rewrite findNonDefaultPolicyVersionIds_spec. unfold nondefault_ids.
      apply in_map, filter_In. split; [exact Hin | now rewrite Hd].
  - clear Hold. rewrite findNonDefaultPolicyVersionIds_spec. unfold nondefault_ids.
    rewrite length_map. induction versions as [|w versions IH]; [discriminate |].
    simpl. destruct (PolicyVersion_IsDefaultVersion w) eqn:Hw; simpl.
    + intros _. pose proof (filter_length_le
        (fun v => negb (PolicyVersion_IsDefaultVersion v)) versions). lia.
    + intros Hd. specialize (IH Hd). lia.
Qed.

Section InlineExtras.

Context `{Clients}.

Lemma populateInlinePolicies_app (before after : list iam_PolicyDetail)
    (target : list InlinePolicy) :
  forallb inline_parses before = true ->
  populateInlinePolicies (before ++ after) target =
  populateInlinePolicies after (target ++ map inline_of before).
Proof.
  revert target. induction before as [|ip before IH]; intros target Hall; simpl.
  - now rewrite app_nil_r.
  - simpl in Hall. apply andb_prop in Hall as [Hip Hall].
    unfold inline_parses in Hip.
    destruct (NewPolicyDocumentFromEncodedJson _) as [doc [err|]] eqn:Hdoc;
      [discriminate |].
    rewrite IH by exact Hall. unfold inline_of at 2. rewrite Hdoc. simpl.
    now rewrite <- app_assoc.
Qed.

(** X14.  [populateInlinePolicies] appends to the target one inline policy
    for each policy detail, in order, when every document parses.  When
    one does not, it returns the error of the first such document, and the
    target has grown by the policies before that one only. *)
Theorem populateInlinePolicies_spec (source : list iam_PolicyDetail)
    (target : list InlinePolicy) :
  (forallb inline_parses source = true ->
   populateInlinePolicies source target = (target ++ map inline_of source, None)) /\
  (forall before ip after err,
     source = before ++ ip :: after ->
     forallb inline_parses before = true ->
     snd (NewPolicyDocumentFromEncodedJson (PolicyDetail_PolicyDocument ip)) = Some err ->
     populateInlinePolicies source target = (target ++ map inline_of before, Some err)).
Proof.
  split.
  - intros Hall. rewrite <- (app_nil_r source) at 1.
    now rewrite populateInlinePolicies_app.
  - intros before ip after err -> Hall Herr.
    rewrite populateInlinePolicies_app by exact Hall. simpl.
    destruct (NewPolicyDocumentFromEncodedJson _) as [doc e]. simpl in Herr.
    now subst e.
Qed.

End InlineExtras.

(** ** Loops that classify and append *)

Section SimpleLoops.

Context `{Clients}.

Variables A B : Type.
Variable body : A -> M (option error).
Variable calls : A -> list classifier_call.
Variable kept : AwsFetcher -> A -> bool.
Variable fails : A -> option error.
Variable build : AwsFetcher -> A -> B.
Variable add : B -> AccountData -> AccountData.

(** What one turn of such a loop does. *)
Hypothesis body_spec : forall x a,
  body x a =
    let a1 := with_classified (classified a ++ calls x) a in
    if kept a x then
      match fails x with
      | Some err => Ok (Some err, a1)
      | None => Ok (None, with_data (add (build a x) (data a)) a1)
      end
    else Ok (None, a1).

Hypothesis kept_settings : forall a a' x, same_settings a a' -> kept a' x = kept a x.
Hypothesis build_settings : forall a a' x, same_settings a a' -> build a' x = build a x.

Lemma after_loop_cons x xs a :
  let a1 := with_classified (classified a ++ calls x) a in
  after_loop calls kept build add (x :: xs) a =
    after_loop calls kept build add xs
      (if kept a x then with_data (add (build a x) (data a)) a1 else a1).
Proof using kept_settings build_settings.
  intros a1. unfold after_loop.
  assert (same_settings a a1) as Hs1 by (now repeat split).
  destruct (kept a x) eqn:Hk.
  - set (a2 := with_data (add (build a x) (data a)) a1).
    assert (same_settings a a2) as Hs2 by (now repeat split).
    rewrite (filter_ext (kept a2) (kept a)) by (intros y; now apply kept_settings).
    rewrite (map_ext (build a2) (build a)) by (intros y; now apply build_settings).
    simpl. rewrite Hk. simpl. unfold with_data, with_classified. simpl.
    now rewrite <- app_assoc.
  - rewrite (filter_ext (kept a1) (kept a)) by (intros y; now apply kept_settings).
    rewrite (map_ext (build a1) (build a)) by (intros y; now apply build_settings).
    simpl. rewrite Hk. unfold with_data, with_classified. simpl.
    now rewrite <- app_assoc.
Qed.

Lemma after_loop_nil a : after_loop calls kept build add [] a = a.
Proof.
  unfold after_loop, add_all, with_data, with_classified. simpl.
  rewrite app_nil_r. now destruct a.
Qed.

(** Every element kept has nothing that fails: the loop ends without an
    error in the state [after_loop] describes. *)
Lemma simple_loop_ok xs a :
  (forall x, In x xs -> kept a x = true -> fails x = None) ->
  forEach body xs a = Ok (None, after_loop calls kept build add xs a).
Proof using All.
  revert a. induction xs as [|x xs IH]; intros a Hok.
  - simpl. unfold ret. now rewrite after_loop_nil.
  - rewrite forEach_cons, body_spec, after_loop_cons. cbv zeta.
    set (a1 := with_classified (classified a ++ calls x) a).
    assert (same_settings a a1) as Hs1 by (now repeat split).
    destruct (kept a x) eqn:Hk.
    + rewrite (Hok x (or_introl eq_refl) Hk).
      apply IH. intros y Hy Hky. apply Hok; [now right |].
      rewrite <- Hky. symmetry. apply kept_settings. now repeat split.
    + apply IH. intros y Hy Hky. apply Hok; [now right |].
      rewrite <- Hky. symmetry. now apply kept_settings.
Qed.

(** The first element kept that fails ends the loop with its error; the
    elements before it are handled, the ones after it are not. *)
Lemma simple_loop_error before x after a err :
  (forall y, In y before -> kept a y = true -> fails y = None) ->
  kept a x = true -> fails x = Some err ->
  forEach body (before ++ x :: after) a =
    let a1 := after_loop calls kept build add before a in
    Ok (Some err, with_classified (classified a1 ++ calls x) a1).
Proof using All.
  revert a. induction before as [|y before IH]; intros a Hok Hk Hf.
  - change ([] ++ x :: after) with (x :: after).
    rewrite forEach_cons, body_spec, after_loop_nil. cbv zeta.
    rewrite Hk, Hf. reflexivity.
  - change ((y :: before) ++ x :: after) with (y :: before ++ x :: after).
    rewrite forEach_cons, body_spec, after_loop_cons. cbv zeta.
    set (a1 := with_classified (classified a ++ calls y) a).
    assert (same_settings a a1) as Hs1 by (now repeat split).
    destruct (kept a y) eqn:Hky.
    + rewrite (Hok y (or_introl eq_refl) Hky).
      apply IH; [| | exact Hf].
      * intros z Hz Hkz. apply Hok; [now right |].
        rewrite <- Hkz. symmetry. apply kept_settings. now repeat split.
      * rewrite <- Hk. apply kept_settings. now repeat split.
    + apply IH; [| | exact Hf].
      * intros z Hz Hkz. apply Hok; [now right |].
        rewrite <- Hkz. symmetry. now apply kept_settings.
      * rewrite <- Hk. now apply kept_settings.
Qed.

End SimpleLoops.

Section LoopExtras.

Context `{Clients}.

Lemma populateInlinePolicies_None source target :
  snd (populateInlinePolicies source target) = None ->
  fst (populateInlinePolicies source target) = target ++ map inline_of source.
Proof.
  revert target. induction source as [|ip source IH]; intros target; simpl.
  - now rewrite app_nil_r.
  - unfold inline_of at 1.
    destruct (NewPolicyDocumentFromEncodedJson _) as [doc [err|]]; [discriminate |].
    intros Hnone. rewrite IH by exact Hnone. simpl. now rewrite <- app_assoc.
Qed.

Lemma isSkippable_same_settings (a a' : AwsFetcher) cfnType resourceIdentifier tags
    resourcePath :
  same_settings a a' ->
  fst (isSkippableManagedResource a' cfnType resourceIdentifier tags resourcePath) =
  fst (isSkippableManagedResource a cfnType resourceIdentifier tags resourcePath).
Proof. intros Hs. now rewrite (isSkippableManagedResource_settings a a'). Qed.

Lemma normalised_same_settings (a a' : AwsFetcher) ps :
  same_settings a a' -> normalised a' ps = normalised a ps.
Proof. intros (_ & _ & _ & _ & _ & Hacct). unfold normalised. now rewrite Hacct. Qed.

Lemma add_all_snoc {B} (add : B -> AccountData -> AccountData) xs x d :
  add_all add (xs ++ [x]) d = add x (add_all add xs d).
Proof. unfold add_all. now rewrite foldl_app. Qed.

Lemma add_all_Users users d :
  AccountData_Users (add_all addUser users d) = AccountData_Users d ++ users.
Proof.
  induction users as [|u users IH] using rev_ind; [simpl; now rewrite app_nil_r |].
  rewrite add_all_snoc. simpl. now rewrite IH, app_assoc.
Qed.

Lemma add_all_Groups groups d :
  AccountData_Groups (add_all addGroup groups d) = AccountData_Groups d ++ groups.
Proof.
  induction groups as [|g groups IH] using rev_ind; [simpl; now rewrite app_nil_r |].
  rewrite add_all_snoc. simpl. now rewrite IH, app_assoc.
Qed.

Lemma add_all_InstanceProfiles profiles d :
  AccountData_InstanceProfiles (add_all addInstanceProfile profiles d)
  = AccountData_InstanceProfiles d ++ profiles.
Proof.
  induction profiles as [|p profiles IH] using rev_ind; [simpl; now rewrite app_nil_r |].
  rewrite add_all_snoc. simpl. now rewrite IH, app_assoc.
Qed.

Lemma add_all_BucketPolicies policies d :
  AccountData_BucketPolicies (add_all addBucketPolicy policies d)
  = AccountData_BucketPolicies d ++ policies.
Proof.
  induction policies as [|p policies IH] using rev_ind; [simpl; now rewrite app_nil_r |].
  rewrite add_all_snoc. simpl. now rewrite IH, app_assoc.
Qed.

Lemma populateUser_spec userResp a :
  populateUser userResp a =
    let a1 := with_classified (classified a ++ [user_call userResp]) a in
    if user_kept a userResp then
      match user_fails userResp with
      | Some err => Ok (Some err, a1)
      | None => Ok (None, with_data (addUser (user_of a userResp) (data a)) a1)
      end
    else Ok (None, a1).
Proof.
  unfold populateUser, bind, classify, get, modify, ret, user_kept, user_fails, user_call.
  cbn beta iota zeta.
  destruct (fst (isSkippableManagedResource a CfnIamUser _ _ _)); [reflexivity |].
  cbn beta iota.
  pose proof (populateInlinePolicies_None (UserDetail_UserPolicyList userResp) []) as Hin.
  destruct (populateInlinePolicies _ _) as [inline [err|]]; [reflexivity |].
  simpl in Hin. rewrite (Hin eq_refl). reflexivity.
Qed.

Lemma populateGroup_spec groupResp a :
  populateGroup groupResp a =
    let a1 := with_classified (classified a ++ [group_call groupResp]) a in
    if group_kept a groupResp then
      match group_fails groupResp with
      | Some err => Ok (Some err, a1)
      | None => Ok (None, with_data (addGroup (group_of a groupResp) (data a)) a1)
      end
    else Ok (None, a1).
Proof.
  unfold populateGroup, bind, classify, get, modify, ret, group_kept, group_fails,
    group_call.
  cbn beta iota zeta.
  destruct (fst (isSkippableManagedResource a CfnIamGroup _ _ _)); [reflexivity |].
  cbn beta iota.
  pose proof (populateInlinePolicies_None (GroupDetail_GroupPolicyList groupResp) [])
    as Hin.
  destruct (populateInlinePolicies _ _) as [inline [err|]]; [reflexivity |].
  simpl in Hin. rewrite (Hin eq_refl). reflexivity.
Qed.

Lemma populateInstanceProfile_spec profileResp a :
  populateInstanceProfile profileResp a =
    let a1 := with_classified (classified a ++ [profile_call profileResp]) a in
    if profile_kept a profileResp then
      match @None error with
      | Some err => Ok (Some err, a1)
      | None =>
          Ok (None, with_data (addInstanceProfile (profile_of a profileResp) (data a)) a1)
      end
    else Ok (None, a1).
Proof.
  unfold populateInstanceProfile, bind, classify, modify, ret, profile_kept, profile_call.
  cbn beta iota zeta.
  now destruct (fst (isSkippableManagedResource a CfnInstanceProfile _ _ _)).
Qed.

Lemma populateBucket_spec b a :
  populateBucket b a =
    let a1 := with_classified (classified a ++ bucket_calls b) a in
    if bucket_kept a b then
      match bucket_error b with
      | Some err => Ok (Some err, a1)
      | None =>
          Ok (None, with_data (addBucketPolicy (bucket_policy_of a b) (data a)) a1)
      end
    else Ok (None, a1).
Proof.
  unfold populateBucket, bucket_kept, bucket_calls, bucket_error, bucket_policy_of.
  destruct (String.eqb (bucket_policyJson b) "").
  - unfold ret. simpl. rewrite app_nil_r. now destruct a.
  - unfold bind, classify, modify, ret. cbn beta iota zeta. simpl negb. simpl andb.
    destruct (fst (isSkippableManagedResource a CfnS3Bucket _ _ _)); [reflexivity |].
    simpl negb. cbn beta iota.
    now destruct (NewPolicyDocumentFromJson _) as [doc [err|]].
Qed.

End LoopExtras.

Section LoopTheorems.

Context `{Clients}.

Lemma add_all_keeps {B C} (add : B -> AccountData -> AccountData)
    (field : AccountData -> C) xs d :
  (forall x d, field (add x d) = field d) ->
  field (add_all add xs d) = field d.
Proof.
  intros Hkeep. induction xs as [|x xs IH] using rev_ind; [reflexivity |].
  now rewrite add_all_snoc, Hkeep.
Qed.

(** X15.  The loop over the users of a page.  When the inline policies of
    every user the classifier keeps parse, the loop ends without an error,
    having classified every user once and appended, in the order of the
    page, exactly the users kept, each with its groups, its tags, its
    inline policies and the normalised identifiers of its attached
    policies; no other collection changes.  Otherwise it stops at the
    first user kept whose inline policies do not parse and returns that
    error, with the users before it handled. *)
Theorem users_appended (users : list iam_UserDetail) (a : AwsFetcher) :
  let after := after_loop (fun u => [user_call u]) user_kept user_of addUser in
  ((forall u, In u users -> user_kept a u = true -> user_fails u = None) ->
   forEach populateUser users a = Ok (None, after users a)) /\
  (forall before u rest err,
     users = before ++ u :: rest ->
     (forall v, In v before -> user_kept a v = true -> user_fails v = None) ->
     user_kept a u = true -> user_fails u = Some err ->
     forEach populateUser users a =
       Ok (Some err,
           with_classified (classified (after before a) ++ [user_call u])
             (after before a))) /\
  AccountData_Users (data (after users a)) =
    AccountData_Users (data a) ++ map (user_of a) (List.filter (user_kept a) users) /\
  AccountData_Groups (data (after users a)) = AccountData_Groups (data a) /\
  AccountData_Roles (data (after users a)) = AccountData_Roles (data a) /\
  AccountData_Policies (data (after users a)) = AccountData_Policies (data a) /\
  AccountData_BucketPolicies (data (after users a)) = AccountData_BucketPolicies (data a) /\
  AccountData_InstanceProfiles (data (after users a))
    = AccountData_InstanceProfiles (data a).
Proof.
  intros after.
  assert (forall b b' u, same_settings b b' -> user_kept b' u = user_kept b u) as Hkept.
  { intros b b' u Hs. unfold user_kept. now rewrite (isSkippable_same_settings b b'). }
  assert (forall b b' u, same_settings b b' -> user_of b' u = user_of b u) as Hbuild.
  { intros b b' u Hs. unfold user_of. now rewrite (normalised_same_settings b b'). }
  split; [| split].
  - intros Hok. now apply (simple_loop_ok _ _ _ _ _ user_fails _ _ populateUser_spec).
  - intros before u rest err -> Hok Hk Hf.
    now apply (simple_loop_error _ _ _ _ _ user_fails _ _ populateUser_spec).
  - unfold after, after_loop. simpl.
    split; [apply add_all_Users |].
    repeat split; now apply add_all_keeps.
Qed.

(** X16.  The loop over the groups of a page does the same for groups,
    which are classified with no tags. *)
Theorem groups_appended (groups : list iam_GroupDetail) (a : AwsFetcher) :
  let after := after_loop (fun g => [group_call g]) group_kept group_of addGroup in
  ((forall g, In g groups -> group_kept a g = true -> group_fails g = None) ->
   forEach populateGroup groups a = Ok (None, after groups a)) /\
  (forall before g rest err,
     groups = before ++ g :: rest ->
     (forall v, In v before -> group_kept a v = true -> group_fails v = None) ->
     group_kept a g = true -> group_fails g = Some err ->
     forEach populateGroup groups a =
       Ok (Some err,
           with_classified (classified (after before a) ++ [group_call g])
             (after before a))) /\
  AccountData_Groups (data (after groups a)) =
    AccountData_Groups (data a) ++ map (group_of a) (List.filter (group_kept a) groups) /\
  AccountData_Users (data (after groups a)) = AccountData_Users (data a) /\
  AccountData_Roles (data (after groups a)) = AccountData_Roles (data a) /\
  AccountData_Policies (data (after groups a)) = AccountData_Policies (data a) /\
  AccountData_BucketPolicies (data (after groups a)) = AccountData_BucketPolicies (data a) /\
  AccountData_InstanceProfiles (data (after groups a))
    = AccountData_InstanceProfiles (data a).
Proof.
  intros after.
  assert (forall b b' g, same_settings b b' -> group_kept b' g = group_kept b g) as Hkept.
  { intros b b' g Hs. unfold group_kept. now rewrite (isSkippable_same_settings b b'). }
  assert (forall b b' g, same_settings b b' -> group_of b' g = group_of b g) as Hbuild.
  { intros b b' g Hs. unfold group_of. now rewrite (normalised_same_settings b b'). }
  split; [| split].
  - intros Hok. now apply (simple_loop_ok _ _ _ _ _ group_fails _ _ populateGroup_spec).
  - intros before g rest err -> Hok Hk Hf.
    now apply (simple_loop_error _ _ _ _ _ group_fails _ _ populateGroup_spec).
  - unfold after, after_loop. simpl.
    split; [apply add_all_Groups |].
    repeat split; now apply add_all_keeps.
Qed.

(** X17.  [populateInstanceProfileData] never fails and never panics: it
    classifies every instance profile of the page once, with no tags, and
    appends those kept, in order, with the names of their roles; no other
    collection changes. *)
Theorem instance_profiles_appended (resp : iam_ListInstanceProfilesOutput)
    (a : AwsFetcher) :
  let after :=
    after_loop (fun p => [profile_call p]) profile_kept profile_of addInstanceProfile
      (InstanceProfiles resp) a in
  populateInstanceProfileData resp a = Ok (None, after) /\
  AccountData_InstanceProfiles (data after) =
    AccountData_InstanceProfiles (data a)
    ++ map (profile_of a) (List.filter (profile_kept a) (InstanceProfiles resp)) /\
  AccountData_Users (data after) = AccountData_Users (data a) /\
  AccountData_Groups (data after) = AccountData_Groups (data a) /\
  AccountData_Roles (data after) = AccountData_Roles (data a) /\
  AccountData_Policies (data after) = AccountData_Policies (data a) /\
  AccountData_BucketPolicies (data after) = AccountData_BucketPolicies (data a).
Proof.
  intros after.
  assert (forall b b' p, same_settings b b' -> profile_kept b' p = profile_kept b p)
    as Hkept.
  { intros b b' p Hs. unfold profile_kept. now rewrite (isSkippable_same_settings b b'). }
  split.
  - unfold populateInstanceProfileData.
    apply (simple_loop_ok _ _ _ _ _ (fun _ => None) _ _ populateInstanceProfile_spec);
      auto.
  - unfold after, after_loop. simpl.
    split; [apply add_all_InstanceProfiles |].
    repeat split; now apply add_all_keeps.
Qed.

(** X18.  [fetchS3Data].  A failure to list the buckets is returned
    wrapped, and nothing is classified or stored.  Otherwise a bucket
    without a policy is passed over without being classified; the others
    are classified with their tags and the fixed path, and those kept are
    appended in order with their parsed policy.  The first bucket kept
    whose policy does not parse ends the task with that error, wrapped. *)
Theorem bucket_policies_appended (a : AwsFetcher) :
  let after := after_loop bucket_calls bucket_kept bucket_policy_of addBucketPolicy in
  (forall buckets err,
     listAllBuckets = (buckets, Some err) ->
     fetchS3Data a = Ok (Some (errors_Wrap err "Error listing buckets"), a)) /\
  (forall buckets,
     listAllBuckets = (buckets, None) ->
     (forall b, In b buckets -> bucket_kept a b = true -> bucket_error b = None) ->
     fetchS3Data a = Ok (None, after buckets a)) /\
  (forall before b rest err,
     listAllBuckets = (before ++ b :: rest, None) ->
     (forall v, In v before -> bucket_kept a v = true -> bucket_error v = None) ->
     bucket_kept a b = true ->
     snd (NewPolicyDocumentFromJson (bucket_policyJson b)) = Some err ->
     fetchS3Data a =
       Ok (Some (errors_Wrap err "Error creating Policy document"),
           with_classified (classified (after before a) ++ bucket_calls b)
             (after before a))) /\
  (forall buckets,
     AccountData_BucketPolicies (data (after buckets a)) =
       AccountData_BucketPolicies (data a)
       ++ map (bucket_policy_of a) (List.filter (bucket_kept a) buckets) /\
     AccountData_Users (data (after buckets a)) = AccountData_Users (data a) /\
     AccountData_Groups (data (after buckets a)) = AccountData_Groups (data a) /\
     AccountData_Roles (data (after buckets a)) = AccountData_Roles (data a) /\
     AccountData_Policies (data (after buckets a)) = AccountData_Policies (data a) /\
     AccountData_InstanceProfiles (data (after buckets a))
       = AccountData_InstanceProfiles (data a)).
Proof.
  intros after.
  assert (forall b b' x, same_settings b b' -> bucket_kept b' x = bucket_kept b x)
    as Hkept.
  { intros b b' x Hs. unfold bucket_kept. now rewrite (isSkippable_same_settings b b'). }
  split; [| split; [| split]].
  - intros buckets err Hlist. unfold fetchS3Data. now rewrite Hlist.
  - intros buckets Hlist Hok. unfold fetchS3Data. rewrite Hlist.
    apply (simple_loop_ok _ _ _ _ _ bucket_error _ _ populateBucket_spec); auto.
  - intros before b rest err Hlist Hok Hk Herr. unfold fetchS3Data. rewrite Hlist.
    apply (simple_loop_error _ _ _ _ _ bucket_error _ _ populateBucket_spec); auto.
    unfold bucket_error. now rewrite Herr.
  - intros buckets. unfold after, after_loop. simpl.
    split; [apply add_all_BucketPolicies |].
    repeat split; now apply add_all_keeps.
Qed.

End LoopTheorems.

(** ** More on the lookups and their join *)

Section JoinExtras.

Context `{Clients}.

Lemma slot_after_sticky e errs : is_Some (slot_after (Some e) errs).
Proof.
  revert e. induction errs as [|err errs IH]; intros e; [now exists e |].
  unfold slot_after in *. simpl. destruct err; apply IH.
Qed.

(** X19.  No method clears the error slot of the lookups.  If the slot
    holds an error when a page is handed to [populateIamData] and the page
    is handled up to the join, an error is returned, even when every
    lookup of that page succeeds. *)
Theorem description_error_sticky resp a a1 e :
  descriptionFetchError a = Some e ->
  populateIamData_pages resp a = Ok (None, a1) ->
  exists e' a',
    populateIamData resp a = Ok (Some e', a') /\
    descriptionFetchError a' = Some e' /\
    ((forall l, In l (completion_order (descriptionFetchWaitGroup a1)) ->
                lookup_error l = None) -> e' = e).
Proof.
  intros Hslot Hpages.
  pose proof (populateIamData_join resp a a1 Hpages) as Hjoin. cbv zeta in Hjoin.
  destruct (populateIamData_pages_None resp a a1 Hpages) as (_ & He & _).
  rewrite He, Hslot in Hjoin.
  destruct (slot_after_sticky e
              (map lookup_error (completion_order (descriptionFetchWaitGroup a1))))
    as [e' He'].
  rewrite He' in Hjoin. eexists e', _. split; [exact Hjoin |]. split.
  - simpl.
    destruct (run_lookups_frame (completion_order (descriptionFetchWaitGroup a1)) a1)
      as (_ & _ & _ & _ & Hslot' & _).
    cbv zeta in Hslot'. rewrite Hslot', He, Hslot. exact He'.
  - intros Hnone. rewrite slot_after_no_error in He'; [congruence |].
    intros err Herr. apply in_map_iff in Herr as (l & <- & Hl). now apply Hnone.
Qed.

(** X20.  With the fetching of descriptions switched off, a page that is
    handled up to the join dispatches no lookup, and with none pending
    [populateIamData] returns the error slot as it found it and leaves the
    fetcher as the loops left it. *)
Theorem no_lookups_when_skipping resp a a1 :
  (forall ls, Permutation (completion_order ls) ls) ->
  SkipFetchingPolicyAndRoleDescriptions a = true ->
  descriptionFetchWaitGroup a = [] ->
  populateIamData_pages resp a = Ok (None, a1) ->
  descriptionFetchWaitGroup a1 = [] /\
  populateIamData resp a = Ok (descriptionFetchError a, a1).
Proof.
  intros Hperm Hskip Hwg Hpages.
  destruct (populateIamData_pages_None resp a a1 Hpages)
    as (_ & He & _ & _ & (rl & pl & Hw & Hnone & _) & _).
  destruct (Hnone Hskip) as [-> ->]. rewrite Hwg in Hw. simpl in Hw.
  split; [exact Hw |].
  pose proof (populateIamData_join resp a a1 Hpages) as Hjoin. cbv zeta in Hjoin.
  rewrite Hw in Hjoin.
  assert (completion_order [] = []) as Hnil.
  { apply Permutation_nil. symmetry. apply Hperm. }
  rewrite Hnil in Hjoin. simpl in Hjoin. rewrite Hjoin, He. f_equal. f_equal.
  unfold with_descriptionFetchWaitGroup. rewrite <- Hw. now destruct a1.
Qed.

End JoinExtras.

Section DescriptionExtras.

Context `{Clients}.

Lemma description_writes_app ptr ls ls' :
  description_writes ptr (ls ++ ls') = description_writes ptr ls ++ description_writes ptr ls'.
Proof. unfold description_writes. apply omap_app. Qed.

Lemma description_writes_none ptr ls :
  Forall (fun l => forall t, policy_target l = Some t -> t <> ptr) ls ->
  description_writes ptr ls = [].
Proof.
  induction 1 as [|l ls Hl _ IH]; [reflexivity |].
  change (l :: ls) with ([l] ++ ls). rewrite description_writes_app, IH, app_nil_r.
  unfold description_writes.
  destruct l as [policyArn target | roleName target]; [| reflexivity].
  simpl. destruct (decide (target = ptr)) as [Heq | _]; [| reflexivity].
  now destruct (Hl target eq_refl).
Qed.

(** What the lookups leave in the description of the policy at [ptr]. *)
Lemma run_lookups_description order a ptr p :
  policyStore a !! ptr = Some p ->
  exists p',
    policyStore (foldl run_lookup a order) !! ptr = Some p' /\
    Policy_Description p' = last_written (Policy_Description p) (description_writes ptr order) /\
    Policy_iamService p' = Policy_iamService p.
Proof.
  revert a p. induction order as [|l order IH]; intros a p Hp.
  - exists p. auto.
  - simpl foldl.
    assert (exists p1,
              policyStore (run_lookup a l) !! ptr = Some p1 /\
              last_written (Policy_Description p1) (description_writes ptr order)
              = last_written (Policy_Description p) (description_writes ptr (l :: order)) /\
              Policy_iamService p1 = Policy_iamService p) as (p1 & Hp1 & Hd & Hs).
    { unfold run_lookup, description_writes.
      destruct l as [policyArn target | roleName target].
      - simpl omap. destruct (decide (target = ptr)) as [-> | Hne].
        + exists (set_Policy_Description (fst (getPolicyDescription policyArn)) p).
          split; [| split; reflexivity].
          destruct (lookup_error _); simpl; now rewrite list_lookup_alter_eq, Hp.
        + exists p. split; [| split; reflexivity].
          destruct (lookup_error _); simpl; now rewrite list_lookup_alter_ne.
      - exists p. split; [| split; reflexivity].
        destruct (getRole roleName) as [[d duration] e].
        now destruct (lookup_error _). }
    destruct (IH _ _ Hp1) as (p' & Hp' & Hd' & Hs').
    exists p'. split; [exact Hp' |]. split; congruence.
Qed.

Lemma policies_loop_lookups policyTags policies a a' :
  forEach (populatePolicy policyTags) policies a = Ok (None, a') ->
  SkipFetchingPolicyAndRoleDescriptions a = false ->
  exists ls new,
    descriptionFetchWaitGroup a' = descriptionFetchWaitGroup a ++ ls /\
    Forall (fun l => forall t, policy_target l = Some t -> length (policyStore a) <= t) ls /\
    AccountData_Policies (data a') = AccountData_Policies (data a) ++ new /\
    Forall2 (fun ptr policyResp =>
               length (policyStore a) <= ptr /\
               description_writes ptr ls
               = [fst (getPolicyDescription (ManagedPolicyDetail_Arn policyResp))])
      new (List.filter (passes_both a policyTags) policies).
Proof.
  revert a. induction policies as [|policyResp policies IH]; intros a Hrun Hskip.
  - injection Hrun as <-. exists [], []. rewrite !app_nil_r. repeat split; constructor.
  - apply forEach_None_inv in Hrun as (a1 & Hstep & Hrest).
    apply populatePolicy_inv in Hstep
      as [(Hskip1 & _ & ->) | [(Hskip1 & v & doc & err & _ & _ & [=] & _) |
          (Hskip1 & v & doc & oldest & Hv & Hdoc & Hold & _ & ->)]].
    + destruct (IH _ Hrest Hskip) as (ls & new & Hw & Hls & Hp & Hall).
      exists ls, new. repeat split; try assumption.
      simpl. unfold passes_both at 1. rewrite Hskip1. exact Hall.
    + destruct (IH _ Hrest Hskip) as (ls & new & Hw & Hls & Hp & Hall).
      simpl in Hw, Hls, Hp, Hall. rewrite Hskip in Hw.
      rewrite length_app in Hls, Hall. simpl in Hls, Hall.
      set (n := length (policyStore a)) in *.
      set (L := PolicyDescriptionLookup (ManagedPolicyDetail_Arn policyResp) n) in *.
      assert (description_writes n ls = []) as Hnone.
      { apply description_writes_none.
        eapply Forall_impl; [exact Hls |]. intros l Hl t Ht. specialize (Hl t Ht). lia. }
      assert (Forall2
                (fun ptr pr =>
                   n <= ptr /\
                   description_writes ptr (L :: ls)
                   = [fst (getPolicyDescription (ManagedPolicyDetail_Arn pr))])
                new (List.filter (passes_both a policyTags) policies)) as Hall'.
      { eapply Forall2_impl; [exact Hall |]. intros ptr pr [Hge Hd].
        split; [lia |].
        change (L :: ls) with ([L] ++ ls). rewrite description_writes_app, Hd.
        unfold description_writes, L. simpl.
        destruct (decide (n = ptr)); [lia | reflexivity]. }
      exists (L :: ls).
      simpl List.filter. unfold passes_both at 1. rewrite Hskip1. simpl negb. simpl andb.
      destruct (second_pass_skips a policyTags policyResp) eqn:Hskip2; simpl negb.
      * exists new. split; [rewrite Hw, <- app_assoc; reflexivity |].
        split.
        { constructor; [intros t [= <-]; lia |].
          eapply Forall_impl; [exact Hls |]. intros l Hl t Ht. specialize (Hl t Ht). lia. }
        split; [exact Hp | exact Hall'].
      * exists (n :: new). split; [rewrite Hw, <- app_assoc; reflexivity |].
        split.
        { constructor; [intros t [= <-]; lia |].
          eapply Forall_impl; [exact Hls |]. intros l Hl t Ht. specialize (Hl t Ht). lia. }
        split; [rewrite Hp; simpl; rewrite <- app_assoc; reflexivity |].
        constructor; [| exact Hall'].
        split; [lia |].
        change (L :: ls) with ([L] ++ ls). rewrite description_writes_app, Hnone.
        unfold description_writes, L. simpl.
        destruct (decide (n = n)); [reflexivity | congruence].
Qed.

(** The page up to its managed policies. *)
Lemma populateIamData_pages_split resp a a1 :
  populateIamData_pages resp a = Ok (None, a1) ->
  exists ar rl,
    keeps_policies a ar /\
    descriptionFetchWaitGroup ar = descriptionFetchWaitGroup a ++ rl /\
    Forall (fun l => policy_target l = None) rl /\
    forEach (populatePolicy
               (fst (getMultiplePolicyTags
                       (map ManagedPolicyDetail_Arn (Policies resp)))))
      (Policies resp) ar = Ok (None, a1).
Proof.
  unfold populateIamData_pages. intros Hrun.
  apply orReturn_None_inv in Hrun as [(err & [=] & _) | (au & Hu & Hrun)].
  apply orReturn_None_inv in Hrun as [(err & [=] & _) | (ag & Hg & Hrun)].
  apply orReturn_None_inv in Hrun as [(err & [=] & _) | (ar & Hr & Hrun)].
  apply users_loop in Hu as [Hku Hwu].
  apply groups_loop in Hg as [Hkg Hwg].
  apply roles_loop in Hr as (Hkr & rl & Hwr & Hrnone & Hrsome).
  destruct (getMultiplePolicyTags _) as [policyTags [err|]] eqn:Htags; [discriminate |].
  exists ar, rl.
  split; [exact (keeps_policies_trans _ _ _ Hku (keeps_policies_trans _ _ _ Hkg Hkr)) |].
  split; [congruence |]. split; [| exact Hrun].
  destruct (SkipFetchingPolicyAndRoleDescriptions ag) eqn:Hskip.
  - rewrite (Hrnone eq_refl). constructor.
  - specialize (Hrsome eq_refl). clear -Hrsome.
    induction Hrsome as [|l rr ls rrs [target ->] _ IH]; constructor; auto.
Qed.

(** X21.  With descriptions fetched and no lookup pending at the start,
    when a page is handled up to the join, every managed policy the page
    added to the snapshot has, when [populateIamData] returns, the
    description its own lookup returned, whatever the order in which the
    lookups finished. *)
Theorem policy_descriptions_written resp a a1 :
  (forall ls, Permutation (completion_order ls) ls) ->
  SkipFetchingPolicyAndRoleDescriptions a = false ->
  descriptionFetchWaitGroup a = [] ->
  populateIamData_pages resp a = Ok (None, a1) ->
  let policyTags :=
    fst (getMultiplePolicyTags (map ManagedPolicyDetail_Arn (Policies resp))) in
  exists r a' new,
    populateIamData resp a = Ok (r, a') /\
    AccountData_Policies (data a') = AccountData_Policies (data a) ++ new /\
    Forall2 (fun ptr policyResp =>
               exists p,
                 policyStore a' !! ptr = Some p /\
                 Policy_iamService p =
                   {| Name := ManagedPolicyDetail_PolicyName policyResp;
                      Path := ManagedPolicyDetail_Path policyResp |} /\
                 Policy_Description p =
                   fst (getPolicyDescription (ManagedPolicyDetail_Arn policyResp)))
      new (List.filter (passes_both a policyTags) (Policies resp)).
Proof.
  intros Hperm Hskip Hwg Hpages policyTags.
  pose proof (populateIamData_join resp a a1 Hpages) as Hjoin. cbv zeta in Hjoin.
  destruct (populateIamData_pages_split resp a a1 Hpages)
    as (ar & rl & (Hs & Hst & Hpol & _) & Hwr & Hrl & Hloop).
  fold policyTags in Hloop.
  assert (SkipFetchingPolicyAndRoleDescriptions ar = false) as Hskipr.
  { destruct Hs as (-> & _). exact Hskip. }
  destruct (policies_loop_lookups _ _ _ _ Hloop Hskipr) as (ls & new & Hw & _ & Hp & Hall).
  destruct (policies_loop _ _ _ _ Hloop) as (_ & _ & _ & _ & (new' & Hp' & Hall') & _).
  assert (new' = new) as ->.
  { rewrite Hp in Hp'. now apply app_inv_head in Hp'. }
  set (order := completion_order (descriptionFetchWaitGroup a1)) in *.
  assert (Permutation order (rl ++ ls)) as Horder.
  { unfold order. rewrite Hperm, Hw, Hwr, Hwg. reflexivity. }
  destruct (run_lookups_frame order a1) as (_ & Hd & _).
  eexists _, _, new. split; [exact Hjoin |].
  simpl. rewrite Hd, Hp, Hpol. split; [reflexivity |].
  assert (forall pr, passes_both ar policyTags pr = passes_both a policyTags pr) as Hb.
  { intros pr. unfold passes_both, second_pass_skips, first_pass_skips.
    now rewrite !(isSkippableManagedResource_settings a ar). }
  rewrite (filter_ext _ (passes_both a policyTags)) in Hall by exact Hb.
  rewrite (filter_ext _ (passes_both a policyTags)) in Hall' by exact Hb.
  clear Hp Hp' Hjoin.
  induction Hall as [|ptr pr new prs [_ Hwrites] _ IH]; inversion Hall'
    as [|? ? ? ? (p & Hptr & Hbuilt) Hrest]; subst; constructor; auto.
  destruct (run_lookups_description order a1 ptr p Hptr) as (p' & Hp' & Hdesc & Hname).
  exists p'. split; [exact Hp' |]. split.
  - rewrite Hname. apply Hbuilt.
  - rewrite Hdesc.
    assert (description_writes ptr order
            = [fst (getPolicyDescription (ManagedPolicyDetail_Arn pr))]) as ->.
    { apply Permutation_singleton_r.
      unfold description_writes at 1. rewrite Horder.
      fold (description_writes ptr (rl ++ ls)).
      rewrite description_writes_app, Hwrites.
      rewrite description_writes_none; [reflexivity |].
      eapply Forall_impl; [exact Hrl |]. intros l Hl t Ht. congruence. }
    reflexivity.
Qed.

End DescriptionExtras.

(** ** More on the tasks *)

Lemma pager_of_quiet {R : Type} (pages : list R) :
  quiet_pager (fun S => @pager_of R S pages).
Proof.
  intros S fn. induction pages as [|page pages IH]; intros s s' err; simpl.
  - now intros [= <- _].
  - destruct (fn page s) as [[[|] s1]|msg]; [apply IH | now intros [= <- _] | discriminate].
Qed.

Section TaskExtras.

Context `{Clients}.

(** The pager whose error [fetchIamData] returns. *)
Lemma fetchIamData_cases (a a' : AwsFetcher) (r : option error) :
  fetchIamData a = Ok (r, a') ->
  (exists s,
     GetAccountAuthorizationDetailsPages _ (page_handler populateIamData) (a, None)
     = Ok (r, s)) \/
  (exists a1 s,
     GetAccountAuthorizationDetailsPages _ (page_handler populateIamData) (a, None)
     = Ok (None, (a1, None)) /\
     ListInstanceProfilesPages _ (page_handler populateInstanceProfileData) (a1, None)
     = Ok (r, s)).
Proof.
  unfold fetchIamData. intros Hrun.
  destruct (GetAccountAuthorizationDetailsPages _ _ _) as [[err [a1 perr]]|msg] eqn:Hauth;
    [| discriminate].
  assert (err = r \/ (perr = None /\ err = None)) as [<- | [-> ->]].
  { destruct perr, err; simpl in Hrun; try (injection Hrun as <- _); auto. }
  - left; eauto.
  - simpl in Hrun.
    destruct (ListInstanceProfilesPages _ _ _) as [[err2 [a2 perr2]]|msg] eqn:Hprof;
      [| discriminate].
    assert (err2 = r) as <-.
    { destruct perr2, err2; simpl in Hrun; now injection Hrun as <- _. }
    right; eauto.
Qed.

Lemma fetchIamData_quiet (a a' : AwsFetcher) (r : option error) :
  fetchIamData a = Ok (r, a') ->
  quiet_pager GetAccountAuthorizationDetailsPages ->
  quiet_pager ListInstanceProfilesPages ->
  r = None.
Proof.
  intros Hrun Hq1 Hq2.
  destruct (fetchIamData_cases _ _ _ Hrun) as [(s & Hauth) | (a1 & s & _ & Hprof)].
  - eapply Hq1. exact Hauth.
  - eapply Hq2. exact Hprof.
Qed.

(** X22.  The error [fetchIamData] returns is always one a pager returned:
    that of the authorization-details pager, or, when that pager and its
    handler report nothing, that of the instance-profile pager.  An error
    a page handler recorded is never returned in its place, so with pagers
    that report no error of their own the task returns no error, whatever
    [populateIamData] returned. *)
Theorem fetchIamData_returns_pager_error (a a' : AwsFetcher) (r : option error) :
  fetchIamData a = Ok (r, a') ->
  ((exists s,
      GetAccountAuthorizationDetailsPages _ (page_handler populateIamData) (a, None)
      = Ok (r, s)) \/
   (exists a1 s,
      GetAccountAuthorizationDetailsPages _ (page_handler populateIamData) (a, None)
      = Ok (None, (a1, None)) /\
      ListInstanceProfilesPages _ (page_handler populateInstanceProfileData) (a1, None)
      = Ok (r, s))) /\
  (quiet_pager GetAccountAuthorizationDetailsPages ->
   quiet_pager ListInstanceProfilesPages ->
   r = None).
Proof.
  intros Hrun. split.
  - exact (fetchIamData_cases _ _ _ Hrun).
  - exact (fetchIamData_quiet _ _ _ Hrun).
Qed.

(** X23.  With pagers that report no error of their own, [Fetch] never
    returns an IAM error: an error it returns is that of the identity
    lookup, of the ownership-index build or of the S3 task. *)
Theorem Fetch_reports_no_iam_error (a a' : AwsFetcher) (snapshot : option AccountData)
    (err : error) :
  quiet_pager GetAccountAuthorizationDetailsPages ->
  quiet_pager ListInstanceProfilesPages ->
  Fetch a = Ok ((snapshot, Some err), a') ->
  exists cause,
    err = errors_Wrap cause "Error in init" \/
    err = errors_Wrap cause "Error fetching CFN data" \/
    err = errors_Wrap cause "Error fetching S3 data".
Proof.
  intros Hq1 Hq2. unfold Fetch, bind, get, ret.
  destruct (init a) as [[[e|] a0]|msg]; cbn beta iota; [| | discriminate].
  { intros [= _ <- _]. exists e. auto. }
  destruct (if negb (HeuristicCfnMatching a0) then PopulateMangedResourceData else None)
    as [e|].
  { intros [= _ <- _]. exists e. auto. }
  destruct (fetchIamData a0) as [[iamErr a1]|msg] eqn:Hiam; cbn beta iota; [| discriminate].
  rewrite (fetchIamData_quiet _ _ _ Hiam Hq1 Hq2).
  destruct (fetchS3Data a1) as [[s3Err a2]|msg]; cbn beta iota; [| discriminate].
  unfold join. destruct s3Err as [e|]; [| discriminate].
  intros [= _ <- _]. exists e. auto.
Qed.

Lemma getAccount_error (err : error) :
  snd getAccount = Some err -> getAccount = (None, Some err).
Proof.
  unfold getAccount.
  destruct GetAwsAccountId as [id [idErr|]].
  - destruct (decide (idErr = ErrMissingRegion)); now intros [= <-].
  - destruct ListAccountAliases as [aliases [e|]]; [now intros [= <-] | discriminate].
Qed.

(** X24.  [getAccount] returns an account or an error, never both and
    never neither.  It returns an account exactly when both lookups
    succeed: the id is the one resolved and the alias the first of those
    listed, empty if none is.  A missing region is reported with a message
    of its own; any other error of either lookup is returned as it is. *)
Theorem getAccount_result :
  match getAccount with
  | (Some acct, None) =>
      snd GetAwsAccountId = None /\ snd ListAccountAliases = None /\
      Id acct = fst GetAwsAccountId /\
      Alias acct = hd "" (fst ListAccountAliases)
  | (None, Some err) =>
      match snd GetAwsAccountId with
      | Some idErr =>
          if decide (idErr = ErrMissingRegion)
          then err = errors_New missing_region_message
          else err = idErr
      | None => snd ListAccountAliases = Some err
      end
  | _ => False
  end.
Proof.
  unfold getAccount, missing_region_message.
  destruct GetAwsAccountId as [id [idErr|]]; simpl.
  - destruct (decide (idErr = ErrMissingRegion)); reflexivity.
  - destruct ListAccountAliases as [aliases [err|]]; simpl; [reflexivity |].
    repeat split; now destruct aliases.
Qed.

(** X25.  A failure of [init] or of the ownership-index build ends
    [Fetch] before either task starts: the error is returned wrapped with
    the name of the phase and with no snapshot.  After a failed [init]
    nothing has been classified and the settings, the snapshot, the
    pending lookups and the error slots are as they were; only the
    account, which the source has set to nil, is not.  After a failed
    build the fetcher holds the account resolved and its empty snapshot.
    The ownership index is built only when heuristic matching is off. *)
Theorem Fetch_early_failures (a : AwsFetcher) :
  (forall err,
     snd getAccount = Some err ->
     exists a',
       Fetch a = Ok ((None, Some (errors_Wrap err "Error in init")), a') /\
       same_but_account a a') /\
  (forall acct err,
     getAccount = (Some acct, None) ->
     HeuristicCfnMatching a = false ->
     PopulateMangedResourceData = Some err ->
     Fetch a = Ok ((None, Some (errors_Wrap err "Error fetching CFN data")),
                   with_data (emptyAccountData acct) (with_account acct a))) /\
  (forall acct,
     getAccount = (Some acct, None) ->
     HeuristicCfnMatching a = true ->
     Fetch a =
       (let a0 := with_data (emptyAccountData acct) (with_account acct a) in
        match fetchIamData a0 with
        | Ok (iamErr, a1) =>
            match fetchS3Data a1 with
            | Ok (s3Err, a2) => Ok (join a2 iamErr s3Err, a2)
            | Panic msg => Panic msg
            end
        | Panic msg => Panic msg
        end)).
Proof.
  split; [| split].
  - intros err Herr. unfold Fetch, init, bind, ret.
    rewrite (getAccount_error err Herr). exists a.
    split; [reflexivity |]. unfold same_but_account. repeat split.
  - intros acct err Hget Hheur Hcfn. unfold Fetch, init, bind, get, modify, ret.
    rewrite Hget. cbn beta iota. simpl. now rewrite Hheur, Hcfn.
  - intros acct Hget Hheur. unfold Fetch, init, bind, get, modify, ret.
    rewrite Hget. cbn beta iota. simpl. rewrite Hheur. simpl.
    destruct (fetchIamData _) as [[iamErr a1]|msg]; [| reflexivity].
    now destruct (fetchS3Data a1) as [[s3Err a2]|msg].
Qed.

End TaskExtras.

(** ** Lookups of roles and policies *)

Section AddressExtras.

Context `{Clients}.

Lemma find_first_ext {A} (f g : A -> bool) (l : list A) :
  (forall x, f x = g x) -> find_first f l = find_first g l.
Proof.
  intros Hfg. unfold find_first. induction l as [|x l IH]; simpl; [reflexivity |].
  rewrite Hfg. destruct (g x); [reflexivity | exact IH].
Qed.

Lemma FindPolicyByName_in_find store ptrs name path :
  FindPolicyByName_in store ptrs name path
  = find_first (policy_named store name path) ptrs.
Proof.
  unfold find_first, policy_named. induction ptrs as [|ptr ptrs IH]; simpl; [reflexivity |].
  destruct (store !! ptr) as [p|]; [| exact IH].
  destruct (named _ name path); [reflexivity | exact IH].
Qed.

Lemma FindRoleByName_in_find store ptrs name path :
  FindRoleByName_in store ptrs name path
  = find_first (role_named store name path) ptrs.
Proof.
  unfold find_first, role_named. induction ptrs as [|ptr ptrs IH]; simpl; [reflexivity |].
  destruct (store !! ptr) as [r|]; [| exact IH].
  destruct (named _ name path); [reflexivity | exact IH].
Qed.

Lemma run_lookup_names a l ptr :
  Policy_iamService <$> policyStore (run_lookup a l) !! ptr
    = Policy_iamService <$> policyStore a !! ptr /\
  Role_iamService <$> roleStore (run_lookup a l) !! ptr
    = Role_iamService <$> roleStore a !! ptr.
Proof.
  unfold run_lookup.
  destruct l as [policyArn target | roleName target].
  - destruct (lookup_error _); simpl; (split; [| reflexivity]);
      (destruct (decide (target = ptr)) as [-> | Hne];
       [ rewrite list_lookup_alter_eq; now destruct (policyStore a !! ptr)
       | now rewrite list_lookup_alter_ne ]).
  - destruct (getRole roleName) as [[d duration] e].
    destruct (lookup_error _); simpl; (split; [reflexivity |]);
      (destruct (decide (target = ptr)) as [-> | Hne];
       [ rewrite list_lookup_alter_eq; now destruct (roleStore a !! ptr)
       | now rewrite list_lookup_alter_ne ]).
Qed.

Lemma run_lookups_names order a ptr :
  Policy_iamService <$> policyStore (foldl run_lookup a order) !! ptr
    = Policy_iamService <$> policyStore a !! ptr /\
  Role_iamService <$> roleStore (foldl run_lookup a order) !! ptr
    = Role_iamService <$> roleStore a !! ptr.
Proof.
  revert a. induction order as [|l order IH]; intros a; [now split |].
  simpl. destruct (IH (run_lookup a l)) as [Hp Hr].
  destruct (run_lookup_names a l ptr) as [Hp' Hr']. split; congruence.
Qed.

(** X26.  [FindPolicyByName] and [FindRoleByName] return the first
    address of the snapshot, in the order of insertion, whose record has
    the name and the path.  The lookups running on their own goroutines
    never change what they return: whichever lookups have finished, and in
    whatever order, the same address is found. *)
Theorem Find_by_address_stable (order : list lookup) (a : AwsFetcher)
    (name path : string) :
  let a' := foldl run_lookup a order in
  FindPolicyByName (policyStore a) (data a) name path
    = find_first (policy_named (policyStore a) name path)
        (AccountData_Policies (data a)) /\
  FindRoleByName (roleStore a) (data a) name path
    = find_first (role_named (roleStore a) name path) (AccountData_Roles (data a)) /\
  FindPolicyByName (policyStore a') (data a') name path
    = FindPolicyByName (policyStore a) (data a) name path /\
  FindRoleByName (roleStore a') (data a') name path
    = FindRoleByName (roleStore a) (data a) name path.
Proof.
  intros a'. unfold FindPolicyByName, FindRoleByName.
  rewrite !FindPolicyByName_in_find, !FindRoleByName_in_find.
  destruct (run_lookups_frame order a) as (_ & Hd & _). fold a' in Hd. rewrite Hd.
  split; [reflexivity |]. split; [reflexivity |].
  split; apply find_first_ext; intros ptr.
  - unfold policy_named. destruct (run_lookups_names order a ptr) as [Hp _].
    fold a' in Hp.
    destruct (policyStore a' !! ptr), (policyStore a !! ptr); simpl in Hp;
      congruence.
  - unfold role_named. destruct (run_lookups_names order a ptr) as [_ Hr].
    fold a' in Hr.
    destruct (roleStore a' !! ptr), (roleStore a !! ptr); simpl in Hr; congruence.
Qed.

End AddressExtras.

(** ** Roles *)

Section RoleExtras.

Context `{Clients}.

Lemma inline_parses_None source target :
  snd (populateInlinePolicies source target) = None ->
  forallb inline_parses source = true.
Proof.
  revert target. induction source as [|ip source IH]; intros target; simpl;
    [reflexivity |].
  unfold inline_parses at 1.
  destruct (NewPolicyDocumentFromEncodedJson _) as [doc [err|]]; [discriminate |].
  simpl. apply IH.
Qed.

(** Two fetchers with the same fields are the same. *)
Lemma fetcher_ext (a b : AwsFetcher) :
  SkipFetchingPolicyAndRoleDescriptions a = SkipFetchingPolicyAndRoleDescriptions b ->
  HeuristicCfnMatching a = HeuristicCfnMatching b ->
  SkipTagged a = SkipTagged b ->
  IncludeTagged a = IncludeTagged b ->
  SkipPathPrefixes a = SkipPathPrefixes b ->
  account a = account b ->
  data a = data b ->
  descriptionFetchWaitGroup a = descriptionFetchWaitGroup b ->
  descriptionFetchError a = descriptionFetchError b ->
  policyTagFetchError a = policyTagFetchError b ->
  roleStore a = roleStore b ->
  policyStore a = policyStore b ->
  classified a = classified b ->
  a = b.
Proof. destruct a, b; simpl; intros; subst; reflexivity. Qed.

Lemma populateRole_inv roleResp a a1 :
  populateRole roleResp a = Ok (None, a1) ->
  (role_skipped a roleResp = true /\
   a1 = with_classified (classified a ++ [role_call roleResp]) a) \/
  (role_skipped a roleResp = false /\
   exists doc,
     NewPolicyDocumentFromEncodedJson (RoleDetail_AssumeRolePolicyDocument roleResp)
       = (doc, None) /\
     snd (populateInlinePolicies (RoleDetail_RolePolicyList roleResp) []) = None /\
     a1 = after_role roleResp doc a).
Proof.
  unfold populateRole, marshalRoleAsync, dispatch, writeRole, bind, classify, get,
    modify, ret, newRole, role_skipped, role_call.
  cbn beta iota.
  destruct (fst (isSkippableManagedResource a CfnIamRole _ _ _)) eqn:Hs; cbn beta iota.
  - intros [= <-]. left. auto.
  - cbn [SkipFetchingPolicyAndRoleDescriptions with_roleStore with_classified].
    intros Hrun. right. split; [reflexivity |]. revert Hrun.
    pose proof (populateInlinePolicies_None (RoleDetail_RolePolicyList roleResp) [])
      as Hin.
    destruct (SkipFetchingPolicyAndRoleDescriptions a) eqn:Hskip; cbn [negb];
      cbn beta iota;
      destruct (NewPolicyDocumentFromEncodedJson _) as [doc [err|]] eqn:Hdoc;
      cbn beta iota; try discriminate;
      destruct (populateInlinePolicies _ _) as [inline [err|]]; cbn beta iota;
      try discriminate;
      simpl in Hin; rewrite (Hin eq_refl);
      intros [= <-]; exists doc; (split; [reflexivity |]); (split; [reflexivity |]);
      cbn [roleStore with_roleStore with_classified with_descriptionFetchWaitGroup];
      rewrite !alter_new;
      apply fetcher_ext; try reflexivity;
      cbn [after_role SkipFetchingPolicyAndRoleDescriptions descriptionFetchWaitGroup
           with_data with_roleStore with_classified with_descriptionFetchWaitGroup];
      rewrite ?Hskip; reflexivity.
Qed.

Lemma keeps_roles_refl a : keeps_roles a a.
Proof. now split. Qed.

Lemma keeps_roles_trans a a1 a2 :
  keeps_roles a a1 -> keeps_roles a1 a2 -> keeps_roles a a2.
Proof. intros [? ?] [? ?]. split; congruence. Qed.

Lemma populateUser_keeps_roles userResp a r a' :
  populateUser userResp a = Ok (r, a') -> keeps_roles a a'.
Proof.
  rewrite populateUser_spec. cbv zeta.
  destruct (user_kept a userResp); [destruct (user_fails userResp) |];
    intros [= <- <-]; now split.
Qed.

Lemma populateGroup_keeps_roles groupResp a r a' :
  populateGroup groupResp a = Ok (r, a') -> keeps_roles a a'.
Proof.
  rewrite populateGroup_spec. cbv zeta.
  destruct (group_kept a groupResp); [destruct (group_fails groupResp) |];
    intros [= <- <-]; now split.
Qed.

Lemma populatePolicy_keeps_roles policyTags policyResp a r a' :
  populatePolicy policyTags policyResp a = Ok (r, a') -> keeps_roles a a'.
Proof.
  intros Hrun. apply populatePolicy_inv in Hrun
    as [(_ & _ & ->) | [(_ & v & doc & err & _ & _ & _ & ->) |
        (_ & v & doc & oldest & _ & _ & _ & _ & ->)]]; split; try reflexivity.
  simpl. now destruct (second_pass_skips a policyTags policyResp).
Qed.

Lemma role_writes_app ptr ls ls' :
  role_writes ptr (ls ++ ls') = role_writes ptr ls ++ role_writes ptr ls'.
Proof. unfold role_writes. apply omap_app. Qed.

Lemma role_writes_none ptr ls :
  Forall (fun l => forall t, role_target l = Some t -> t <> ptr) ls ->
  role_writes ptr ls = [].
Proof.
  induction 1 as [|l ls Hl _ IH]; [reflexivity |].
  change (l :: ls) with ([l] ++ ls). rewrite role_writes_app, IH, app_nil_r.
  unfold role_writes.
  destruct l as [policyArn target | roleName target]; [reflexivity |].
  simpl. destruct (decide (target = ptr)) as [Heq | _]; [| reflexivity].
  now destruct (Hl target eq_refl).
Qed.

(** The roles of a page, when the loop ends without an error. *)
Lemma roles_loop_records roles a a' :
  forEach populateRole roles a = Ok (None, a') ->
  exists ls new added,
    descriptionFetchWaitGroup a' = descriptionFetchWaitGroup a ++ ls /\
    Forall (fun l => policy_target l = None /\
                     forall t, role_target l = Some t -> length (roleStore a) <= t) ls /\
    roleStore a' = roleStore a ++ added /\
    AccountData_Roles (data a') = AccountData_Roles (data a) ++ new /\
    Forall2 (fun ptr roleResp =>
               length (roleStore a) <= ptr /\
               (exists r, roleStore a' !! ptr = Some r /\
                          role_built_from a roleResp r /\
                          Role_Description r = "" /\ MaxSessionDuration r = 0%Z) /\
               role_writes ptr ls =
                 if SkipFetchingPolicyAndRoleDescriptions a then []
                 else [fst (getRole (RoleDetail_RoleName roleResp))])
      new (List.filter (fun roleResp => negb (role_skipped a roleResp)) roles).
Proof.
  revert a. induction roles as [|roleResp roles IH]; intros a Hrun.
  - injection Hrun as <-. exists [], [], []. rewrite !app_nil_r.
    repeat split; constructor.
  - apply forEach_None_inv in Hrun as (a1 & Hstep & Hrest).
    destruct (IH _ Hrest) as (ls & new & added & Hw & Hls & Hst & Hr & Hall).
    apply populateRole_inv in Hstep
      as [(Hskipped & ->) | (Hskipped & doc & Hdoc & Hinline & ->)].
    + exists ls, new, added. repeat split; try assumption.
      simpl. rewrite Hskipped. exact Hall.
    + simpl in Hw, Hls, Hst, Hr, Hall.
      rewrite length_app in Hls, Hall. simpl in Hls, Hall.
      set (n := length (roleStore a)) in *.
      set (L := RoleLookup (RoleDetail_RoleName roleResp) n) in *.
      set (wrote := if SkipFetchingPolicyAndRoleDescriptions a then [] else [L]).
      assert (descriptionFetchWaitGroup a' = descriptionFetchWaitGroup a ++ wrote ++ ls)
        as Hw'.
      { rewrite Hw. unfold wrote.
        destruct (SkipFetchingPolicyAndRoleDescriptions a);
          [reflexivity | now rewrite <- app_assoc]. }
      assert (role_writes n ls = []) as Hnone.
      { apply role_writes_none.
        eapply Forall_impl; [exact Hls |]. intros l [_ Hl] t Ht. specialize (Hl t Ht). lia. }
      assert (forall ptr, n < ptr -> role_writes ptr wrote = []) as Hother.
      { intros ptr Hptr. unfold wrote, role_writes, L.
        destruct (SkipFetchingPolicyAndRoleDescriptions a); [reflexivity |].
        simpl. destruct (decide (n = ptr)); [lia | reflexivity]. }
      match type of Hst with
      | _ = (_ ++ [?built]) ++ _ => exists (wrote ++ ls), (n :: new), (built :: added)
      end.
      split; [exact Hw' |]. split.
      { apply Forall_app. split.
        - unfold wrote. destruct (SkipFetchingPolicyAndRoleDescriptions a); constructor;
            [| constructor].
          split; [reflexivity |]. intros t [= <-]. lia.
        - eapply Forall_impl; [exact Hls |]. intros l [Hp Hl]. split; [exact Hp |].
          intros t Ht. specialize (Hl t Ht). lia. }
      split; [rewrite Hst, <- app_assoc; reflexivity |].
      split; [rewrite Hr, <- app_assoc; reflexivity |].
      simpl List.filter. rewrite Hskipped. simpl negb.
      constructor.
      * split; [lia |]. split.
        -- eexists. split; [rewrite Hst, <- app_assoc; apply list_lookup_middle; reflexivity |].
           split; [| split; reflexivity].
           unfold role_built_from. simpl.
           repeat split; try reflexivity; [exact Hdoc |].
           eapply inline_parses_None. exact Hinline.
        -- rewrite role_writes_app, Hnone, app_nil_r. unfold wrote, role_writes, L.
           destruct (SkipFetchingPolicyAndRoleDescriptions a); [reflexivity |].
           simpl. destruct (decide (n = n)); [reflexivity | congruence].
      * eapply Forall2_impl; [exact Hall |].
        intros ptr rr (Hge & Hrec & Hwrites).
        split; [lia |]. split; [exact Hrec |].
        rewrite role_writes_app, Hother by lia. exact Hwrites.
Qed.

End RoleExtras.

Section RoleTheorem.

Context `{Clients}.

(** What the lookups leave in the role at [ptr]. *)
Lemma run_lookups_role order a ptr r :
  roleStore a !! ptr = Some r ->
  exists r',
    roleStore (foldl run_lookup a order) !! ptr = Some r' /\
    Role_Description r' =
      last_written (Role_Description r) (map fst (role_writes ptr order)) /\
    MaxSessionDuration r' =
      last_positive (MaxSessionDuration r) (map snd (role_writes ptr order)) /\
    Role_iamService r' = Role_iamService r /\
    AssumeRolePolicyDocument r' = AssumeRolePolicyDocument r /\
    Role_InlinePolicies r' = Role_InlinePolicies r /\
    Role_Policies r' = Role_Policies r.
Proof.
  revert a r. induction order as [|l order IH]; intros a r Hr.
  - exists r. repeat split; auto.
  - simpl foldl.
    assert (exists r1,
              roleStore (run_lookup a l) !! ptr = Some r1 /\
              last_written (Role_Description r1) (map fst (role_writes ptr order))
              = last_written (Role_Description r) (map fst (role_writes ptr (l :: order))) /\
              last_positive (MaxSessionDuration r1) (map snd (role_writes ptr order))
              = last_positive (MaxSessionDuration r) (map snd (role_writes ptr (l :: order))) /\
              Role_iamService r1 = Role_iamService r /\
              AssumeRolePolicyDocument r1 = AssumeRolePolicyDocument r /\
              Role_InlinePolicies r1 = Role_InlinePolicies r /\
              Role_Policies r1 = Role_Policies r)
      as (r1 & Hr1 & Hd & Hm & Hs & Hdoc & Hin & Hpol).
    { unfold run_lookup, role_writes.
      destruct l as [policyArn target | roleName target].
      - exists r. split; [| repeat split; reflexivity].
        now destruct (lookup_error _).
      - simpl omap. destruct (decide (target = ptr)) as [-> | Hne].
        + destruct (getRole roleName) as [[d duration] e] eqn:Hget.
          exists (set_Role_lookup d duration r).
          split; [| repeat split; reflexivity].
          destruct (lookup_error _); simpl; now rewrite list_lookup_alter_eq, Hr.
        + exists r. split; [| repeat split; reflexivity].
          destruct (getRole roleName) as [[d duration] e].
          destruct (lookup_error _); simpl; now rewrite list_lookup_alter_ne. }
    destruct (IH _ _ Hr1) as (r' & Hr' & Hd' & Hm' & Hs' & Hdoc' & Hin' & Hpol').
    exists r'. split; [exact Hr' |]. repeat split; congruence.
Qed.

Lemma policies_loop_keeps_roles policyTags policies a r a' :
  forEach (populatePolicy policyTags) policies a = Ok (r, a') -> keeps_roles a a'.
Proof.
  apply (forEach_preserves keeps_roles); [apply keeps_roles_refl | apply keeps_roles_trans |].
  intros x b r' b' _. apply populatePolicy_keeps_roles.
Qed.

(** The page around its roles. *)
Lemma populateIamData_pages_roles resp a a1 :
  populateIamData_pages resp a = Ok (None, a1) ->
  exists ag ar pl,
    same_settings a ag /\ keeps_roles a ag /\
    descriptionFetchWaitGroup ag = descriptionFetchWaitGroup a /\
    forEach populateRole (RoleDetailList resp) ag = Ok (None, ar) /\
    keeps_roles ar a1 /\
    descriptionFetchWaitGroup a1 = descriptionFetchWaitGroup ar ++ pl /\
    Forall (fun l => role_target l = None) pl.
Proof.
  unfold populateIamData_pages. intros Hrun.
  apply orReturn_None_inv in Hrun as [(err & [=] & _) | (au & Hu & Hrun)].
  apply orReturn_None_inv in Hrun as [(err & [=] & _) | (ag & Hg & Hrun)].
  apply orReturn_None_inv in Hrun as [(err & [=] & _) | (ar & Hr & Hrun)].
  destruct (getMultiplePolicyTags _) as [policyTags [err|]] eqn:Htags; [discriminate |].
  assert (keeps_roles a au) as Hru.
  { revert Hu. apply (forEach_preserves keeps_roles);
      [apply keeps_roles_refl | apply keeps_roles_trans |].
    intros x b r' b' _. apply populateUser_keeps_roles. }
  assert (keeps_roles au ag) as Hrg.
  { revert Hg. apply (forEach_preserves keeps_roles);
      [apply keeps_roles_refl | apply keeps_roles_trans |].
    intros x b r' b' _. apply populateGroup_keeps_roles. }
  apply users_loop in Hu as [(Hsu & _) Hwu].
  apply groups_loop in Hg as [(Hsg & _) Hwg].
  destruct (policies_loop _ _ _ _ Hrun)
    as (_ & _ & _ & _ & _ & (pl & Hw & Hnone & Hsome) & _).
  exists ag, ar, pl.
  split; [exact (same_settings_trans _ _ _ Hsu Hsg) |].
  split; [exact (keeps_roles_trans _ _ _ Hru Hrg) |].
  split; [congruence |]. split; [exact Hr |].
  split; [exact (policies_loop_keeps_roles _ _ _ _ _ Hrun) |].
  split; [exact Hw |].
  destruct (SkipFetchingPolicyAndRoleDescriptions ar) eqn:Hskip.
  - rewrite (Hnone eq_refl). constructor.
  - specialize (Hsome eq_refl). clear -Hsome.
    induction Hsome as [|l pr ls prs [target ->] _ IH]; constructor; auto.
Qed.

(** X27.  With no lookup pending at the start, when a page is handled up
    to the join, every role of the page that the classifier keeps is in
    the snapshot when [populateIamData] returns, in the order of the page,
    with the name and path of the response, its parsed trust policy, its
    inline policies and the normalised ARNs of its attached policies.  With
    descriptions fetched, the role has the description its own lookup
    returned, and the session duration of that lookup when it is positive,
    0 otherwise, whatever the order in which the lookups finished; with
    the fetching switched off it has the empty description and 0. *)
Theorem roles_stored_and_described resp a a1 :
  (forall ls, Permutation (completion_order ls) ls) ->
  descriptionFetchWaitGroup a = [] ->
  populateIamData_pages resp a = Ok (None, a1) ->
  exists r a' new,
    populateIamData resp a = Ok (r, a') /\
    AccountData_Roles (data a') = AccountData_Roles (data a) ++ new /\
    Forall2 (fun ptr roleResp =>
               exists role,
                 roleStore a' !! ptr = Some role /\
                 role_built_from a roleResp role /\
                 let looked := fst (getRole (RoleDetail_RoleName roleResp)) in
                 Role_Description role =
                   (if SkipFetchingPolicyAndRoleDescriptions a then "" else fst looked) /\
                 MaxSessionDuration role =
                   (if SkipFetchingPolicyAndRoleDescriptions a then 0
                    else if 0 <? snd looked then snd looked else 0)%Z)
      new (List.filter (fun roleResp => negb (role_skipped a roleResp))
             (RoleDetailList resp)).
Proof.
  intros Hperm Hwg Hpages.
  pose proof (populateIamData_join resp a a1 Hpages) as Hjoin. cbv zeta in Hjoin.
  destruct (populateIamData_pages_roles resp a a1 Hpages)
    as (ag & ar & pl & Hs & [Hstg Hrg] & Hwgg & Hloop & [Hst1 Hr1] & Hw1 & Hpl).
  destruct (roles_loop_records _ _ _ Hloop) as (ls & new & added & Hw & _ & Hst & Hr & Hall).
  set (order := completion_order (descriptionFetchWaitGroup a1)) in *.
  assert (Permutation order (ls ++ pl)) as Horder.
  { unfold order. rewrite Hperm, Hw1, Hw, Hwgg, Hwg. reflexivity. }
  destruct (run_lookups_frame order a1) as (_ & Hd & _).
  eexists _, _, new. split; [exact Hjoin |].
  simpl. rewrite Hd, Hr1, Hr, Hrg. split; [reflexivity |].
  assert (forall rr, role_skipped ag rr = role_skipped a rr) as Hb.
  { intros rr. unfold role_skipped. now rewrite (isSkippableManagedResource_settings a ag). }
  rewrite (filter_ext _ (fun rr => negb (role_skipped a rr))) in Hall
    by (intros rr; now rewrite Hb).
  assert (SkipFetchingPolicyAndRoleDescriptions ag = SkipFetchingPolicyAndRoleDescriptions a)
    as Hskip by apply Hs.
  rewrite Hskip in Hall.
  eapply Forall2_impl; [exact Hall |].
  intros ptr rr (_ & (role & Hptr & Hbuilt & Hdesc & Hdur) & Hwrites).
  rewrite <- Hst1 in Hptr.
  destruct (run_lookups_role order a1 ptr role Hptr)
    as (role' & Hptr' & Hdesc' & Hdur' & Hname & Hdoc & Hin & Hpol).
  exists role'. split; [exact Hptr' |]. split.
  - destruct Hbuilt as (Hb1 & Hb2 & Hb3 & Hb4 & Hb5).
    unfold role_built_from. rewrite Hname, Hdoc, Hin, Hpol.
    repeat split; try assumption.
    rewrite Hb3. unfold normalised. now rewrite (proj2 (proj2 (proj2 (proj2 (proj2 Hs))))).
  - assert (Permutation (role_writes ptr order)
              (if SkipFetchingPolicyAndRoleDescriptions a then []
               else [fst (getRole (RoleDetail_RoleName rr))])) as Hone.
    { unfold role_writes at 1. rewrite Horder. fold (role_writes ptr (ls ++ pl)).
      rewrite role_writes_app, Hwrites.
      rewrite (role_writes_none ptr pl); [now rewrite app_nil_r |].
      eapply Forall_impl; [exact Hpl |]. intros l Hl t Ht. congruence. }
    cbv zeta. rewrite Hdesc', Hdur', Hdesc, Hdur.
    destruct (SkipFetchingPolicyAndRoleDescriptions a).
    + apply Permutation_nil_r in Hone. rewrite Hone. split; reflexivity.
    + apply Permutation_singleton_r in Hone. rewrite Hone. split; reflexivity.
Qed.

End RoleTheorem.

(** ** The further properties at work on the example accounts *)

Lemma Arn_injective_witness :
  ResourcePath (team_user ["dev"]) = ResourcePath (team_user ["ops"]) /\
  ResourceName (team_user ["dev"]) = ResourceName (team_user ["ops"]).
Proof.
  apply (Arn_injective (team_user ["dev"]) (team_user ["ops"]) example_account).
  - reflexivity.
  - right. exists "/team". reflexivity.
  - right. exists "/team". reflexivity.
  - reflexivity.
  - reflexivity.
  - reflexivity.
Defined.

Lemma policy_Arn_normalises_witness :
  normalisePolicyArn example_account (Arn deploy_policy example_account)
    = "team/Deploy".
Proof.
  destruct (@policy_Arn_normalises readonly_clients deploy_policy example_account "team/")
    as [Hnormal _].
  - reflexivity.
  - exact Hnormal.
Defined.

Lemma FindUserByName_first_witness :
  @FindUserByName readonly_clients
    (addUser (team_user ["ops"]) (addUser (team_user ["dev"]) (emptyAccountData example_account)))
    "alice" "/team/"
  = (true, Some (team_user ["dev"])).
Proof.
  destruct (@FindUserByName_first readonly_clients
              (addUser (team_user ["ops"])
                 (addUser (team_user ["dev"]) (emptyAccountData example_account)))
              "alice" "/team/") as (Hfirst & _).
  apply Hfirst. exists [], [team_user ["ops"]].
  split; [reflexivity |]. split; [reflexivity | constructor].
Defined.

Lemma isSkippableManagedResource_reason_witness :
  snd (@isSkippableManagedResource readonly_clients tagged_fetcher KindIamUser
         "alice" ∅ "/team/") = "".
Proof.
  apply (@isSkippableManagedResource_reason readonly_clients). vm_compute. reflexivity.
Defined.

Lemma skip_tag_skips_witness :
  @isSkippableManagedResource readonly_clients tagged_fetcher KindIamUser "ci"
    {[ "aws:cloudformation:stack-name" := "ci-stack" ]} "/"
  = (true, "Skipping resource ci tagged with aws:cloudformation:stack-name in stack ci-stack").
Proof.
  apply (@skip_tag_skips readonly_clients tagged_fetcher KindIamUser "ci"
           {[ "aws:cloudformation:stack-name" := "ci-stack" ]} "/"
           "aws:cloudformation:stack-name" "ci-stack").
  - vm_compute. reflexivity.
  - exists [], []. split; [reflexivity |]. split; [vm_compute; reflexivity | constructor].
  - vm_compute. reflexivity.
Defined.

Lemma service_role_marker_skips_witness :
  @isSkippableManagedResource readonly_clients readonly_fetcher KindIamRole
    "my-AWSServiceRoleForECS" ∅ "/"
  = (true, "AWS Service role generated resource my-AWSServiceRoleForECS").
Proof.
  destruct (@service_role_marker_skips readonly_clients readonly_fetcher KindIamRole
              "my-AWSServiceRoleForECS" "/") as [Hmarked _].
  - reflexivity.
  - reflexivity.
  - apply Hmarked. exists "my-", "ForECS". left. reflexivity.
Defined.

Lemma findDefaultPolicyVersion_first_witness :
  findDefaultPolicyVersion example_versions
  = Ok {| PolicyVersion_Document := "document-2"; PolicyVersion_VersionId := "v2";
          PolicyVersion_IsDefaultVersion := true; PolicyVersion_CreateDate := 200 |}.
Proof.
  apply findDefaultPolicyVersion_first.
  exists [ {| PolicyVersion_Document := "document-1"; PolicyVersion_VersionId := "v1";
              PolicyVersion_IsDefaultVersion := false; PolicyVersion_CreateDate := 100 |} ],
         [ {| PolicyVersion_Document := "document-3"; PolicyVersion_VersionId := "v3";
              PolicyVersion_IsDefaultVersion := false; PolicyVersion_CreateDate := 300 |} ].
  split; [reflexivity |]. split; [reflexivity |]. repeat constructor.
Defined.

Lemma findOldestPolicyVersionId_first_witness :
  findOldestPolicyVersionId
    ([ {| PolicyVersion_Document := "document-3"; PolicyVersion_VersionId := "v3";
          PolicyVersion_IsDefaultVersion := true; PolicyVersion_CreateDate := 300 |} ]
     ++ {| PolicyVersion_Document := "document-1"; PolicyVersion_VersionId := "v1";
           PolicyVersion_IsDefaultVersion := false; PolicyVersion_CreateDate := 100 |}
     :: [ {| PolicyVersion_Document := "document-2"; PolicyVersion_VersionId := "v2";
             PolicyVersion_IsDefaultVersion := false; PolicyVersion_CreateDate := 100 |} ])
  = Ok "v1".
Proof.
  apply (findOldestPolicyVersionId_first
           [ {| PolicyVersion_Document := "document-3"; PolicyVersion_VersionId := "v3";
                PolicyVersion_IsDefaultVersion := true; PolicyVersion_CreateDate := 300 |} ]
           [ {| PolicyVersion_Document := "document-2"; PolicyVersion_VersionId := "v2";
                PolicyVersion_IsDefaultVersion := false; PolicyVersion_CreateDate := 100 |} ]
           {| PolicyVersion_Document := "document-1"; PolicyVersion_VersionId := "v1";
              PolicyVersion_IsDefaultVersion := false; PolicyVersion_CreateDate := 100 |}).
  - repeat constructor.
  - constructor; [simpl; lia | constructor].
Defined.

Lemma oldest_version_accounted_witness :
  (In "v1" (findNonDefaultPolicyVersionIds example_versions) \/
   exists v, In v example_versions /\ PolicyVersion_IsDefaultVersion v = true /\
             PolicyVersion_VersionId v = "v1") /\
  (has_default example_versions = true ->
   length (findNonDefaultPolicyVersionIds example_versions) < length example_versions).
Proof.
  apply (oldest_version_accounted example_versions "v1"). reflexivity.
Defined.

Lemma populateInlinePolicies_spec_witness :
  @populateInlinePolicies readonly_clients (UserDetail_UserPolicyList bob) []
  = ([@inline_of readonly_clients (inline_detail "own-keys" "document")],
     Some (errors_New "unexpected end of JSON input")).
Proof.
  destruct (@populateInlinePolicies_spec readonly_clients (UserDetail_UserPolicyList bob) [])
    as [_ Hfails].
  apply (Hfails [inline_detail "own-keys" "document"] (inline_detail "draft" "{")
           [inline_detail "later" "document"]); reflexivity.
Defined.

Lemma users_appended_witness :
  @forEach team_clients _ (@populateUser team_clients) [alice; bob; stack_user] team_fetcher =
    Ok (Some (errors_New "unexpected end of JSON input"),
        with_classified
          (classified
             (after_loop (fun u => [user_call u]) user_kept user_of addUser [alice]
                team_fetcher)
           ++ [user_call bob])
          (after_loop (fun u => [user_call u]) user_kept user_of addUser [alice]
             team_fetcher)).
Proof.
  destruct (@users_appended team_clients [alice; bob; stack_user] team_fetcher)
    as (_ & Hstops & _).
  apply (Hstops [alice] bob [stack_user]).
  - reflexivity.
  - intros v [<- | []] _. reflexivity.
  - vm_compute. reflexivity.
  - reflexivity.
Defined.

Lemma groups_appended_witness :
  @forEach team_clients _ (@populateGroup team_clients) [dev_group] team_fetcher =
    Ok (None,
        after_loop (fun g => [group_call g]) group_kept group_of addGroup [dev_group]
          team_fetcher).
Proof.
  destruct (@groups_appended team_clients [dev_group] team_fetcher) as (Hends & _).
  apply Hends. intros g [<- | []] _. reflexivity.
Defined.

Lemma bucket_policies_appended_witness :
  @fetchS3Data team_clients team_fetcher =
    Ok (None,
        after_loop bucket_calls bucket_kept bucket_policy_of addBucketPolicy team_buckets
          team_fetcher) /\
  map BucketName
    (AccountData_BucketPolicies
       (data (after_loop bucket_calls bucket_kept bucket_policy_of addBucketPolicy
                team_buckets team_fetcher)))
  = ["logs"].
Proof.
  destruct (@bucket_policies_appended team_clients team_fetcher)
    as (_ & Hends & _ & Hdata).
  split.
  - apply Hends; [reflexivity |].
    intros b Hb _. simpl in Hb.
    destruct Hb as [<- | [<- | [<- | []]]]; reflexivity.
  - destruct (Hdata team_buckets) as (-> & _). vm_compute. reflexivity.
Defined.

Lemma description_error_sticky_witness :
  exists e' a',
    @populateIamData readonly_clients readonly_page
      (with_descriptionFetchError (Some (errors_New "earlier")) readonly_fetcher)
    = Ok (Some e', a') /\
    descriptionFetchError a' = Some e' /\
    e' = errors_New "earlier".
Proof.
  destruct (@description_error_sticky readonly_clients readonly_page
              (with_descriptionFetchError (Some (errors_New "earlier")) readonly_fetcher)
              (state_of
                 (populateIamData_pages readonly_page
                    (with_descriptionFetchError (Some (errors_New "earlier"))
                       readonly_fetcher))
                 readonly_fetcher)
              (errors_New "earlier"))
    as (e' & a' & Hrun & Hslot & Hsame).
  - reflexivity.
  - vm_compute. reflexivity.
  - exists e', a'. split; [exact Hrun |]. split; [exact Hslot |].
    apply Hsame. intros l Hl. vm_compute in Hl.
    destruct Hl as [<- | []]. reflexivity.
Defined.

Lemma no_lookups_when_skipping_witness :
  descriptionFetchWaitGroup
    (state_of (@populateIamData_pages team_clients team_page (team_settings true))
       (team_settings true)) = [] /\
  @populateIamData team_clients team_page (team_settings true)
  = Ok (None,
        state_of (@populateIamData_pages team_clients team_page (team_settings true))
          (team_settings true)).
Proof.
  apply (@no_lookups_when_skipping team_clients team_page (team_settings true)).
  - intros ls. symmetry. apply Permutation_rev.
  - reflexivity.
  - reflexivity.
  - vm_compute. reflexivity.
Defined.

Lemma policy_descriptions_written_witness :
  exists r a' new,
    @populateIamData team_clients team_page team_fetcher = Ok (r, a') /\
    AccountData_Policies (data a') = new /\
    Forall2 (fun ptr policyResp =>
               exists p,
                 policyStore a' !! ptr = Some p /\
                 Policy_iamService p =
                   {| Name := ManagedPolicyDetail_PolicyName policyResp;
                      Path := ManagedPolicyDetail_Path policyResp |} /\
                 Policy_Description p =
                   fst (@getPolicyDescription team_clients
                          (ManagedPolicyDetail_Arn policyResp)))
      new [example_policy "ReadOnly" example_versions;
           example_policy "Deploy" example_versions].
Proof.
  apply (@policy_descriptions_written team_clients team_page team_fetcher
           (state_of (populateIamData_pages team_page team_fetcher) team_fetcher)).
  - intros ls. symmetry. apply Permutation_rev.
  - reflexivity.
  - reflexivity.
  - vm_compute. reflexivity.
Defined.

Lemma roles_stored_and_described_witness :
  exists r a' new,
    @populateIamData team_clients team_page team_fetcher = Ok (r, a') /\
    AccountData_Roles (data a') = new /\
    Forall2 (fun ptr roleResp =>
               exists role,
                 roleStore a' !! ptr = Some role /\
                 role_built_from team_fetcher roleResp role /\
                 Role_Description role = "about " +:+ RoleDetail_RoleName roleResp /\
                 MaxSessionDuration role = 3600%Z)
      new [example_role "deployer" "/" "trust-1"; example_role "auditor" "/team/" "trust-3"].
Proof.
  apply (@roles_stored_and_described team_clients team_page team_fetcher
           (state_of (populateIamData_pages team_page team_fetcher) team_fetcher)).
  - intros ls. symmetry. apply Permutation_rev.
  - reflexivity.
  - vm_compute. reflexivity.
Defined.

Lemma fetchIamData_returns_pager_error_witness :
  result_of (@populateIamData two_broken_clients two_broken_page two_broken_fetcher) None
    = Some (errors_New "denied") /\
  result_of (@fetchIamData two_broken_clients two_broken_fetcher) None = None.
Proof.
  split; [vm_compute; reflexivity |].
  destruct (@fetchIamData_returns_pager_error two_broken_clients two_broken_fetcher
              (state_of (fetchIamData two_broken_fetcher) two_broken_fetcher)
              (result_of (fetchIamData two_broken_fetcher) None)) as [_ Hquiet].
  - vm_compute. reflexivity.
  - apply Hquiet; apply pager_of_quiet.
Defined.

Lemma Fetch_reports_no_iam_error_witness :
  exists cause,
    errors_Wrap (errors_Wrap (errors_New "AccessDenied") "Error listing buckets")
      "Error fetching S3 data" = errors_Wrap cause "Error in init" \/
    errors_Wrap (errors_Wrap (errors_New "AccessDenied") "Error listing buckets")
      "Error fetching S3 data" = errors_Wrap cause "Error fetching CFN data" \/
    errors_Wrap (errors_Wrap (errors_New "AccessDenied") "Error listing buckets")
      "Error fetching S3 data" = errors_Wrap cause "Error fetching S3 data".
Proof.
  apply (@Fetch_reports_no_iam_error s3_denied_clients s3_denied_fetcher
           (state_of (Fetch s3_denied_fetcher) s3_denied_fetcher) None).
  - apply pager_of_quiet.
  - apply pager_of_quiet.
  - vm_compute. reflexivity.
Defined.

Lemma Fetch_early_failures_witness :
  exists a',
    @Fetch no_region_clients (@example_fetcher no_region_clients false [] [] [])
    = Ok ((None, Some (errors_Wrap (errors_New missing_region_message) "Error in init")),
          a') /\
    same_but_account (@example_fetcher no_region_clients false [] [] []) a'.
Proof.
  destruct (@Fetch_early_failures no_region_clients
              (@example_fetcher no_region_clients false [] [] [])) as (Hinit & _).
  apply Hinit. vm_compute. reflexivity.
Defined.
